(** * ConfidentialUnoGame: a shallow embedding of the game contract

    The development follows [contracts/ConfidentialUnoGame.sol].  Unsigned
    integers of the contract are integers of [Z]; Solidity 0.8 checks its
    arithmetic, so an operation that would leave the type panics instead of
    wrapping, and the places where that can happen are written out as
    [Panic] reverts.  Encrypted values ([euint256]) are modelled by the card
    id they hold and encrypted lists ([elist]) by lists of card ids; access
    control grants ([inco.allow]) and events do not influence the ledger and
    are left out. *)

From Stdlib Require Import ZArith Lia DecimalString.
From stdpp Require Import gmap strings list fin_maps.

Local Open Scope Z_scope.

(** ** Constants *)

Definition DECK_SIZE : Z := 108.
Definition INITIAL_HAND_SIZE : Z := 7.
Definition MAX_PLAYERS : Z := 10.

Definition NUMBER_CARDS_END : Z := 76.
Definition SKIP_START : Z := 76.
Definition SKIP_END : Z := 84.
Definition REVERSE_START : Z := 84.
Definition REVERSE_END : Z := 92.
Definition DRAW_TWO_START : Z := 92.
Definition DRAW_TWO_END : Z := 100.
Definition WILD_START : Z := 100.
Definition WILD_END : Z := 104.
Definition WILD_DRAW_FOUR_START : Z := 104.
Definition WILD_DRAW_FOUR_END : Z := 108.

Definition CARD_TYPE_NUMBER : Z := 0.
Definition CARD_TYPE_SKIP : Z := 1.
Definition CARD_TYPE_REVERSE : Z := 2.
Definition CARD_TYPE_DRAW_TWO : Z := 3.
Definition CARD_TYPE_WILD : Z := 4.
Definition CARD_TYPE_WILD_DRAW_FOUR : Z := 5.

(** Colours, as the header of the contract numbers them; wild cards have
    none. *)
Definition RED : Z := 0.
Definition YELLOW : Z := 1.
Definition GREEN : Z := 2.
Definition BLUE : Z := 3.
Definition NO_COLOR : Z := 4.

(** ** Card helper functions *)

Definition _getCardColor (cardId : Z) : Z :=
  if WILD_START <=? cardId then 4
  else if cardId <? NUMBER_CARDS_END then cardId / 19
  else if cardId <? SKIP_END then (cardId - SKIP_START) / 2
  else if cardId <? REVERSE_END then (cardId - REVERSE_START) / 2
  else if cardId <? DRAW_TWO_END then (cardId - DRAW_TWO_START) / 2
  else 4.

Definition _getCardType (cardId : Z) : Z :=
  if cardId <? NUMBER_CARDS_END then CARD_TYPE_NUMBER
  else if cardId <? SKIP_END then CARD_TYPE_SKIP
  else if cardId <? REVERSE_END then CARD_TYPE_REVERSE
  else if cardId <? DRAW_TWO_END then CARD_TYPE_DRAW_TWO
  else if cardId <? WILD_END then CARD_TYPE_WILD
  else CARD_TYPE_WILD_DRAW_FOUR.

Definition _getCardValue (cardId : Z) : Z :=
  if NUMBER_CARDS_END <=? cardId then 0
  else
    let posInColor := cardId mod 19 in
    if posInColor =? 0 then 0
    else if posInColor <=? 9 then posInColor
    else posInColor - 9.

(** [getCardInfo] returns the three decoded components at once. *)
Definition getCardInfo (cardId : Z) : Z * Z * Z :=
  (_getCardType cardId, _getCardColor cardId, _getCardValue cardId).

Definition _isCardPlayableInternal (cardId topCardId currentColor : Z) : bool :=
  if WILD_START <=? cardId then true
  else
    let cardColor := _getCardColor cardId in
    if cardColor =? currentColor then true
    else
      let cardType := _getCardType cardId in
      let topType := _getCardType topCardId in
      if (cardType =? topType) && negb (cardType =? CARD_TYPE_NUMBER) then true
      else if (cardType =? CARD_TYPE_NUMBER) && (topType =? CARD_TYPE_NUMBER)
      then _getCardValue cardId =? _getCardValue topCardId
      else false.

Definition isCardPlayable (cardId topCardId currentColor : Z) : bool :=
  _isCardPlayableInternal cardId topCardId currentColor.

(** The canonical card ids, [0 .. 107]. *)
Definition canonicalIds : list Z := seqZ 0 DECK_SIZE.

(** Number cards of a given colour and rank. *)
Definition numberCardsOf (c r : Z) : list Z :=
  filter (fun id => _getCardType id = CARD_TYPE_NUMBER
                    ∧ _getCardColor id = c ∧ _getCardValue id = r)
         canonicalIds.

(** ** Storage *)

Inductive GameStatus := NotStarted | Started | Ended.

Global Instance GameStatus_eq_dec : EqDecision GameStatus.
Proof. solve_decision. Defined.

(** Addresses, encrypted values and encrypted lists. *)
Abbreviation address := Z (only parsing).
Abbreviation euint256 := Z (only parsing).
Abbreviation elist := (list Z) (only parsing).

(** The [Game] struct.  The field [gameHash] of the source is never written
    or read by the contract logic and is left out; the field [id] is called
    [gameId] here. *)
Record Game := mkGame {
  gameId : Z;
  players : list address;
  status : GameStatus;
  startTime : Z;
  endTime : Z;
  deck : elist;
  moves : elist;
  topCard : euint256;
  topCardId : Z;
  deckIndex : Z;
  currentPlayerIndex : Z;
  direction : Z;
  currentColor : Z;
  winner : address;
  pendingDraws : Z;
  skipNextPlayer : bool
}.

(** Contract storage.  Nested mappings are keyed by the pair of their keys. *)
Record Contract := mkContract {
  _gameIdCounter : Z;
  _activeGames : list Z;
  _notStartedGames : list Z;
  games : gmap Z Game;
  playerHands : gmap (Z * address) elist;
  hasCalledUno : gmap (Z * address) bool;
  unoPenaltyApplied : gmap (Z * address) bool;
  unoWindowOpen : gmap Z bool;
  unoWindowPlayer : gmap Z address
}.

Definition set_gameId (v : Z) (g : Game) : Game :=
    {| gameId := v; players := players g; status := status g; startTime :=
     startTime g; endTime := endTime g; deck := deck g; moves := moves g;
     topCard := topCard g; topCardId := topCardId g; deckIndex := deckIndex g;
     currentPlayerIndex := currentPlayerIndex g; direction := direction g;
     currentColor := currentColor g; winner := winner g; pendingDraws :=
     pendingDraws g; skipNextPlayer := skipNextPlayer g |}.
Definition set_players (v : list address) (g : Game) : Game :=
    {| gameId := gameId g; players := v; status := status g; startTime :=
     startTime g; endTime := endTime g; deck := deck g; moves := moves g;
     topCard := topCard g; topCardId := topCardId g; deckIndex := deckIndex g;
     currentPlayerIndex := currentPlayerIndex g; direction := direction g;
     currentColor := currentColor g; winner := winner g; pendingDraws :=
     pendingDraws g; skipNextPlayer := skipNextPlayer g |}.
Definition set_status (v : GameStatus) (g : Game) : Game :=
    {| gameId := gameId g; players := players g; status := v; startTime :=
     startTime g; endTime := endTime g; deck := deck g; moves := moves g;
     topCard := topCard g; topCardId := topCardId g; deckIndex := deckIndex g;
     currentPlayerIndex := currentPlayerIndex g; direction := direction g;
     currentColor := currentColor g; winner := winner g; pendingDraws :=
     pendingDraws g; skipNextPlayer := skipNextPlayer g |}.
Definition set_startTime (v : Z) (g : Game) : Game :=
    {| gameId := gameId g; players := players g; status := status g; startTime
     := v; endTime := endTime g; deck := deck g; moves := moves g; topCard :=
     topCard g; topCardId := topCardId g; deckIndex := deckIndex g;
     currentPlayerIndex := currentPlayerIndex g; direction := direction g;
     currentColor := currentColor g; winner := winner g; pendingDraws :=
     pendingDraws g; skipNextPlayer := skipNextPlayer g |}.
Definition set_endTime (v : Z) (g : Game) : Game :=
    {| gameId := gameId g; players := players g; status := status g; startTime
     := startTime g; endTime := v; deck := deck g; moves := moves g; topCard
     := topCard g; topCardId := topCardId g; deckIndex := deckIndex g;
     currentPlayerIndex := currentPlayerIndex g; direction := direction g;
     currentColor := currentColor g; winner := winner g; pendingDraws :=
     pendingDraws g; skipNextPlayer := skipNextPlayer g |}.
Definition set_deck (v : elist) (g : Game) : Game :=
    {| gameId := gameId g; players := players g; status := status g; startTime
     := startTime g; endTime := endTime g; deck := v; moves := moves g;
     topCard := topCard g; topCardId := topCardId g; deckIndex := deckIndex g;
     currentPlayerIndex := currentPlayerIndex g; direction := direction g;
     currentColor := currentColor g; winner := winner g; pendingDraws :=
     pendingDraws g; skipNextPlayer := skipNextPlayer g |}.
Definition set_moves (v : elist) (g : Game) : Game :=
    {| gameId := gameId g; players := players g; status := status g; startTime
     := startTime g; endTime := endTime g; deck := deck g; moves := v; topCard
     := topCard g; topCardId := topCardId g; deckIndex := deckIndex g;
     currentPlayerIndex := currentPlayerIndex g; direction := direction g;
     currentColor := currentColor g; winner := winner g; pendingDraws :=
     pendingDraws g; skipNextPlayer := skipNextPlayer g |}.
Definition set_topCard (v : euint256) (g : Game) : Game :=
    {| gameId := gameId g; players := players g; status := status g; startTime
     := startTime g; endTime := endTime g; deck := deck g; moves := moves g;
     topCard := v; topCardId := topCardId g; deckIndex := deckIndex g;
     currentPlayerIndex := currentPlayerIndex g; direction := direction g;
     currentColor := currentColor g; winner := winner g; pendingDraws :=
     pendingDraws g; skipNextPlayer := skipNextPlayer g |}.
Definition set_topCardId (v : Z) (g : Game) : Game :=
    {| gameId := gameId g; players := players g; status := status g; startTime
     := startTime g; endTime := endTime g; deck := deck g; moves := moves g;
     topCard := topCard g; topCardId := v; deckIndex := deckIndex g;
     currentPlayerIndex := currentPlayerIndex g; direction := direction g;
     currentColor := currentColor g; winner := winner g; pendingDraws :=
     pendingDraws g; skipNextPlayer := skipNextPlayer g |}.
Definition set_deckIndex (v : Z) (g : Game) : Game :=
    {| gameId := gameId g; players := players g; status := status g; startTime
     := startTime g; endTime := endTime g; deck := deck g; moves := moves g;
     topCard := topCard g; topCardId := topCardId g; deckIndex := v;
     currentPlayerIndex := currentPlayerIndex g; direction := direction g;
     currentColor := currentColor g; winner := winner g; pendingDraws :=
     pendingDraws g; skipNextPlayer := skipNextPlayer g |}.
Definition set_currentPlayerIndex (v : Z) (g : Game) : Game :=
    {| gameId := gameId g; players := players g; status := status g; startTime
     := startTime g; endTime := endTime g; deck := deck g; moves := moves g;
     topCard := topCard g; topCardId := topCardId g; deckIndex := deckIndex g;
     currentPlayerIndex := v; direction := direction g; currentColor :=
     currentColor g; winner := winner g; pendingDraws := pendingDraws g;
     skipNextPlayer := skipNextPlayer g |}.
Definition set_direction (v : Z) (g : Game) : Game :=
    {| gameId := gameId g; players := players g; status := status g; startTime
     := startTime g; endTime := endTime g; deck := deck g; moves := moves g;
     topCard := topCard g; topCardId := topCardId g; deckIndex := deckIndex g;
     currentPlayerIndex := currentPlayerIndex g; direction := v; currentColor
     := currentColor g; winner := winner g; pendingDraws := pendingDraws g;
     skipNextPlayer := skipNextPlayer g |}.
Definition set_currentColor (v : Z) (g : Game) : Game :=
    {| gameId := gameId g; players := players g; status := status g; startTime
     := startTime g; endTime := endTime g; deck := deck g; moves := moves g;
     topCard := topCard g; topCardId := topCardId g; deckIndex := deckIndex g;
     currentPlayerIndex := currentPlayerIndex g; direction := direction g;
     currentColor := v; winner := winner g; pendingDraws := pendingDraws g;
     skipNextPlayer := skipNextPlayer g |}.
Definition set_winner (v : address) (g : Game) : Game :=
    {| gameId := gameId g; players := players g; status := status g; startTime
     := startTime g; endTime := endTime g; deck := deck g; moves := moves g;
     topCard := topCard g; topCardId := topCardId g; deckIndex := deckIndex g;
     currentPlayerIndex := currentPlayerIndex g; direction := direction g;
     currentColor := currentColor g; winner := v; pendingDraws := pendingDraws
     g; skipNextPlayer := skipNextPlayer g |}.
Definition set_pendingDraws (v : Z) (g : Game) : Game :=
    {| gameId := gameId g; players := players g; status := status g; startTime
     := startTime g; endTime := endTime g; deck := deck g; moves := moves g;
     topCard := topCard g; topCardId := topCardId g; deckIndex := deckIndex g;
     currentPlayerIndex := currentPlayerIndex g; direction := direction g;
     currentColor := currentColor g; winner := winner g; pendingDraws := v;
     skipNextPlayer := skipNextPlayer g |}.
Definition set_skipNextPlayer (v : bool) (g : Game) : Game :=
    {| gameId := gameId g; players := players g; status := status g; startTime
     := startTime g; endTime := endTime g; deck := deck g; moves := moves g;
     topCard := topCard g; topCardId := topCardId g; deckIndex := deckIndex g;
     currentPlayerIndex := currentPlayerIndex g; direction := direction g;
     currentColor := currentColor g; winner := winner g; pendingDraws :=
     pendingDraws g; skipNextPlayer := v |}.
Definition with_gameIdCounter (v : Z) (s : Contract) : Contract :=
    {| _gameIdCounter := v; _activeGames := _activeGames s; _notStartedGames
     := _notStartedGames s; games := games s; playerHands := playerHands s;
     hasCalledUno := hasCalledUno s; unoPenaltyApplied := unoPenaltyApplied s;
     unoWindowOpen := unoWindowOpen s; unoWindowPlayer := unoWindowPlayer s
     |}.
Definition with_activeGames (v : list Z) (s : Contract) : Contract :=
    {| _gameIdCounter := _gameIdCounter s; _activeGames := v; _notStartedGames
     := _notStartedGames s; games := games s; playerHands := playerHands s;
     hasCalledUno := hasCalledUno s; unoPenaltyApplied := unoPenaltyApplied s;
     unoWindowOpen := unoWindowOpen s; unoWindowPlayer := unoWindowPlayer s
     |}.
Definition with_notStartedGames (v : list Z) (s : Contract) : Contract :=
    {| _gameIdCounter := _gameIdCounter s; _activeGames := _activeGames s;
     _notStartedGames := v; games := games s; playerHands := playerHands s;
     hasCalledUno := hasCalledUno s; unoPenaltyApplied := unoPenaltyApplied s;
     unoWindowOpen := unoWindowOpen s; unoWindowPlayer := unoWindowPlayer s
     |}.
Definition with_games (v : gmap Z Game) (s : Contract) : Contract :=
    {| _gameIdCounter := _gameIdCounter s; _activeGames := _activeGames s;
     _notStartedGames := _notStartedGames s; games := v; playerHands :=
     playerHands s; hasCalledUno := hasCalledUno s; unoPenaltyApplied :=
     unoPenaltyApplied s; unoWindowOpen := unoWindowOpen s; unoWindowPlayer :=
     unoWindowPlayer s |}.
Definition with_playerHands (v : gmap (Z * address) elist) (s : Contract) : Contract :=
    {| _gameIdCounter := _gameIdCounter s; _activeGames := _activeGames s;
     _notStartedGames := _notStartedGames s; games := games s; playerHands :=
     v; hasCalledUno := hasCalledUno s; unoPenaltyApplied := unoPenaltyApplied
     s; unoWindowOpen := unoWindowOpen s; unoWindowPlayer := unoWindowPlayer s
     |}.
Definition with_hasCalledUno (v : gmap (Z * address) bool) (s : Contract) : Contract :=
    {| _gameIdCounter := _gameIdCounter s; _activeGames := _activeGames s;
     _notStartedGames := _notStartedGames s; games := games s; playerHands :=
     playerHands s; hasCalledUno := v; unoPenaltyApplied := unoPenaltyApplied
     s; unoWindowOpen := unoWindowOpen s; unoWindowPlayer := unoWindowPlayer s
     |}.
Definition with_unoPenaltyApplied (v : gmap (Z * address) bool) (s : Contract) : Contract :=
    {| _gameIdCounter := _gameIdCounter s; _activeGames := _activeGames s;
     _notStartedGames := _notStartedGames s; games := games s; playerHands :=
     playerHands s; hasCalledUno := hasCalledUno s; unoPenaltyApplied := v;
     unoWindowOpen := unoWindowOpen s; unoWindowPlayer := unoWindowPlayer s
     |}.
Definition with_unoWindowOpen (v : gmap Z bool) (s : Contract) : Contract :=
    {| _gameIdCounter := _gameIdCounter s; _activeGames := _activeGames s;
     _notStartedGames := _notStartedGames s; games := games s; playerHands :=
     playerHands s; hasCalledUno := hasCalledUno s; unoPenaltyApplied :=
     unoPenaltyApplied s; unoWindowOpen := v; unoWindowPlayer :=
     unoWindowPlayer s |}.
Definition with_unoWindowPlayer (v : gmap Z address) (s : Contract) : Contract :=
    {| _gameIdCounter := _gameIdCounter s; _activeGames := _activeGames s;
     _notStartedGames := _notStartedGames s; games := games s; playerHands :=
     playerHands s; hasCalledUno := hasCalledUno s; unoPenaltyApplied :=
     unoPenaltyApplied s; unoWindowOpen := unoWindowOpen s; unoWindowPlayer :=
     v |}.

(** A storage slot that was never written holds the zero value of its type. *)
Definition zeroGame : Game :=
  {| gameId := 0; players := []; status := NotStarted; startTime := 0;
     endTime := 0; deck := []; moves := []; topCard := 0; topCardId := 0;
     deckIndex := 0; currentPlayerIndex := 0; direction := 0;
     currentColor := 0; winner := 0; pendingDraws := 0;
     skipNextPlayer := false |}.

Definition emptyContract : Contract :=
  {| _gameIdCounter := 0; _activeGames := []; _notStartedGames := [];
     games := ∅; playerHands := ∅; hasCalledUno := ∅;
     unoPenaltyApplied := ∅; unoWindowOpen := ∅; unoWindowPlayer := ∅ |}.

Definition gameAt (s : Contract) (g : Z) : Game :=
  default zeroGame (games s !! g).
Definition handAt (s : Contract) (g : Z) (p : address) : elist :=
  default [] (playerHands s !! (g, p)).
Definition calledUnoAt (s : Contract) (g : Z) (p : address) : bool :=
  default false (hasCalledUno s !! (g, p)).
Definition penaltyAt (s : Contract) (g : Z) (p : address) : bool :=
  default false (unoPenaltyApplied s !! (g, p)).
Definition windowOpenAt (s : Contract) (g : Z) : bool :=
  default false (unoWindowOpen s !! g).
Definition windowPlayerAt (s : Contract) (g : Z) : address :=
  default 0 (unoWindowPlayer s !! g).

Definition setGame (g : Z) (v : Game) (s : Contract) : Contract :=
  with_games (<[g := v]> (games s)) s.
Definition setHand (g : Z) (p : address) (v : elist) (s : Contract) : Contract :=
  with_playerHands (<[(g, p) := v]> (playerHands s)) s.
Definition setCalledUno (g : Z) (p : address) (v : bool) (s : Contract) : Contract :=
  with_hasCalledUno (<[(g, p) := v]> (hasCalledUno s)) s.
Definition setPenalty (g : Z) (p : address) (v : bool) (s : Contract) : Contract :=
  with_unoPenaltyApplied (<[(g, p) := v]> (unoPenaltyApplied s)) s.
Definition setWindowOpen (g : Z) (v : bool) (s : Contract) : Contract :=
  with_unoWindowOpen (<[g := v]> (unoWindowOpen s)) s.
Definition setWindowPlayer (g : Z) (v : address) (s : Contract) : Contract :=
  with_unoWindowPlayer (<[g := v]> (unoWindowPlayer s)) s.

(** ** Execution monad: storage threading with revert *)

Inductive result (A : Type) : Type :=
| Ok (a : A)
| Revert (msg : string).
Arguments Ok {A} a.
Arguments Revert {A} msg.

Definition M (A : Type) : Type := Contract → result (A * Contract).

Global Instance M_ret : MRet M := λ A a s, Ok (a, s).
Global Instance M_bind : MBind M := λ A B f m s,
  match m s with
  | Ok (a, s') => f a s'
  | Revert msg => Revert msg
  end.

Definition revert {A} (msg : string) : M A := λ _, Revert msg.
Definition require (b : bool) (msg : string) : M unit :=
  if b then mret () else revert msg.
Definition when (b : bool) (m : M unit) : M unit :=
  if b then m else mret ().
Definition gets {A} (f : Contract → A) : M A := λ s, Ok (f s, s).
Definition modify (f : Contract → Contract) : M unit := λ s, Ok ((), f s).

(** [game.f = v] on the storage reference [games[g]]. *)
Definition writeGame (g : Z) (f : Game → Game) : M unit :=
  modify (λ s, setGame g (f (gameAt s g)) s).

(** Array read with the bounds check of the language. *)
Definition arrayAt (l : list address) (i : Z) : M address :=
  match (if 0 <=? i then l !! Z.to_nat i else None) with
  | Some a => mret a
  | None => revert "Panic(0x32)"
  end.

(** A transaction either commits the storage it computed or reverts and
    leaves the storage it started from. *)
Inductive outcome := Success | Reverted (msg : string).

Definition transact {A} (m : M A) (s : Contract) : Contract * outcome :=
  match m s with
  | Ok (_, s') => (s', Success)
  | Revert msg => (s, Reverted msg)
  end.

(** ** The call environment and the encrypted-list library *)

(** What a call receives from outside the contract: the caller, the value
    sent, the block time, the fee quoted by the confidentiality layer
    ([inco.getFee()]) and the rearrangement its shuffle service applies
    during this call. *)
Record Env := mkEnv {
  msg_sender : address;
  msg_value : Z;
  block_timestamp : Z;
  inco_getFee : Z;
  permute : list Z → list Z
}.

(** The shuffle service returns a rearrangement of what it is given. *)
Definition validEnv (e : Env) : Prop := ∀ l, permute e l ≡ₚ l.

Module ePreview.

(** Modelled from the spec: the encrypted-list library ([ePreview]) is an
    external dependency that is not part of the repository.  A list is an
    ordered sequence; [length], [append] and [concat] are the sequence
    operations, [getEuint256] reads one position, [slice] takes the window
    [[a, b)], and [shuffle] and [shuffledRange] apply the rearrangement
    supplied with the call.  Reading outside the list and taking an empty
    or overhanging window are taken to fail, which is the most restrictive
    reading; the contract never relies on them succeeding. *)
Definition newEList : elist := [].

Definition append (l : elist) (c : euint256) : elist := l ++ [c].

Definition concat (l1 l2 : elist) : elist := l1 ++ l2.

Definition getEuint256 (l : elist) (i : Z) : M euint256 :=
  match (if 0 <=? i then l !! Z.to_nat i else None) with
  | Some c => mret c
  | None => revert "EList: index out of range"
  end.

Definition length (l : elist) : Z := Z.of_nat (List.length l).

Definition slice (l : elist) (a b : Z) : M elist :=
  if (0 <=? a) && (a <? b) && (b <=? length l)
  then mret (take (Z.to_nat (b - a)) (drop (Z.to_nat a) l))
  else revert "EList: invalid range".

Definition shuffle (e : Env) (l : elist) : elist := permute e l.

Definition shuffledRange (e : Env) (a b : Z) : elist :=
  permute e (seqZ a (b - a)).

End ePreview.

(** ** Modifiers *)

Definition validateGame (_gameId : Z) (requiredStatus : GameStatus) : M unit :=
  counter ← gets _gameIdCounter;
  require ((0 <? _gameId) && (_gameId <=? counter)) "Invalid game ID";;
  game ← gets (λ s, gameAt s _gameId);
  require (bool_decide (status game = requiredStatus))
          "Game is not in the required status".

Definition onlyPlayer (e : Env) (_gameId : Z) : M unit :=
  game ← gets (λ s, gameAt s _gameId);
  require (bool_decide (msg_sender e ∈ players game))
          "Not a player in this game".

(** ** List management *)

(** Swap-with-last removal of the first occurrence, as both registry
    helpers do it. *)
Definition swapRemove (x : Z) (l : list Z) : list Z :=
  match list_find (λ y, y = x) l, last l with
  | Some (i, _), Some z => take (List.length l - 1)%nat (<[i := z]> l)
  | _, _ => l
  end.

Definition _removeFromActiveGames (gameId : Z) : M unit :=
  modify (λ s, with_activeGames (swapRemove gameId (_activeGames s)) s).

Definition _removeFromNotStartedGames (gameId : Z) : M unit :=
  modify (λ s, with_notStartedGames (swapRemove gameId (_notStartedGames s)) s).

(** ** Dealing *)

Definition _dealHandToPlayer (gameId : Z) (player : address) (deck : elist)
    (startPos : Z) : M Z :=
  hand ← ePreview.slice deck startPos (startPos + INITIAL_HAND_SIZE);
  modify (setHand gameId player hand);;
  mret (startPos + INITIAL_HAND_SIZE).

(** ** Game set-up *)

Definition createGame (e : Env) (_creator : address) (initialTopCardId : Z) : M Z :=
  let requiredFee := inco_getFee e * 2 in
  require (requiredFee <=? msg_value e) "Insufficient fee";;
  require (initialTopCardId <? DECK_SIZE) "Invalid initial card ID";;
  modify (λ s, with_gameIdCounter (_gameIdCounter s + 1) s);;
  newGameId ← gets _gameIdCounter;
  let shuffledDeck := ePreview.shuffledRange e 0 DECK_SIZE in
  let emptyMoves := ePreview.newEList in
  writeGame newGameId (set_gameId newGameId);;
  writeGame newGameId (set_players [_creator]);;
  writeGame newGameId (set_status NotStarted);;
  writeGame newGameId (set_startTime (block_timestamp e));;
  writeGame newGameId (set_currentPlayerIndex 0);;
  writeGame newGameId (set_deck shuffledDeck);;
  writeGame newGameId (set_moves emptyMoves);;
  writeGame newGameId (set_deckIndex 0);;
  writeGame newGameId (set_direction 1);;
  writeGame newGameId (set_pendingDraws 0);;
  writeGame newGameId (set_skipNextPlayer false);;
  deckPos ← _dealHandToPlayer newGameId _creator shuffledDeck 0;
  writeGame newGameId (set_deckIndex deckPos);;
  topCard ← ePreview.getEuint256 shuffledDeck deckPos;
  writeGame newGameId (set_deckIndex (deckPos + 1));;
  writeGame newGameId (set_topCard topCard);;
  writeGame newGameId (set_topCardId initialTopCardId);;
  writeGame newGameId
    (set_currentColor (if WILD_START <=? initialTopCardId then 0
                       else _getCardColor initialTopCardId));;
  modify (λ s, with_notStartedGames (_notStartedGames s ++ [newGameId]) s);;
  mret newGameId.

Definition joinGame (e : Env) (gameId : Z) (_joinee : address) : M unit :=
  validateGame gameId NotStarted;;
  game ← gets (λ s, gameAt s gameId);
  require (Z.of_nat (List.length (players game)) <? MAX_PLAYERS) "Game is full";;
  require (inco_getFee e <=? msg_value e) "Insufficient fee";;
  require (bool_decide (_joinee ∉ players game)) "Already in game";;
  require (deckIndex game + INITIAL_HAND_SIZE <? DECK_SIZE) "Not enough cards";;
  writeGame gameId (set_players (players game ++ [_joinee]));;
  deckPos ← _dealHandToPlayer gameId _joinee (deck game) (deckIndex game);
  writeGame gameId (set_deckIndex deckPos).

Definition startGame (e : Env) (gameId : Z) : M unit :=
  validateGame gameId NotStarted;;
  game ← gets (λ s, gameAt s gameId);
  require (2 <=? Z.of_nat (List.length (players game))) "Need at least 2 players";;
  writeGame gameId (set_status Started);;
  _removeFromNotStartedGames gameId;;
  modify (λ s, with_activeGames (_activeGames s ++ [gameId]) s).

(** ** Hands, card effects and the draw pile *)

Definition _removeCardFromHand (currentHand : elist) (cardIndex handSize : Z)
    : M elist :=
  if cardIndex =? 0 then
    ePreview.slice currentHand 1 handSize
  else
    require (1 <=? handSize) "Panic(0x11)";;
    if cardIndex =? handSize - 1 then
      ePreview.slice currentHand 0 cardIndex
    else
      leftPart ← ePreview.slice currentHand 0 cardIndex;
      rightPart ← ePreview.slice currentHand (cardIndex + 1) handSize;
      mret (ePreview.concat leftPart rightPart).

Definition _applyCardEffect (gameId cardType : Z) : M unit :=
  if cardType =? CARD_TYPE_SKIP then
    writeGame gameId (set_skipNextPlayer true)
  else if cardType =? CARD_TYPE_REVERSE then
    game ← gets (λ s, gameAt s gameId);
    require (negb (direction game =? -128)) "Panic(0x11)";;
    writeGame gameId (set_direction (- direction game));;
    when (Z.of_nat (List.length (players game)) =? 2)
         (writeGame gameId (set_skipNextPlayer true))
  else if cardType =? CARD_TYPE_DRAW_TWO then
    writeGame gameId (set_pendingDraws 2);;
    writeGame gameId (set_skipNextPlayer true)
  else if cardType =? CARD_TYPE_WILD_DRAW_FOUR then
    writeGame gameId (set_pendingDraws 4);;
    writeGame gameId (set_skipNextPlayer true)
  else mret ().

Definition _reshuffleFromDiscards (e : Env) (gameId : Z) : M unit :=
  game ← gets (λ s, gameAt s gameId);
  let movesCount := ePreview.length (moves game) in
  require (2 <=? movesCount) "No cards left to reshuffle";;
  cardsToShuffle ← ePreview.slice (moves game) 0 (movesCount - 1);
  let newDeck := ePreview.shuffle e cardsToShuffle in
  let newMoves := ePreview.append ePreview.newEList (topCard game) in
  writeGame gameId (set_deck newDeck);;
  writeGame gameId (set_deckIndex 0);;
  writeGame gameId (set_moves newMoves).

(** One iteration of the loop of [_forceDrawCards]. *)
Definition forceDrawOne (e : Env) (gameId : Z) (player : address) : M unit :=
  game ← gets (λ s, gameAt s gameId);
  when (ePreview.length (deck game) <=? deckIndex game)
       (_reshuffleFromDiscards e gameId);;
  game ← gets (λ s, gameAt s gameId);
  drawnCard ← ePreview.getEuint256 (deck game) (deckIndex game);
  writeGame gameId (set_deckIndex (deckIndex game + 1));;
  currentHand ← gets (λ s, handAt s gameId player);
  let newHand := ePreview.append currentHand drawnCard in
  modify (setHand gameId player newHand).

Fixpoint forceDrawLoop (e : Env) (gameId : Z) (player : address) (n : nat)
    : M unit :=
  match n with
  | O => mret ()
  | S n' => forceDrawOne e gameId player;; forceDrawLoop e gameId player n'
  end.

Definition _forceDrawCards (e : Env) (gameId : Z) (player : address)
    (numCards : Z) : M unit :=
  forceDrawLoop e gameId player (Z.to_nat numCards);;
  modify (setCalledUno gameId player false);;
  modify (setPenalty gameId player false).

(** The index update that [_advanceToNextPlayer] performs twice. *)
Definition moveToNextPlayer (gameId : Z) : M unit :=
  game ← gets (λ s, gameAt s gameId);
  let numPlayers := Z.of_nat (List.length (players game)) in
  if direction game =? 1 then
    require (negb (numPlayers =? 0)) "Panic(0x12)";;
    writeGame gameId
      (set_currentPlayerIndex ((currentPlayerIndex game + 1) mod numPlayers))
  else if currentPlayerIndex game =? 0 then
    require (1 <=? numPlayers) "Panic(0x11)";;
    writeGame gameId (set_currentPlayerIndex (numPlayers - 1))
  else
    writeGame gameId (set_currentPlayerIndex (currentPlayerIndex game - 1)).

Definition _advanceToNextPlayer (e : Env) (gameId : Z) : M unit :=
  moveToNextPlayer gameId;;
  game ← gets (λ s, gameAt s gameId);
  when (skipNextPlayer game)
       (skippedPlayer ← arrayAt (players game) (currentPlayerIndex game);
        writeGame gameId (set_skipNextPlayer false);;
        when (0 <? pendingDraws game)
             (_forceDrawCards e gameId skippedPlayer (pendingDraws game);;
              writeGame gameId (set_pendingDraws 0));;
        moveToNextPlayer gameId);;
  game ← gets (λ s, gameAt s gameId);
  _ ← arrayAt (players game) (currentPlayerIndex game);
  mret ().

(** ** Playing, declaring, challenging and drawing *)

Definition commitMove (e : Env) (gameId cardIndex revealedCardId chosenColor : Z)
    : M unit :=
  validateGame gameId Started;;
  onlyPlayer e gameId;;
  require (inco_getFee e * 2 <=? msg_value e) "Fee required";;
  game ← gets (λ s, gameAt s gameId);
  current ← arrayAt (players game) (currentPlayerIndex game);
  require (bool_decide (current = msg_sender e)) "Not your turn";;
  require (chosenColor <=? 3) "Invalid color";;
  require (revealedCardId <? DECK_SIZE) "Invalid card ID";;
  windowOpen ← gets (λ s, windowOpenAt s gameId);
  windowPlayer ← gets (λ s, windowPlayerAt s gameId);
  when (windowOpen && negb (bool_decide (windowPlayer = msg_sender e)))
       (modify (setWindowOpen gameId false));;
  windowOpen ← gets (λ s, windowOpenAt s gameId);
  when (windowOpen && bool_decide (windowPlayer = msg_sender e))
       (modify (setWindowOpen gameId false));;
  currentHand ← gets (λ s, handAt s gameId (msg_sender e));
  let handSize := ePreview.length currentHand in
  require (cardIndex <? handSize) "Card index out of bounds";;
  require (_isCardPlayableInternal revealedCardId (topCardId game)
                                   (currentColor game))
          "Card not playable";;
  let cardType := _getCardType revealedCardId in
  playedCard ← ePreview.getEuint256 currentHand cardIndex;
  newHand ← (if handSize =? 1 then mret ePreview.newEList
             else _removeCardFromHand currentHand cardIndex handSize);
  let newHandSize := ePreview.length newHand in
  modify (setHand gameId (msg_sender e) newHand);;
  called ← gets (λ s, calledUnoAt s gameId (msg_sender e));
  when ((handSize =? 2) && (newHandSize =? 1))
       (when (negb called)
             (modify (setWindowOpen gameId true);;
              modify (setWindowPlayer gameId (msg_sender e))));;
  modify (setCalledUno gameId (msg_sender e) false);;
  modify (setPenalty gameId (msg_sender e) false);;
  writeGame gameId (set_topCard playedCard);;
  writeGame gameId (set_topCardId revealedCardId);;
  writeGame gameId
    (set_currentColor
       (if (cardType =? CARD_TYPE_WILD) || (cardType =? CARD_TYPE_WILD_DRAW_FOUR)
        then chosenColor else _getCardColor revealedCardId));;
  game ← gets (λ s, gameAt s gameId);
  let newMoves := ePreview.append (moves game) playedCard in
  writeGame gameId (set_moves newMoves);;
  _applyCardEffect gameId cardType;;
  if newHandSize =? 0 then
    writeGame gameId (set_status Ended);;
    writeGame gameId (set_endTime (block_timestamp e));;
    writeGame gameId (set_winner (msg_sender e));;
    _removeFromActiveGames gameId
  else
    _advanceToNextPlayer e gameId.

(** What a function that is not [payable] answers to a call that carries
    value: it reverts, with no revert data, before any modifier runs. *)
Definition nonPayable : string := EmptyString.

Definition callUno (e : Env) (gameId : Z) : M unit :=
  require (msg_value e =? 0) nonPayable;;
  validateGame gameId Started;;
  onlyPlayer e gameId;;
  hand ← gets (λ s, handAt s gameId (msg_sender e));
  let handSize := ePreview.length hand in
  require (handSize =? 2) "Must have exactly 2 cards to call UNO";;
  modify (setCalledUno gameId (msg_sender e) true).

Definition penalizeUno (e : Env) (gameId : Z) (target : address) : M unit :=
  validateGame gameId Started;;
  onlyPlayer e gameId;;
  require (negb (bool_decide (msg_sender e = target))) "Cannot penalize yourself";;
  require (inco_getFee e * 2 <=? msg_value e) "Fee required for penalty";;
  windowOpen ← gets (λ s, windowOpenAt s gameId);
  require windowOpen "Challenge window not open";;
  windowPlayer ← gets (λ s, windowPlayerAt s gameId);
  require (bool_decide (windowPlayer = target)) "Target not in challenge window";;
  penalised ← gets (λ s, penaltyAt s gameId target);
  require (negb penalised) "Penalty already applied";;
  modify (setWindowOpen gameId false);;
  modify (setPenalty gameId target true);;
  _forceDrawCards e gameId target 2.

Definition drawCard (e : Env) (gameId : Z) (endTurn : bool) : M unit :=
  validateGame gameId Started;;
  onlyPlayer e gameId;;
  require (inco_getFee e <=? msg_value e) "Fee required";;
  game ← gets (λ s, gameAt s gameId);
  current ← arrayAt (players game) (currentPlayerIndex game);
  require (bool_decide (current = msg_sender e)) "Not your turn";;
  when (ePreview.length (deck game) <=? deckIndex game)
       (_reshuffleFromDiscards e gameId);;
  windowOpen ← gets (λ s, windowOpenAt s gameId);
  windowPlayer ← gets (λ s, windowPlayerAt s gameId);
  when (windowOpen && bool_decide (windowPlayer = msg_sender e))
       (modify (setWindowOpen gameId false));;
  windowOpen ← gets (λ s, windowOpenAt s gameId);
  when (windowOpen && negb (bool_decide (windowPlayer = msg_sender e)))
       (modify (setWindowOpen gameId false));;
  game ← gets (λ s, gameAt s gameId);
  drawnCard ← ePreview.getEuint256 (deck game) (deckIndex game);
  writeGame gameId (set_deckIndex (deckIndex game + 1));;
  currentHand ← gets (λ s, handAt s gameId (msg_sender e));
  let newHand := ePreview.append currentHand drawnCard in
  modify (setHand gameId (msg_sender e) newHand);;
  when endTurn (_advanceToNextPlayer e gameId).

(** ** The public action surface *)

Inductive Action :=
| CreateGame (_creator : address) (initialTopCardId : Z)
| JoinGame (gameId : Z) (_joinee : address)
| StartGame (gameId : Z)
| CommitMove (gameId cardIndex revealedCardId chosenColor : Z)
| CallUno (gameId : Z)
| PenalizeUno (gameId : Z) (target : address)
| DrawCard (gameId : Z) (endTurn : bool).

Definition exec (e : Env) (a : Action) : M unit :=
  match a with
  | CreateGame c t => _ ← createGame e c t; mret ()
  | JoinGame g j => joinGame e g j
  | StartGame g => startGame e g
  | CommitMove g i r c => commitMove e g i r c
  | CallUno g => callUno e g
  | PenalizeUno g t => penalizeUno e g t
  | DrawCard g b => drawCard e g b
  end.

(** Storage after a call: the computed one on success, the old one on revert. *)
Definition call (e : Env) (a : Action) (s : Contract) : Contract * outcome :=
  transact (exec e a) s.

(** Running a list of calls in order. *)
Fixpoint run (tr : list (Env * Action)) (s : Contract) : Contract :=
  match tr with
  | [] => s
  | (e, a) :: tr' => run tr' (fst (call e a s))
  end.

(** States reachable from the freshly deployed contract by successful calls
    whose shuffle service is honest. *)
Inductive reachable : Contract → Prop :=
| reachable_init : reachable emptyContract
| reachable_step e a s s' :
    reachable s → validEnv e → call e a s = (s', Success) → reachable s'.

(** ** Auxiliary notions used by the statements below *)

(** The rank as the documentation words it: position in the colour band,
    counted once for 0 and twice for 1 to 9. *)
Definition specRank (id : Z) : Z :=
  let r := id mod 19 in if r <=? 9 then r else r - 9.

(** The three pile fields of a game written at once. *)
Definition piles (d : list Z) (di : Z) (m : list Z) (g : Game) : Game :=
  set_moves m (set_deckIndex di (set_deck d g)).

(** The part of the deck that has not been dealt or drawn. *)
Definition drawPile (g : Game) : list Z :=
  drop (Z.to_nat (deckIndex g)) (deck g).

(** All hands of a game, in seating order. *)
Definition allHands (s : Contract) (gid : Z) : list Z :=
  players (gameAt s gid) ≫= handAt s gid.

(** Every card position the contract keeps for a game. *)
Definition ledger (s : Contract) (gid : Z) : list Z :=
  allHands s gid ++ drawPile (gameAt s gid) ++ moves (gameAt s gid).

(** Where [_advanceToNextPlayer] moves the index in one step. *)
Definition nextIndex (g : Game) : Z :=
  let numPlayers := Z.of_nat (length (players g)) in
  if direction g =? 1 then (currentPlayerIndex g + 1) mod numPlayers
  else if currentPlayerIndex g =? 0 then numPlayers - 1
  else currentPlayerIndex g - 1.

(** The player sitting at an index (address zero outside the table). *)
Definition playerAtIndex (g : Game) (i : Z) : address :=
  default 0 (players g !! Z.to_nat i).

(** [modifies gid P w s s'] : between [s] and [s'] nothing changed except
    possibly the record of game [gid], the hand and the two UNO flags of
    the players of [gid] selected by [P], and, when [w] holds, the
    challenge window of [gid]. *)
Record modifies (gid : Z) (P : address → Prop) (w : bool) (s s' : Contract)
    : Prop := mkModifies {
  mod_counter : _gameIdCounter s' = _gameIdCounter s;
  mod_active : _activeGames s' = _activeGames s;
  mod_notStarted : _notStartedGames s' = _notStartedGames s;
  mod_game : ∀ g, g ≠ gid → gameAt s' g = gameAt s g;
  mod_hand : ∀ g p, g ≠ gid ∨ ¬ P p → handAt s' g p = handAt s g p;
  mod_called : ∀ g p, g ≠ gid ∨ ¬ P p → calledUnoAt s' g p = calledUnoAt s g p;
  mod_penalty : ∀ g p, g ≠ gid ∨ ¬ P p → penaltyAt s' g p = penaltyAt s g p;
  mod_open : ∀ g, g ≠ gid ∨ w = false → windowOpenAt s' g = windowOpenAt s g;
  mod_subject : ∀ g, g ≠ gid ∨ w = false → windowPlayerAt s' g = windowPlayerAt s g
}.

(** Pile bookkeeping that every draw relies on: the cursor lies inside the
    deck and, once a card has been played, the top card is the last move. *)
Definition pileInv (g : Game) : Prop :=
  0 ≤ deckIndex g ≤ ePreview.length (deck g)
  ∧ (moves g ≠ [] → last (moves g) = Some (topCard g)).

(** The game record after [_reshuffleFromDiscards]. *)
Definition reshuffled (e : Env) (g : Game) : Game :=
  piles (permute e (take (Z.to_nat (ePreview.length (moves g) - 1)) (moves g)))
        0 [topCard g] g.

(** [drew gid p cs s s'] : player [p] of game [gid] received the cards [cs]
    at the end of the hand; apart from that only the piles of the game
    changed. *)
Definition drew (gid : Z) (p : address) (cs : list Z) (s s' : Contract) : Prop :=
  modifies gid (λ q, q = p) false s s'
  ∧ (∃ d di m, gameAt s' gid = piles d di m (gameAt s gid))
  ∧ handAt s' gid p = handAt s gid p ++ cs
  ∧ (∀ g q, calledUnoAt s' g q = calledUnoAt s g q)
  ∧ (∀ g q, penaltyAt s' g q = penaltyAt s g q).

(** [conserves cs g g'] : the cards [cs] left the piles of [g], and nothing
    else was gained or lost on the way to [g']. *)
Definition conserves (cs : list Z) (g g' : Game) : Prop :=
  cs ++ drawPile g' ++ moves g' ≡ₚ drawPile g ++ moves g
  ∧ pileInv g'
  ∧ (moves g' = [] ↔ moves g = []).

(** The record update performed by [_applyCardEffect]. *)
Definition cardEffect (cardType : Z) (g : Game) : Game :=
  if cardType =? CARD_TYPE_SKIP then set_skipNextPlayer true g
  else if cardType =? CARD_TYPE_REVERSE then
    let g' := set_direction (- direction g) g in
    if Z.of_nat (length (players g)) =? 2 then set_skipNextPlayer true g' else g'
  else if cardType =? CARD_TYPE_DRAW_TWO then
    set_skipNextPlayer true (set_pendingDraws 2 g)
  else if cardType =? CARD_TYPE_WILD_DRAW_FOUR then
    set_skipNextPlayer true (set_pendingDraws 4 g)
  else g.

(** The colour in force after a card has been played. *)
Definition colorAfter (revealedCardId chosenColor : Z) : Z :=
  let cardType := _getCardType revealedCardId in
  if (cardType =? CARD_TYPE_WILD) || (cardType =? CARD_TYPE_WILD_DRAW_FOUR)
  then chosenColor else _getCardColor revealedCardId.

(** The game record once the card [c], announced as [rid], lies on top. *)
Definition placed (c rid cc : Z) (g : Game) : Game :=
  set_moves (moves g ++ [c])
    (set_currentColor (colorAfter rid cc)
       (set_topCardId rid (set_topCard c g))).

(** The same once the effect of the card is registered, before the turn
    passes. *)
Definition laid (c rid cc : Z) (g : Game) : Game :=
  cardEffect (_getCardType rid) (placed c rid cc g).

(** The first requirement of [commitMove] that a call violates, in the
    order in which the function tests them. *)
Definition commitMoveError (e : Env) (gid i rid cc : Z) (s : Contract)
    : option string :=
  let g := gameAt s gid in
  let p := msg_sender e in
  if negb ((0 <? gid) && (gid <=? _gameIdCounter s)) then
    Some "Invalid game ID"
  else if negb (bool_decide (status g = Started)) then
    Some "Game is not in the required status"
  else if negb (bool_decide (p ∈ players g)) then
    Some "Not a player in this game"
  else if negb (inco_getFee e * 2 <=? msg_value e) then
    Some "Fee required"
  else if negb (bool_decide (0 ≤ currentPlayerIndex g
                  ∧ is_Some (players g !! Z.to_nat (currentPlayerIndex g)))) then
    Some "Panic(0x32)"
  else if negb (bool_decide (playerAtIndex g (currentPlayerIndex g) = p)) then
    Some "Not your turn"
  else if negb (cc <=? 3) then
    Some "Invalid color"
  else if negb (rid <? DECK_SIZE) then
    Some "Invalid card ID"
  else if negb (i <? ePreview.length (handAt s gid p)) then
    Some "Card index out of bounds"
  else if negb (_isCardPlayableInternal rid (topCardId g) (currentColor g)) then
    Some "Card not playable"
  else if negb (0 <=? i) then
    Some "EList: index out of range"
  else None.

(** Everything [commitMove] requires before it touches the hand. *)
Definition moveChecks (e : Env) (gid i rid cc : Z) (s : Contract) : Prop :=
  let g := gameAt s gid in
  let p := msg_sender e in
  0 < gid ≤ _gameIdCounter s
  ∧ status g = Started
  ∧ p ∈ players g
  ∧ inco_getFee e * 2 ≤ msg_value e
  ∧ 0 ≤ currentPlayerIndex g
  ∧ players g !! Z.to_nat (currentPlayerIndex g) = Some p
  ∧ cc ≤ 3
  ∧ rid < DECK_SIZE
  ∧ 0 ≤ i < ePreview.length (handAt s gid p)
  ∧ _isCardPlayableInternal rid (topCardId g) (currentColor g) = true.

(** [playedUpTo f e gid i rid cc s sp] : [sp] is the storage of
    [commitMove] after the card has left the hand and lies on top, with the
    game record further updated by [f]. *)
Definition playedUpTo (f : Game → Game) (e : Env) (gid i rid cc : Z)
    (s sp : Contract) : Prop :=
  let g := gameAt s gid in
  let p := msg_sender e in
  let hand := handAt s gid p in
  ∃ c, hand !! Z.to_nat i = Some c
    ∧ modifies gid (λ q, q = p) true s sp
    ∧ gameAt sp gid = f (placed c rid cc g)
    ∧ handAt sp gid p = delete (Z.to_nat i) hand
    ∧ calledUnoAt sp gid p = false
    ∧ penaltyAt sp gid p = false
    ∧ windowOpenAt sp gid
      = (ePreview.length hand =? 2) && negb (calledUnoAt s gid p)
    ∧ (windowOpenAt sp gid = true → windowPlayerAt sp gid = p).

(** The storage of [commitMove] after the card effect has been applied and
    before the win test. *)
Definition played (e : Env) (gid i rid cc : Z) (s sp : Contract) : Prop :=
  playedUpTo (cardEffect (_getCardType rid)) e gid i rid cc s sp.

(** What [commitMove] does after the card effect: the win branch or the
    turn advance. *)
Definition finishMove (e : Env) (gid : Z) (newHandSize : Z) : M unit :=
  if newHandSize =? 0 then
    writeGame gid (set_status Ended);;
    writeGame gid (set_endTime (block_timestamp e));;
    writeGame gid (set_winner (msg_sender e));;
    _removeFromActiveGames gid
  else
    _advanceToNextPlayer e gid.

(** The storage written by the win branch of [commitMove]. *)
Definition won (e : Env) (gid : Z) (sp : Contract) : Contract :=
  with_activeGames (swapRemove gid (_activeGames sp))
    (setGame gid
       (set_winner (msg_sender e)
          (set_endTime (block_timestamp e)
             (set_status Ended (gameAt sp gid)))) sp).

(** ** Invariants of a game *)

(** The ledger statement: the hands, the draw pile and the moves list hold
    every canonical id except one card [c0], each exactly once.  The card
    [c0] is the one turned over at creation: it is the top card as long as
    nothing has been played, and once a card has been played the top card
    is the last move. *)
Definition ledgerInv (s : Contract) (gid : Z) : Prop :=
  let g := gameAt s gid in
  ∃ c0, c0 :: ledger s gid ≡ₚ canonicalIds
        ∧ (moves g = [] → topCard g = c0)
        ∧ (moves g ≠ [] → last (moves g) = Some (topCard g)).

(** Shape of a game record and of its challenge window. *)
Definition gameShape (s : Contract) (gid : Z) : Prop :=
  let g := gameAt s gid in
  NoDup (players g)
  ∧ 0 ≤ currentPlayerIndex g < Z.of_nat (length (players g))
  ∧ (status g = Started → 2 ≤ Z.of_nat (length (players g)))
  ∧ (direction g = 1 ∨ direction g = -1)
  ∧ (windowOpenAt s gid = true → windowPlayerAt s gid ∈ players g)
  ∧ pileInv g.

(** Between two calls no skip and no forced draw is pending. *)
Definition settled (g : Game) : Prop :=
  status g ≠ Ended → skipNextPlayer g = false ∧ pendingDraws g = 0.

Definition gameWf (s : Contract) (gid : Z) : Prop :=
  gameShape s gid ∧ settled (gameAt s gid).

Definition gameInv (s : Contract) (gid : Z) : Prop :=
  gameWf s gid ∧ ledgerInv s gid.

(** The invariant of the whole storage: every created game satisfies
    [gameInv], and no window is open for an id that was never handed out. *)
Definition Inv (s : Contract) : Prop :=
  0 ≤ _gameIdCounter s
  ∧ (∀ gid, 0 < gid ≤ _gameIdCounter s → gameInv s gid)
  ∧ (∀ gid, ¬ (0 < gid ≤ _gameIdCounter s) → windowOpenAt s gid = false).

(** The per-game part of the storage that [gameInv] reads. *)
Definition sameGame (gid : Z) (s s' : Contract) : Prop :=
  gameAt s' gid = gameAt s gid
  ∧ (∀ p, handAt s' gid p = handAt s gid p)
  ∧ windowOpenAt s' gid = windowOpenAt s gid
  ∧ windowPlayerAt s' gid = windowPlayerAt s gid.

(** The record of a freshly created game; [g0] is what the slot held before. *)
Definition createdGame (e : Env) (creator top t : Z) (n : Z) (g0 : Game) : Game :=
  {| gameId := n; players := [creator]; status := NotStarted;
     startTime := block_timestamp e; endTime := endTime g0;
     deck := ePreview.shuffledRange e 0 DECK_SIZE; moves := [];
     topCard := top; topCardId := t;
     deckIndex := INITIAL_HAND_SIZE + 1; currentPlayerIndex := 0;
     direction := 1;
     currentColor := (if WILD_START <=? t then 0 else _getCardColor t);
     winner := winner g0; pendingDraws := 0; skipNextPlayer := false |}.


(** The message of the only requirement of [_reshuffleFromDiscards]. *)
Definition noReshuffle : string := "No cards left to reshuffle".

(** ** First violated requirement of each action *)

Definition createGameError (e : Env) (t : Z) : option string :=
  if negb (inco_getFee e * 2 <=? msg_value e) then Some "Insufficient fee"
  else if negb (t <? DECK_SIZE) then Some "Invalid initial card ID"
  else None.

Definition joinGameError (e : Env) (gid j : Z) (s : Contract) : option string :=
  let g := gameAt s gid in
  if negb ((0 <? gid) && (gid <=? _gameIdCounter s)) then
    Some "Invalid game ID"
  else if negb (bool_decide (status g = NotStarted)) then
    Some "Game is not in the required status"
  else if negb (Z.of_nat (length (players g)) <? MAX_PLAYERS) then
    Some "Game is full"
  else if negb (inco_getFee e <=? msg_value e) then
    Some "Insufficient fee"
  else if negb (bool_decide (j ∉ players g)) then
    Some "Already in game"
  else if negb (deckIndex g + INITIAL_HAND_SIZE <? DECK_SIZE) then
    Some "Not enough cards"
  else None.

Definition startGameError (gid : Z) (s : Contract) : option string :=
  let g := gameAt s gid in
  if negb ((0 <? gid) && (gid <=? _gameIdCounter s)) then
    Some "Invalid game ID"
  else if negb (bool_decide (status g = NotStarted)) then
    Some "Game is not in the required status"
  else if negb (2 <=? Z.of_nat (length (players g))) then
    Some "Need at least 2 players"
  else None.

Definition callUnoError (e : Env) (gid : Z) (s : Contract) : option string :=
  let g := gameAt s gid in
  let p := msg_sender e in
  if negb (msg_value e =? 0) then
    Some nonPayable
  else if negb ((0 <? gid) && (gid <=? _gameIdCounter s)) then
    Some "Invalid game ID"
  else if negb (bool_decide (status g = Started)) then
    Some "Game is not in the required status"
  else if negb (bool_decide (p ∈ players g)) then
    Some "Not a player in this game"
  else if negb (ePreview.length (handAt s gid p) =? 2) then
    Some "Must have exactly 2 cards to call UNO"
  else None.

Definition penalizeUnoError (e : Env) (gid target : Z) (s : Contract)
    : option string :=
  let g := gameAt s gid in
  let p := msg_sender e in
  if negb ((0 <? gid) && (gid <=? _gameIdCounter s)) then
    Some "Invalid game ID"
  else if negb (bool_decide (status g = Started)) then
    Some "Game is not in the required status"
  else if negb (bool_decide (p ∈ players g)) then
    Some "Not a player in this game"
  else if bool_decide (p = target) then
    Some "Cannot penalize yourself"
  else if negb (inco_getFee e * 2 <=? msg_value e) then
    Some "Fee required for penalty"
  else if negb (windowOpenAt s gid) then
    Some "Challenge window not open"
  else if negb (bool_decide (windowPlayerAt s gid = target)) then
    Some "Target not in challenge window"
  else if penaltyAt s gid target then
    Some "Penalty already applied"
  else None.

Definition drawCardError (e : Env) (gid : Z) (s : Contract) : option string :=
  let g := gameAt s gid in
  let p := msg_sender e in
  if negb ((0 <? gid) && (gid <=? _gameIdCounter s)) then
    Some "Invalid game ID"
  else if negb (bool_decide (status g = Started)) then
    Some "Game is not in the required status"
  else if negb (bool_decide (p ∈ players g)) then
    Some "Not a player in this game"
  else if negb (inco_getFee e <=? msg_value e) then
    Some "Fee required"
  else if negb (bool_decide (0 ≤ currentPlayerIndex g
                  ∧ is_Some (players g !! Z.to_nat (currentPlayerIndex g)))) then
    Some "Panic(0x32)"
  else if negb (bool_decide (playerAtIndex g (currentPlayerIndex g) = p)) then
    Some "Not your turn"
  else if (ePreview.length (deck g) <=? deckIndex g)
          && negb (2 <=? ePreview.length (moves g)) then
    Some noReshuffle
  else None.

Definition firstViolation (e : Env) (a : Action) (s : Contract) : option string :=
  match a with
  | CreateGame _ t => createGameError e t
  | JoinGame g j => joinGameError e g j s
  | StartGame g => startGameError g s
  | CommitMove g i r c => commitMoveError e g i r c s
  | CallUno g => callUnoError e g s
  | PenalizeUno g t => penalizeUnoError e g t s
  | DrawCard g _ => drawCardError e g s
  end.

(** How many cards the next player is made to draw by a card of the
    announced id. *)
Definition forcedDraws (revealedCardId : Z) : Z :=
  let cardType := _getCardType revealedCardId in
  if cardType =? CARD_TYPE_DRAW_TWO then 2
  else if cardType =? CARD_TYPE_WILD_DRAW_FOUR then 4
  else 0.

(** A play by a participant who holds exactly two cards: the transition
    of the hand size from 2 to 1. *)
Definition twoToOne (e : Env) (a : Action) (gid : Z) (s : Contract) : bool :=
  match a with
  | CommitMove g _ _ _ =>
      bool_decide (g = gid)
      && (ePreview.length (handAt s gid (msg_sender e)) =? 2)
  | _ => false
  end.

(** [noTransition gid s s'] : [s'] is reached from [s] by successful calls
    none of which is a 2-to-1 transition in game [gid]. *)
Inductive noTransition (gid : Z) : Contract → Contract → Prop :=
| noTransition_refl s : noTransition gid s s
| noTransition_step s e a s' s'' :
    noTransition gid s s' → validEnv e →
    twoToOne e a gid s' = false →
    call e a s' = (s'', Success) →
    noTransition gid s s''.

(** ** A table of two used in the examples *)

Definition alice : address := 10.
Definition bob : address := 11.

(** A caller who attaches twice the fee; the library reverses where it
    shuffles, so that the deck of a new game is [107, 106, ..., 0]. *)
Definition asPlayer (sender : address) : Env :=
  {| msg_sender := sender; msg_value := 2; block_timestamp := 1000;
     inco_getFee := 1; permute := reverse |}.

(** The same caller attaching nothing. *)
Definition unpaid (sender : address) : Env :=
  {| msg_sender := sender; msg_value := 0; block_timestamp := 1000;
     inco_getFee := 1; permute := reverse |}.

(** Game 1 is created by alice with the card turned over announced
    truthfully, bob joins and the game starts:  alice holds
    [107 .. 101], the card turned over is 100, bob holds [99 .. 93]. *)
Definition opening : list (Env * Action) :=
  [ (asPlayer alice, CreateGame alice 100);
    (asPlayer bob, JoinGame 1 bob);
    (asPlayer alice, StartGame 1) ].

Definition tableStarted : Contract := run opening emptyContract.

(** Alice plays her first card, the wild draw four 107. *)
Definition tableFirstPlay : Contract :=
  run [ (asPlayer alice, CommitMove 1 0 107 0) ] tableStarted.

(** Alice draws until the deck is used up. *)
Definition tableDeckUsedUp : Contract :=
  run (replicate 93 (asPlayer alice, DrawCard 1 false)) tableStarted.

(** Alice plays her four wild draw fours and a wild, each truthfully
    announced, and is left with [102, 101]; bob has drawn sixteen cards and
    is to move. *)
Definition downToTwo : list (Env * Action) :=
  [ (asPlayer alice, CommitMove 1 0 107 0);
    (asPlayer alice, CommitMove 1 0 106 0);
    (asPlayer alice, CommitMove 1 0 105 0);
    (asPlayer alice, CommitMove 1 0 104 0);
    (asPlayer alice, CommitMove 1 0 103 0) ].

Definition tableTwoLeft : Contract := run downToTwo tableStarted.


(** Bob draws the rest of the deck and, after the reshuffle, the four
    cards it yields, then passes:  the draw pile is empty and the moves
    list holds one card. *)
Definition tableNoCards : Contract :=
  run (replicate 80 (asPlayer bob, DrawCard 1 false)
       ++ [ (asPlayer bob, DrawCard 1 true) ])
      tableTwoLeft.

(** Alice, who has not declared, plays the wild 102 and keeps one card. *)
Definition tableWindowOpen : Contract :=
  run [ (asPlayer alice, CommitMove 1 0 102 0) ] tableNoCards.

(** With cards left in the deck:  bob draws and passes, so that alice is
    to move with two cards and no declaration ... *)
Definition tableAliceToMove : Contract :=
  run [ (asPlayer bob, DrawCard 1 true) ] tableTwoLeft.

(** ... and alice plays the wild 102. *)
Definition tableOneLeft : Contract :=
  run [ (asPlayer alice, CommitMove 1 0 102 0) ] tableAliceToMove.

(** Alice declares UNO instead; [callUno] is not payable, so she attaches
    nothing. *)
Definition tableDeclared : Contract :=
  run [ (unpaid alice, CallUno 1) ] tableAliceToMove.

(** Alice is left with one card and it is her turn again. *)
Definition tableLastCard : Contract :=
  run [ (asPlayer bob, DrawCard 1 true) ] tableOneLeft.

(** Bob challenges alice, who played her second-to-last card without
    declaring, while the deck still holds cards. *)
Definition tablePenalized : Contract :=
  run [ (asPlayer bob, PenalizeUno 1 alice) ] tableOneLeft.

(** ** View functions *)

Definition getActiveGames (s : Contract) : list Z := _activeGames s.

Definition getNotStartedGames (s : Contract) : list Z := _notStartedGames s.

(** What [getGame] returns, without the [gameHash] handle. *)
Record GameView := mkGameView {
  view_id : Z;
  view_players : list address;
  view_status : GameStatus;
  view_startTime : Z;
  view_endTime : Z;
  view_moveCount : Z;
  view_topCard : euint256;
  view_topCardId : Z;
  view_deckRemaining : Z;
  view_currentPlayerIndex : Z;
  view_direction : Z;
  view_currentColor : Z;
  view_winner : address;
  view_pendingDraws : Z
}.

(** [DECK_SIZE - game.deckIndex] is a checked subtraction of unsigned
    integers. *)
Definition getGame (_gameId : Z) : M GameView :=
  game ← gets (λ s, gameAt s _gameId);
  require (deckIndex game <=? DECK_SIZE) "Panic(0x11)";;
  mret {| view_id := gameId game;
          view_players := players game;
          view_status := status game;
          view_startTime := startTime game;
          view_endTime := endTime game;
          view_moveCount := ePreview.length (moves game);
          view_topCard := topCard game;
          view_topCardId := topCardId game;
          view_deckRemaining := DECK_SIZE - deckIndex game;
          view_currentPlayerIndex := currentPlayerIndex game;
          view_direction := direction game;
          view_currentColor := currentColor game;
          view_winner := winner game;
          view_pendingDraws := pendingDraws game |}.

Definition getPlayerHandSize (s : Contract) (gameId : Z) (player : address) : Z :=
  ePreview.length (handAt s gameId player).

Definition getAllPlayerHandSizes (s : Contract) (gameId : Z)
    : list address * list Z :=
  let game := gameAt s gameId in
  (players game,
   map (λ p, ePreview.length (handAt s gameId p)) (players game)).

Definition hasPlayerCalledUno (s : Contract) (gameId : Z) (player : address)
    : bool :=
  calledUnoAt s gameId player.

Definition canPenalizePlayer (s : Contract) (gameId : Z) (target : address)
    : bool :=
  windowOpenAt s gameId
  && bool_decide (windowPlayerAt s gameId = target)
  && negb (penaltyAt s gameId target).

Definition isUnoWindowOpen (s : Contract) (gameId : Z) : bool :=
  windowOpenAt s gameId.

Definition getUnoWindowPlayer (s : Contract) (gameId : Z) : address :=
  windowPlayerAt s gameId.

Definition getCardFromHand (gameId : Z) (player : address) (index : Z)
    : M euint256 :=
  hand ← gets (λ s, handAt s gameId player);
  require (index <? ePreview.length hand) "Index out of bounds";;
  ePreview.getEuint256 hand index.

Definition getCreateGameFee (e : Env) : Z := inco_getFee e * 2.

Definition getJoinGameFee (e : Env) : Z := inco_getFee e.

(** ** Further invariants *)

(** A game that has not started: nothing has been played or drawn, and
    every participant holds the hand dealt on entry. *)
Definition dealt (s : Contract) (gid : Z) : Prop :=
  let g := gameAt s gid in
  moves g = []
  ∧ ePreview.length (deck g) = DECK_SIZE
  ∧ deckIndex g = INITIAL_HAND_SIZE * Z.of_nat (length (players g)) + 1
  ∧ ∀ p, p ∈ players g →
         ePreview.length (handAt s gid p) = INITIAL_HAND_SIZE.

(** Facts about the table of a game that follow the life cycle: the number
    of seats, the colour in force, the hands, the winner and the challenge
    window. *)
Definition tableFacts (s : Contract) (gid : Z) : Prop :=
  let g := gameAt s gid in
  1 ≤ Z.of_nat (length (players g)) ≤ MAX_PLAYERS
  ∧ (topCardId g < WILD_START → currentColor g = _getCardColor (topCardId g))
  ∧ (status g = NotStarted → dealt s gid)
  ∧ (status g ≠ Ended → ∀ p, p ∈ players g → handAt s gid p ≠ [])
  ∧ (status g = Ended → winner g ∈ players g ∧ handAt s gid (winner g) = [])
  ∧ (windowOpenAt s gid = true →
     status g = Started
     ∧ ePreview.length (handAt s gid (windowPlayerAt s gid)) = 1).

(** The registries list the games by status, and no penalty flag is left
    set between two calls. *)
Definition registryInv (s : Contract) : Prop :=
  NoDup (_notStartedGames s) ∧ NoDup (_activeGames s)
  ∧ (∀ gid, gid ∈ _notStartedGames s ↔
            0 < gid ≤ _gameIdCounter s ∧ status (gameAt s gid) = NotStarted)
  ∧ (∀ gid, gid ∈ _activeGames s ↔
            0 < gid ≤ _gameIdCounter s ∧ status (gameAt s gid) = Started).

Definition Facts (s : Contract) : Prop :=
  (∀ gid, 0 < gid ≤ _gameIdCounter s → tableFacts s gid)
  ∧ (∀ gid p, penaltyAt s gid p = false)
  ∧ registryInv s.

(** Position of a status in the life cycle. *)
Definition statusRank (st : GameStatus) : Z :=
  match st with NotStarted => 0 | Started => 1 | Ended => 2 end.

(** The seat next to [i] among [n] seats in direction [dir], as
    [_advanceToNextPlayer] computes it. *)
Definition neighbour (dir n i : Z) : Z :=
  if dir =? 1 then (i + 1) mod n
  else if i =? 0 then n - 1
  else i - 1.

(** Whether the card announced makes the next player lose the turn. *)
Definition skipsNext (revealedCardId : Z) (numPlayers : Z) : bool :=
  let cardType := _getCardType revealedCardId in
  (cardType =? CARD_TYPE_SKIP)
  || (cardType =? CARD_TYPE_DRAW_TWO)
  || (cardType =? CARD_TYPE_WILD_DRAW_FOUR)
  || ((cardType =? CARD_TYPE_REVERSE) && (numPlayers =? 2)).

(** The direction of play once the card announced has taken effect. *)
Definition directionAfter (revealedCardId : Z) (dir : Z) : Z :=
  if _getCardType revealedCardId =? CARD_TYPE_REVERSE then - dir else dir.

(** The game an action addresses; [createGame] addresses none. *)
Definition targetOf (a : Action) : option Z :=
  match a with
  | CreateGame _ _ => None
  | JoinGame g _ | StartGame g | CommitMove g _ _ _ | CallUno g
  | PenalizeUno g _ | DrawCard g _ => Some g
  end.

(** Sum of a list of sizes. *)
Definition total (l : list Z) : Z := foldr Z.add 0 l.

(** Alice has created game 1 and bob has joined; the game has not started. *)
Definition tableLobby : Contract :=
  run [ (asPlayer alice, CreateGame alice 100);
        (asPlayer bob, JoinGame 1 bob) ] emptyContract.

(** Alice has played her last card. *)
Definition tableWon : Contract :=
  run [ (asPlayer alice, CommitMove 1 0 101 0) ] tableLastCard.

(** The deck that [_reshuffleFromDiscards] builds: the moves list without
    its last entry, rearranged by the shuffle service. *)
Definition reshuffledDeck (e : Env) (g : Game) : elist :=
  ePreview.shuffle e
    (take (Z.to_nat (ePreview.length (moves g) - 1)) (moves g)).

(** Whether the draw pile of the game an action addresses holds the cards
    that the action hands out as forced draws. *)
Definition roomInDeck (a : Action) (s : Contract) : Prop :=
  match a with
  | CommitMove gid _ rid _ =>
      deckIndex (gameAt s gid) + forcedDraws rid
      ≤ ePreview.length (deck (gameAt s gid))
  | PenalizeUno gid _ =>
      deckIndex (gameAt s gid) + 2 ≤ ePreview.length (deck (gameAt s gid))
  | _ => True
  end.

(** Where in the deck the hand of seat [k] is cut: [createGame] deals the
    creator the first seven cards and turns over the eighth, and every
    [joinGame] deals the next seven. *)
Definition dealtFrom (k : nat) : Z :=
  match k with
  | O => 0
  | S _ => INITIAL_HAND_SIZE * Z.of_nat k + 1
  end.

(** The table of a game while players are joining. *)
Definition lobby (s : Contract) (gid : Z) : Prop :=
  let g := gameAt s gid in
  currentPlayerIndex g = 0 ∧ direction g = 1
  ∧ deck g !! Z.to_nat INITIAL_HAND_SIZE = Some (topCard g)
  ∧ ∀ k p, players g !! k = Some p →
           handAt s gid p
           = take (Z.to_nat INITIAL_HAND_SIZE)
               (drop (Z.to_nat (dealtFrom k)) (deck g)).

(** ** The client's card decoder

    [src/utils/uno/types.ts] decodes a card id for display.  A card id is a
    JavaScript number there; the model takes it to be an integer, so that
    [Math.floor (x / n)] is the floor division and [%] the remainder with
    the sign of the dividend.  Reading an array outside its bounds yields
    [undefined], modelled by [None]. *)
Module types.

Definition CardColor : Type := string.
Definition CardValue : Type := string.

Record UnoCard := mkUnoCard {
  id : Z;
  color : option CardColor;
  value : CardValue
}.

Definition COLORS : list CardColor := ["red"; "yellow"; "green"; "blue"].

Definition arrayGet {A} (l : list A) (i : Z) : option A :=
  if 0 <=? i then l !! Z.to_nat i else None.

(** [Number.prototype.toString] on an integer. *)
Definition toString (n : Z) : string := NilZero.string_of_int (Z.to_int n).

Definition cardIdToCard (cardId : Z) : UnoCard :=
  if 104 <=? cardId then
    {| id := cardId; color := Some "wild"; value := "wild4" |}
  else if 100 <=? cardId then
    {| id := cardId; color := Some "wild"; value := "wild" |}
  else if 92 <=? cardId then
    let colorIndex := (cardId - 92) / 2 in
    {| id := cardId; color := arrayGet COLORS colorIndex; value := "draw2" |}
  else if 84 <=? cardId then
    let colorIndex := (cardId - 84) / 2 in
    {| id := cardId; color := arrayGet COLORS colorIndex; value := "reverse" |}
  else if 76 <=? cardId then
    let colorIndex := (cardId - 76) / 2 in
    {| id := cardId; color := arrayGet COLORS colorIndex; value := "skip" |}
  else
    let colorIndex := cardId / 19 in
    let posInColor := Z.rem cardId 19 in
    let color := arrayGet COLORS colorIndex in
    let value :=
      if posInColor =? 0 then "0"
      else if posInColor <=? 9 then toString posInColor
      else toString (posInColor - 9) in
    {| id := cardId; color := color; value := value |}.

Definition cardToId (card : UnoCard) : Z := id card.

Definition canPlayCard (card topCard : UnoCard) : bool :=
  if bool_decide (color card = Some "wild") then true
  else if bool_decide (color card = color topCard) then true
  else if bool_decide (value card = value topCard) then true
  else false.

End types.

(** The name under which the client shows a colour of the contract. *)
Definition colorName (c : Z) : option string :=
  if c =? NO_COLOR then Some "wild" else types.arrayGet types.COLORS c.

(** The name under which the client shows the kind and rank of a card of
    the contract. *)
Definition valueName (cardType cardValue : Z) : string :=
  if cardType =? CARD_TYPE_NUMBER then types.toString cardValue
  else if cardType =? CARD_TYPE_SKIP then "skip"
  else if cardType =? CARD_TYPE_REVERSE then "reverse"
  else if cardType =? CARD_TYPE_DRAW_TWO then "draw2"
  else if cardType =? CARD_TYPE_WILD then "wild"
  else "wild4".

(** Whether the client's decoding of [cardId] is the contract's. *)
Definition decodesAlike (cardId : Z) : bool :=
  let card := types.cardIdToCard cardId in
  bool_decide (types.id card = cardId)
  && bool_decide (types.color card = colorName (_getCardColor cardId))
  && bool_decide (types.value card
                  = valueName (_getCardType cardId) (_getCardValue cardId)).

(** Whether the client and the contract agree that [cardId] can be played
    on [topCardId] when the colour in force is the colour of the top
    card. *)
Definition playableAlike (topCardId cardId : Z) : bool :=
  bool_decide
    (types.canPlayCard (types.cardIdToCard cardId) (types.cardIdToCard topCardId)
     = isCardPlayable cardId topCardId (_getCardColor topCardId)).

(** * Verification *)

(** ** Stepping through the execution monad *)

Lemma bind_mret {A B} (a : A) (k : A → M B) s : (mret a ≫= k) s = k a s.
Proof. reflexivity. Qed.

Lemma bind_gets {A B} (f : Contract → A) (k : A → M B) s :
  (gets f ≫= k) s = k (f s) s.
Proof. reflexivity. Qed.

Lemma bind_modify {B} (f : Contract → Contract) (k : unit → M B) s :
  (modify f ≫= k) s = k () (f s).
Proof. reflexivity. Qed.

Lemma bind_writeGame {B} g (f : Game → Game) (k : unit → M B) s :
  (writeGame g f ≫= k) s = k () (setGame g (f (gameAt s g)) s).
Proof. reflexivity. Qed.

Lemma bind_revert {A B} msg (k : A → M B) s :
  (revert msg ≫= k) s = Revert msg.
Proof. reflexivity. Qed.

Lemma bind_require {B} b msg (k : unit → M B) s :
  (require b msg ≫= k) s = if b then k () s else Revert msg.
Proof. by destruct b. Qed.

Lemma bind_when {B} b (m : M unit) (k : unit → M B) s :
  (when b m ≫= k) s = if b then (m ≫= k) s else k () s.
Proof. by destruct b. Qed.

Lemma bind_assoc {A B C} (m : M A) (f : A → M B) (k : B → M C) s :
  ((m ≫= f) ≫= k) s = (m ≫= λ a, f a ≫= k) s.
Proof.
  unfold mbind, M_bind. destruct (m s) as [[a s1]|msg]; reflexivity.
Qed.

Lemma bind_if {A B} (b : bool) (m1 m2 : M A) (k : A → M B) s :
  ((if b then m1 else m2) ≫= k) s = if b then (m1 ≫= k) s else (m2 ≫= k) s.
Proof. by destruct b. Qed.

Lemma bind_Ok {A B} (m : M A) (k : A → M B) s r :
  (m ≫= k) s = Ok r ↔ ∃ a s1, m s = Ok (a, s1) ∧ k a s1 = Ok r.
Proof.
  unfold mbind, M_bind. destruct (m s) as [[a s1]|msg]; split.
  - intros H. by exists a, s1.
  - intros (a' & s' & [= -> ->] & H). done.
  - done.
  - intros (? & ? & ? & ?). done.
Qed.

Lemma bind_Revert {A B} (m : M A) (k : A → M B) s msg :
  m s = Revert msg → (m ≫= k) s = Revert msg.
Proof. unfold mbind, M_bind. by intros ->. Qed.

Lemma bind_Ok_eq {A B} (m : M A) (k : A → M B) s a s1 :
  m s = Ok (a, s1) → (m ≫= k) s = k a s1.
Proof. unfold mbind, M_bind. by intros ->. Qed.

Lemma modify_eq (f : Contract → Contract) s : modify f s = Ok ((), f s).
Proof. reflexivity. Qed.

Lemma mret_eq {A} (a : A) s : mret (M := M) a s = Ok (a, s).
Proof. reflexivity. Qed.

Lemma gets_eq {A} (f : Contract → A) s : gets f s = Ok (f s, s).
Proof. reflexivity. Qed.

Lemma writeGame_eq g (f : Game → Game) s :
  writeGame g f s = Ok ((), setGame g (f (gameAt s g)) s).
Proof. reflexivity. Qed.

Lemma revert_eq {A} msg s : revert (A := A) msg s = Revert msg.
Proof. reflexivity. Qed.

Lemma require_eq b msg s : require b msg s = if b then Ok ((), s) else Revert msg.
Proof. by destruct b. Qed.

Lemma when_eq b (m : M unit) s : when b m s = if b then m s else Ok ((), s).
Proof. by destruct b. Qed.

(** Symbolic execution of straight-line code. *)
Ltac mstep :=
  first
    [ rewrite bind_assoc
    | rewrite bind_mret
    | rewrite bind_gets
    | rewrite bind_modify
    | rewrite bind_writeGame
    | rewrite bind_revert
    | rewrite bind_require
    | rewrite bind_when
    | rewrite modify_eq
    | rewrite writeGame_eq
    | rewrite gets_eq
    | rewrite revert_eq
    | rewrite mret_eq
    | rewrite require_eq
    | rewrite when_eq ].

Ltac mrun := repeat mstep.

(** ** Reading storage after a write *)

Lemma gameAt_setGame_eq g v s : gameAt (setGame g v s) g = v.
Proof. unfold gameAt, setGame. simpl. by rewrite lookup_insert_eq. Qed.

Lemma gameAt_setGame_ne g g' v s : g ≠ g' → gameAt (setGame g v s) g' = gameAt s g'.
Proof. intros. unfold gameAt, setGame. simpl. by rewrite lookup_insert_ne. Qed.

Lemma handAt_setHand_eq g p v s : handAt (setHand g p v s) g p = v.
Proof. unfold handAt, setHand. simpl. by rewrite lookup_insert_eq. Qed.

Lemma handAt_setHand_ne g p g' p' v s :
  (g, p) ≠ (g', p') → handAt (setHand g p v s) g' p' = handAt s g' p'.
Proof. intros. unfold handAt, setHand. simpl. by rewrite lookup_insert_ne. Qed.

Lemma calledUnoAt_setCalledUno_eq g p v s : calledUnoAt (setCalledUno g p v s) g p = v.
Proof. unfold calledUnoAt, setCalledUno. simpl. by rewrite lookup_insert_eq. Qed.

Lemma calledUnoAt_setCalledUno_ne g p g' p' v s :
  (g, p) ≠ (g', p') → calledUnoAt (setCalledUno g p v s) g' p' = calledUnoAt s g' p'.
Proof. intros. unfold calledUnoAt, setCalledUno. simpl. by rewrite lookup_insert_ne. Qed.

Lemma penaltyAt_setPenalty_eq g p v s : penaltyAt (setPenalty g p v s) g p = v.
Proof. unfold penaltyAt, setPenalty. simpl. by rewrite lookup_insert_eq. Qed.

Lemma penaltyAt_setPenalty_ne g p g' p' v s :
  (g, p) ≠ (g', p') → penaltyAt (setPenalty g p v s) g' p' = penaltyAt s g' p'.
Proof. intros. unfold penaltyAt, setPenalty. simpl. by rewrite lookup_insert_ne. Qed.

Lemma windowOpenAt_setWindowOpen_eq g v s : windowOpenAt (setWindowOpen g v s) g = v.
Proof. unfold windowOpenAt, setWindowOpen. simpl. by rewrite lookup_insert_eq. Qed.

Lemma windowOpenAt_setWindowOpen_ne g g' v s :
  g ≠ g' → windowOpenAt (setWindowOpen g v s) g' = windowOpenAt s g'.
Proof. intros. unfold windowOpenAt, setWindowOpen. simpl. by rewrite lookup_insert_ne. Qed.

Lemma windowPlayerAt_setWindowPlayer_eq g v s :
  windowPlayerAt (setWindowPlayer g v s) g = v.
Proof. unfold windowPlayerAt, setWindowPlayer. simpl. by rewrite lookup_insert_eq. Qed.

Lemma windowPlayerAt_setWindowPlayer_ne g g' v s :
  g ≠ g' → windowPlayerAt (setWindowPlayer g v s) g' = windowPlayerAt s g'.
Proof. intros. unfold windowPlayerAt, setWindowPlayer. simpl. by rewrite lookup_insert_ne. Qed.

(** A getter skips over every write to another mapping. *)
Ltac skip_writes :=
  repeat match goal with
  | |- context [gameAt (?S ?s) ?g] =>
      progress change (gameAt (S s) g) with (gameAt s g)
  | |- context [handAt (?S ?s) ?g ?p] =>
      progress change (handAt (S s) g p) with (handAt s g p)
  | |- context [calledUnoAt (?S ?s) ?g ?p] =>
      progress change (calledUnoAt (S s) g p) with (calledUnoAt s g p)
  | |- context [penaltyAt (?S ?s) ?g ?p] =>
      progress change (penaltyAt (S s) g p) with (penaltyAt s g p)
  | |- context [windowOpenAt (?S ?s) ?g] =>
      progress change (windowOpenAt (S s) g) with (windowOpenAt s g)
  | |- context [windowPlayerAt (?S ?s) ?g] =>
      progress change (windowPlayerAt (S s) g) with (windowPlayerAt s g)
  | |- context [_gameIdCounter (?S ?s)] =>
      progress change (_gameIdCounter (S s)) with (_gameIdCounter s)
  | |- context [_activeGames (?S ?s)] =>
      progress change (_activeGames (S s)) with (_activeGames s)
  | |- context [_notStartedGames (?S ?s)] =>
      progress change (_notStartedGames (S s)) with (_notStartedGames s)
  end.

Lemma setGame_setGame g v v' s : setGame g v (setGame g v' s) = setGame g v s.
Proof. unfold setGame. simpl. by rewrite insert_insert_eq. Qed.

Lemma getEuint256_Ok l i s r :
  ePreview.getEuint256 l i s = Ok r ↔
  ∃ c, 0 ≤ i ∧ l !! Z.to_nat i = Some c ∧ r = (c, s).
Proof.
  unfold ePreview.getEuint256. destruct (Z.leb_spec 0 i).
  - destruct (l !! Z.to_nat i) as [c|] eqn:E.
    + split; [intros [= <-]; eauto|]. by intros (c' & _ & [= <-] & ->).
    + split; [done|]. by intros (c' & _ & ? & _).
  - split; [done|]. intros (c' & ? & _); lia.
Qed.

Lemma getEuint256_in_range l i s :
  0 ≤ i < ePreview.length l →
  ∃ c, l !! Z.to_nat i = Some c ∧ ePreview.getEuint256 l i s = Ok (c, s).
Proof.
  intros Hi. unfold ePreview.length in Hi.
  destruct (lookup_lt_is_Some_2 l (Z.to_nat i)) as [c Hc]; [lia|].
  exists c. split; [done|]. apply getEuint256_Ok. exists c. split; [lia|done].
Qed.

Lemma arrayAt_Ok l i s r :
  arrayAt l i s = Ok r ↔ ∃ a, 0 ≤ i ∧ l !! Z.to_nat i = Some a ∧ r = (a, s).
Proof.
  unfold arrayAt. destruct (Z.leb_spec 0 i).
  - destruct (l !! Z.to_nat i) as [c|] eqn:E.
    + split; [intros [= <-]; eauto|]. by intros (c' & _ & [= <-] & ->).
    + split; [done|]. by intros (c' & _ & ? & _).
  - split; [done|]. intros (c' & ? & _); lia.
Qed.

Lemma slice_eq l a b s :
  0 ≤ a → a < b → b ≤ ePreview.length l →
  ePreview.slice l a b s = Ok (take (Z.to_nat (b - a)) (drop (Z.to_nat a) l), s).
Proof.
  intros. unfold ePreview.slice.
  rewrite (proj2 (Z.leb_le 0 a)), (proj2 (Z.ltb_lt a b)), (proj2 (Z.leb_le b _)); done.
Qed.

Lemma slice_Ok l a b s r :
  ePreview.slice l a b s = Ok r →
  0 ≤ a ∧ a < b ∧ b ≤ ePreview.length l ∧
  r = (take (Z.to_nat (b - a)) (drop (Z.to_nat a) l), s).
Proof.
  unfold ePreview.slice.
  destruct (Z.leb_spec 0 a), (Z.ltb_spec a b), (Z.leb_spec b (ePreview.length l));
    simpl; try done.
  by intros [= <-].
Qed.

Lemma removeCardFromHand_eq (hand : elist) i s :
  2 ≤ ePreview.length hand → 0 ≤ i < ePreview.length hand →
  _removeCardFromHand hand i (ePreview.length hand) s
  = Ok (delete (Z.to_nat i) hand, s).
Proof.
  intros Hn Hi. unfold _removeCardFromHand.
  assert (Hlen : ePreview.length hand = Z.of_nat (length hand)) by done.
  destruct (Z.eqb_spec i 0) as [->|Hi0].
  - rewrite slice_eq by lia. do 2 f_equal.
    destruct hand as [|x hand]; simpl in *; [done|].
    rewrite drop_0. apply take_ge. rewrite Hlen. simpl. lia.
  - mrun. rewrite (proj2 (Z.leb_le 1 _)) by lia.
    destruct (Z.eqb_spec i (ePreview.length hand - 1)) as [Hl|Hl].
    + rewrite slice_eq by lia. do 2 f_equal.
      change (Z.to_nat 0) with 0%nat. rewrite drop_0, Z.sub_0_r.
      rewrite delete_take_drop.
      rewrite (drop_ge _ (S _)) by lia. by rewrite app_nil_r.
    + erewrite bind_Ok_eq by (apply slice_eq; lia).
      erewrite bind_Ok_eq by (apply slice_eq; lia).
      mrun. do 2 f_equal. unfold ePreview.concat.
      change (Z.to_nat 0) with 0%nat. rewrite drop_0, Z.sub_0_r.
      rewrite delete_take_drop. f_equal.
      replace (Z.to_nat (i + 1)) with (S (Z.to_nat i)) by lia.
      apply take_ge. rewrite length_drop. lia.
Qed.

(** ** Frame reasoning *)

Lemma modifies_refl gid P w s : modifies gid P w s s.
Proof. by constructor. Qed.

Lemma modifies_trans gid P w s1 s2 s3 :
  modifies gid P w s1 s2 → modifies gid P w s2 s3 → modifies gid P w s1 s3.
Proof.
  intros [c1 a1 n1 g1 h1 u1 p1 o1 w1] [c2 a2 n2 g2 h2 u2 p2 o2 w2].
  constructor; intros; try congruence.
  - rewrite g2, g1; done.
  - rewrite h2, h1; done.
  - rewrite u2, u1; done.
  - rewrite p2, p1; done.
  - rewrite o2, o1; done.
  - rewrite w2, w1; done.
Qed.

Lemma modifies_weaken gid (P Q : address → Prop) (w w' : bool) s s' :
  (∀ p, P p → Q p) → (w = true → w' = true) →
  modifies gid P w s s' → modifies gid Q w' s s'.
Proof.
  intros HPQ Hw [c1 a1 n1 g1 h1 u1 p1 o1 w1]. constructor; intros; auto.
  - apply h1. destruct H; auto.
  - apply u1. destruct H; auto.
  - apply p1. destruct H; auto.
  - apply o1. destruct w, w'; destruct H; auto; by discriminate Hw.
  - apply w1. destruct w, w'; destruct H; auto; by discriminate Hw.
Qed.

Lemma modifies_setGame gid P w v s : modifies gid P w s (setGame gid v s).
Proof. constructor; intros; try done. by apply gameAt_setGame_ne. Qed.

Lemma modifies_setHand gid (P : address → Prop) w p v s :
  P p → modifies gid P w s (setHand gid p v s).
Proof.
  constructor; intros; try done. apply handAt_setHand_ne. intros [= -> ->]. destruct H0; auto.
Qed.

Lemma modifies_setCalledUno gid (P : address → Prop) w p v s :
  P p → modifies gid P w s (setCalledUno gid p v s).
Proof.
  constructor; intros; try done. apply calledUnoAt_setCalledUno_ne. intros [= -> ->]. destruct H0; auto.
Qed.

Lemma modifies_setPenalty gid (P : address → Prop) w p v s :
  P p → modifies gid P w s (setPenalty gid p v s).
Proof.
  constructor; intros; try done. apply penaltyAt_setPenalty_ne. intros [= -> ->]. destruct H0; auto.
Qed.

Lemma modifies_setWindowOpen gid P v s :
  modifies gid P true s (setWindowOpen gid v s).
Proof.
  constructor; intros; try done. apply windowOpenAt_setWindowOpen_ne. intros ->. destruct H; auto. done.
Qed.

Lemma modifies_setWindowPlayer gid P v s :
  modifies gid P true s (setWindowPlayer gid v s).
Proof.
  constructor; intros; try done. apply windowPlayerAt_setWindowPlayer_ne. intros ->. destruct H; auto. done.
Qed.

(** ** Reshuffling *)

Lemma reshuffleFromDiscards_eq e gid s :
  _reshuffleFromDiscards e gid s =
  if 2 <=? ePreview.length (moves (gameAt s gid))
  then Ok ((), setGame gid (reshuffled e (gameAt s gid)) s)
  else Revert "No cards left to reshuffle".
Proof.
  unfold _reshuffleFromDiscards. mrun.
  destruct (Z.leb_spec 2 (ePreview.length (moves (gameAt s gid)))) as [Hn|Hn]; [|done].
  erewrite bind_Ok_eq by (apply slice_eq; lia).
  mrun. rewrite !gameAt_setGame_eq, !setGame_setGame.
  unfold reshuffled, piles, ePreview.shuffle, ePreview.append, ePreview.newEList.
  change (Z.to_nat 0) with 0%nat. rewrite drop_0, Z.sub_0_r. reflexivity.
Qed.

(** ** Forced draws *)

Lemma forceDrawOne_Ok e gid p s r :
  forceDrawOne e gid p s = Ok r →
  let g := gameAt s gid in
  ∃ g1 c,
    ((deckIndex g < ePreview.length (deck g) ∧ g1 = g)
     ∨ (ePreview.length (deck g) ≤ deckIndex g
        ∧ 2 ≤ ePreview.length (moves g) ∧ g1 = reshuffled e g))
    ∧ 0 ≤ deckIndex g1
    ∧ deck g1 !! Z.to_nat (deckIndex g1) = Some c
    ∧ r = ((), setHand gid p (handAt s gid p ++ [c])
                 (setGame gid (set_deckIndex (deckIndex g1 + 1) g1) s)).
Proof.
  unfold forceDrawOne. mrun.
  destruct (Z.leb_spec (ePreview.length (deck (gameAt s gid)))
                       (deckIndex (gameAt s gid))) as [Hex|Hex].
  - rewrite (bind_Ok (_reshuffleFromDiscards e gid)).
    intros (u & s1 & Hre & H). rewrite reshuffleFromDiscards_eq in Hre.
    destruct (Z.leb_spec 2 (ePreview.length (moves (gameAt s gid)))); [|done].
    injection Hre as <- <-. revert H. mrun. rewrite gameAt_setGame_eq.
    rewrite bind_Ok. intros (c & s2 & Hget & H).
    apply getEuint256_Ok in Hget as (c' & Hpos & Hc & [= -> ->]).
    revert H. mrun. rewrite gameAt_setGame_eq, setGame_setGame. skip_writes.
    intros [= <-]. exists (reshuffled e (gameAt s gid)), c'. eauto 10.
  - mrun. rewrite bind_Ok. intros (c & s2 & Hget & H).
    apply getEuint256_Ok in Hget as (c' & Hpos & Hc & [= -> ->]).
    revert H. mrun. skip_writes. intros [= <-].
    exists (gameAt s gid), c'. eauto 10.
Qed.

Lemma piles_eta g : piles (deck g) (deckIndex g) (moves g) g = g.
Proof. by destruct g. Qed.

Lemma drew_refl gid p s : drew gid p [] s s.
Proof.
  repeat split; try done.
  - exists (deck (gameAt s gid)), (deckIndex (gameAt s gid)), (moves (gameAt s gid)).
    by rewrite piles_eta.
  - by rewrite app_nil_r.
Qed.

Lemma drew_trans gid p cs1 cs2 s1 s2 s3 :
  drew gid p cs1 s1 s2 → drew gid p cs2 s2 s3 → drew gid p (cs1 ++ cs2) s1 s3.
Proof.
  intros (Hm1 & (d1 & di1 & m1 & Hg1) & Hh1 & Hc1 & Hp1)
         (Hm2 & (d2 & di2 & m2 & Hg2) & Hh2 & Hc2 & Hp2).
  split_and!.
  - eapply modifies_trans; eassumption.
  - exists d2, di2, m2. rewrite Hg2, Hg1. reflexivity.
  - rewrite Hh2, Hh1. by rewrite app_assoc.
  - intros. by rewrite Hc2, Hc1.
  - intros. by rewrite Hp2, Hp1.
Qed.

Lemma conserves_refl g : pileInv g → conserves [] g g.
Proof. intros HI. split_and!; done. Qed.

Lemma conserves_trans cs1 cs2 g1 g2 g3 :
  conserves cs1 g1 g2 → conserves cs2 g2 g3 → conserves (cs1 ++ cs2) g1 g3.
Proof.
  intros (H1 & _ & E1) (H2 & I & E2). repeat split; try apply I.
  - rewrite <- H1, <- H2. by rewrite <- !app_assoc.
  - intros. apply E1, E2. done.
  - intros. apply E2, E1. done.
Qed.

Lemma last_take_snoc (l : list Z) x :
  last l = Some x → take (Z.to_nat (ePreview.length l - 1)) l ++ [x] = l.
Proof.
  intros (l' & ->)%last_Some. unfold ePreview.length.
  rewrite length_app. simpl.
  replace (Z.to_nat _) with (length l') by lia.
  by rewrite take_app_length.
Qed.

Lemma forceDrawOne_drew e gid p s s' :
  forceDrawOne e gid p s = Ok ((), s') →
  ∃ c, drew gid p [c] s s'
       ∧ (validEnv e → pileInv (gameAt s gid) →
          conserves [c] (gameAt s gid) (gameAt s' gid)).
Proof.
  intros H. apply forceDrawOne_Ok in H as (g1 & c & Hcase & Hpos & Hc & [= ->]).
  exists c. split.
  - split_and!; try done.
    + eapply modifies_trans; [apply modifies_setGame|by apply modifies_setHand].
    + skip_writes. rewrite gameAt_setGame_eq.
      destruct Hcase as [[_ ->]|(_ & _ & ->)].
      * exists (deck (gameAt s gid)), (deckIndex (gameAt s gid) + 1), (moves (gameAt s gid)).
        by destruct (gameAt s gid).
      * exists (deck (reshuffled e (gameAt s gid))),
          (deckIndex (reshuffled e (gameAt s gid)) + 1),
          (moves (reshuffled e (gameAt s gid))).
        reflexivity.
    + by rewrite handAt_setHand_eq.
  - intros He [Hdi Htop]. skip_writes. rewrite gameAt_setGame_eq.
    destruct Hcase as [[Hlt ->]|(Hex & Hm & ->)].
    + repeat split; simpl; try done; try lia.
      unfold drawPile. simpl.
      replace (Z.to_nat (deckIndex (gameAt s gid) + 1))
        with (S (Z.to_nat (deckIndex (gameAt s gid)))) by lia.
      by rewrite (drop_S _ _ _ Hc).
    + simpl in Hc. change (Z.to_nat 0) with 0%nat in Hc.
      assert (Hne : moves (gameAt s gid) ≠ []).
      { intros E. rewrite E in Hm. simpl in Hm. unfold ePreview.length in Hm. simpl in Hm. lia. }
      specialize (Htop Hne).
      repeat split; simpl; try done; try lia.
      * unfold drawPile at 1 2. simpl. change (Z.to_nat (0 + 1)) with 1%nat.
        rewrite (drop_ge (deck _)) by (unfold ePreview.length in Hex; lia).
        simpl. rewrite app_comm_cons.
        rewrite <- (drop_S _ _ _ Hc), drop_0.
        rewrite (He _). by rewrite last_take_snoc.
      * apply lookup_lt_Some in Hc. unfold ePreview.length in *. lia.
Qed.

Lemma forceDrawLoop_drew e gid p n s s' :
  forceDrawLoop e gid p n s = Ok ((), s') →
  ∃ cs, length cs = n ∧ drew gid p cs s s'
        ∧ (validEnv e → pileInv (gameAt s gid) →
           conserves cs (gameAt s gid) (gameAt s' gid)).
Proof.
  revert s. induction n as [|n IH]; intros s; simpl.
  - intros [= <-]. exists []. split; [done|]. split; [apply drew_refl|].
    intros. by apply conserves_refl.
  - rewrite bind_Ok. intros ([] & s1 & H1 & H2).
    apply forceDrawOne_drew in H1 as (c & Hd1 & Hc1).
    apply IH in H2 as (cs & Hlen & Hd2 & Hc2).
    exists ([c] ++ cs). split; [simpl; lia|]. split; [eapply drew_trans; eassumption|].
    intros He Hp. specialize (Hc1 He Hp).
    eapply conserves_trans; [done|]. apply Hc2; [done|]. apply Hc1.
Qed.

Lemma forceDrawCards_Ok e gid p n s s' :
  _forceDrawCards e gid p n s = Ok ((), s') →
  ∃ s1 cs, length cs = Z.to_nat n ∧ drew gid p cs s s1
           ∧ (validEnv e → pileInv (gameAt s gid) →
              conserves cs (gameAt s gid) (gameAt s1 gid))
           ∧ s' = setPenalty gid p false (setCalledUno gid p false s1).
Proof.
  unfold _forceDrawCards. rewrite bind_Ok. intros ([] & s1 & H1 & H2).
  apply forceDrawLoop_drew in H1 as (cs & Hlen & Hd & Hc).
  revert H2. mrun. intros [= <-]. eauto 10.
Qed.

(** What [_forceDrawCards] leaves behind, read through the getters. *)
Lemma forceDrawCards_summary e gid p n s s' :
  _forceDrawCards e gid p n s = Ok ((), s') →
  ∃ cs, length cs = Z.to_nat n
    ∧ modifies gid (λ q, q = p) false s s'
    ∧ (∃ d di m, gameAt s' gid = piles d di m (gameAt s gid))
    ∧ handAt s' gid p = handAt s gid p ++ cs
    ∧ calledUnoAt s' gid p = false
    ∧ penaltyAt s' gid p = false
    ∧ (validEnv e → pileInv (gameAt s gid) →
       conserves cs (gameAt s gid) (gameAt s' gid)).
Proof.
  intros H. apply forceDrawCards_Ok in H
    as (s1 & cs & Hlen & (Hm & Hg & Hh & _ & _) & Hc & ->).
  exists cs. split_and!; try done.
  - eapply modifies_trans; [done|].
    eapply modifies_trans; [by apply modifies_setCalledUno|by apply modifies_setPenalty].
  - skip_writes. by apply calledUnoAt_setCalledUno_eq.
  - by apply penaltyAt_setPenalty_eq.
Qed.

(** ** Turn advancement *)

Lemma moveToNextPlayer_Ok gid s r :
  moveToNextPlayer gid s = Ok r →
  r = ((), setGame gid (set_currentPlayerIndex (nextIndex (gameAt s gid))
                                               (gameAt s gid)) s).
Proof.
  unfold moveToNextPlayer, nextIndex. mrun.
  destruct (direction (gameAt s gid) =? 1).
  - mrun. destruct (negb _); [|done]. by intros [= <-].
  - destruct (currentPlayerIndex (gameAt s gid) =? 0).
    + mrun. destruct (1 <=? _); [|done]. by intros [= <-].
    + mrun. by intros [= <-].
Qed.

Lemma moveToNextPlayer_eq gid s :
  players (gameAt s gid) ≠ [] →
  moveToNextPlayer gid s =
  Ok ((), setGame gid (set_currentPlayerIndex (nextIndex (gameAt s gid))
                                              (gameAt s gid)) s).
Proof.
  intros Hne. unfold moveToNextPlayer, nextIndex. mrun.
  assert (1 ≤ Z.of_nat (length (players (gameAt s gid)))).
  { destruct (players (gameAt s gid)); [done|simpl; lia]. }
  destruct (direction (gameAt s gid) =? 1).
  - mrun. by rewrite (proj2 (Z.eqb_neq _ 0)) by lia.
  - destruct (currentPlayerIndex (gameAt s gid) =? 0).
    + mrun. by rewrite (proj2 (Z.leb_le 1 _)) by lia.
    + by mrun.
Qed.

Lemma nextIndex_bounds g :
  players g ≠ [] → 0 ≤ currentPlayerIndex g →
  currentPlayerIndex g < Z.of_nat (length (players g)) →
  0 ≤ nextIndex g < Z.of_nat (length (players g)).
Proof.
  intros Hne H0 Hlt. unfold nextIndex.
  destruct (direction g =? 1).
  - apply Z.mod_pos_bound. lia.
  - destruct (Z.eqb_spec (currentPlayerIndex g) 0); lia.
Qed.

Lemma advanceToNextPlayer_Ok e gid s s' :
  _advanceToNextPlayer e gid s = Ok ((), s') →
  let g := gameAt s gid in
  let g1 := set_currentPlayerIndex (nextIndex g) g in
  (if skipNextPlayer g then
     ∃ sk s2,
       0 ≤ nextIndex g ∧ players g !! Z.to_nat (nextIndex g) = Some sk
       ∧ (if 0 <? pendingDraws g then
            ∃ sd, _forceDrawCards e gid sk (pendingDraws g)
                    (setGame gid (set_skipNextPlayer false g1) s) = Ok ((), sd)
                  ∧ s2 = setGame gid (set_pendingDraws 0 (gameAt sd gid)) sd
          else s2 = setGame gid (set_skipNextPlayer false g1) s)
       ∧ s' = setGame gid (set_currentPlayerIndex (nextIndex (gameAt s2 gid))
                                                  (gameAt s2 gid)) s2
   else s' = setGame gid g1 s)
  ∧ 0 ≤ currentPlayerIndex (gameAt s' gid)
  ∧ is_Some (players (gameAt s' gid)
             !! Z.to_nat (currentPlayerIndex (gameAt s' gid))).
Proof.
  unfold _advanceToNextPlayer. rewrite bind_Ok. intros ([] & s1 & Hmv & H).
  apply moveToNextPlayer_Ok in Hmv as [= ->]. revert H. mrun.
  rewrite gameAt_setGame_eq.
  change (skipNextPlayer (set_currentPlayerIndex _ ?g)) with (skipNextPlayer g).
  destruct (skipNextPlayer (gameAt s gid)) eqn:Hskip.
  - rewrite bind_Ok. intros (sk & s2 & Harr & H).
    apply arrayAt_Ok in Harr as (sk' & Hpos & Hsk & [= -> ->]).
    simpl in Hpos, Hsk. revert H. mrun.
    rewrite gameAt_setGame_eq, setGame_setGame.
    change (pendingDraws (set_currentPlayerIndex _ ?g)) with (pendingDraws g).
    destruct (0 <? pendingDraws (gameAt s gid)) eqn:Hpd.
    + rewrite bind_Ok. intros ([] & sd & Hfd & H).
      revert H. mrun. rewrite bind_Ok. intros ([] & s3 & Hmv & H).
      apply moveToNextPlayer_Ok in Hmv as [= ->]. revert H. mrun.
      rewrite bind_Ok. intros (a & s4 & Harr & [= <-]).
      apply arrayAt_Ok in Harr as (a' & Hpos' & Ha & [= -> ->]).
      split_and!; [|done|by eexists].
      exists sk', (setGame gid (set_pendingDraws 0 (gameAt sd gid)) sd).
      split_and!; try done. exists sd. done.
    + mrun. rewrite bind_Ok. intros ([] & s3 & Hmv & H).
      apply moveToNextPlayer_Ok in Hmv as [= ->]. revert H. mrun.
      rewrite bind_Ok. intros (a & s4 & Harr & [= <-]).
      apply arrayAt_Ok in Harr as (a' & Hpos' & Ha & [= -> ->]).
      split_and!; [|done|by eexists].
      exists sk', (setGame gid (set_skipNextPlayer false
         (set_currentPlayerIndex (nextIndex (gameAt s gid)) (gameAt s gid))) s).
      split_and!; done.
  - rewrite bind_Ok. intros (a & s4 & Harr & [= <-]).
    apply arrayAt_Ok in Harr as (a' & Hpos' & Ha & [= -> ->]).
    rewrite gameAt_setGame_eq. split_and!; [done|done|by eexists].
Qed.

Lemma playerAtIndex_lookup g i a :
  players g !! Z.to_nat i = Some a → playerAtIndex g i = a.
Proof. unfold playerAtIndex. by intros ->. Qed.

Lemma conserves_proper cs g1 g2 g1' g2' :
  deck g1' = deck g1 → deckIndex g1' = deckIndex g1 → moves g1' = moves g1 →
  deck g2' = deck g2 → deckIndex g2' = deckIndex g2 → moves g2' = moves g2 →
  topCard g2' = topCard g2 →
  conserves cs g1 g2 → conserves cs g1' g2'.
Proof.
  unfold conserves, pileInv, drawPile. by intros -> -> -> -> -> -> ->.
Qed.

Lemma advance_game_eta x y g :
  set_currentPlayerIndex x (set_skipNextPlayer false (set_currentPlayerIndex y g))
  = set_currentPlayerIndex x
      (set_pendingDraws (pendingDraws g)
         (set_skipNextPlayer false (piles (deck g) (deckIndex g) (moves g) g))).
Proof. by destruct g. Qed.

Lemma advance_game_eta_noskip x g :
  skipNextPlayer g = false →
  set_currentPlayerIndex x g
  = set_currentPlayerIndex x
      (set_pendingDraws (pendingDraws g)
         (set_skipNextPlayer false (piles (deck g) (deckIndex g) (moves g) g))).
Proof. destruct g; simpl; by intros ->. Qed.

Lemma advance_summary e gid s s' :
  _advanceToNextPlayer e gid s = Ok ((), s') →
  let g := gameAt s gid in
  let sk := playerAtIndex g (nextIndex g) in
  let draws := skipNextPlayer g && (0 <? pendingDraws g) in
  ∃ cs d di m,
    modifies gid (λ q, q = sk) false s s'
    ∧ gameAt s' gid =
        set_currentPlayerIndex
          (if skipNextPlayer g
           then nextIndex (set_currentPlayerIndex (nextIndex g) g)
           else nextIndex g)
          (set_pendingDraws (if draws then 0 else pendingDraws g)
             (set_skipNextPlayer false (piles d di m g)))
    ∧ handAt s' gid sk = handAt s gid sk ++ cs
    ∧ length cs = (if draws then Z.to_nat (pendingDraws g) else 0%nat)
    ∧ (∀ q, calledUnoAt s gid q = false → calledUnoAt s' gid q = false)
    ∧ (∀ q, penaltyAt s gid q = false → penaltyAt s' gid q = false)
    ∧ (validEnv e → pileInv g → conserves cs g (gameAt s' gid))
    ∧ 0 ≤ currentPlayerIndex (gameAt s' gid)
    ∧ is_Some (players g !! Z.to_nat (currentPlayerIndex (gameAt s' gid))).
Proof.
  intros H. apply advanceToNextPlayer_Ok in H as (H & Hpos & Hsome).
  cbv zeta in *.
  destruct (skipNextPlayer (gameAt s gid)) eqn:Hskip; simpl.
  - destruct H as (sk & s2 & Hn0 & Hsk & H & ->).
    rewrite (playerAtIndex_lookup _ _ _ Hsk).
    destruct (0 <? pendingDraws (gameAt s gid)) eqn:Hpd.
    + destruct H as (sd & Hfd & ->).
      apply forceDrawCards_summary in Hfd
        as (cs & Hlen & Hmod & (d & di & m & Hg) & Hh & Hcu & Hpe & Hcons).
      rewrite gameAt_setGame_eq in Hg, Hcons.
      rewrite !gameAt_setGame_eq in Hsome, Hpos |- *.
      exists cs, d, di, m. split_and!.
      * eapply modifies_trans; [apply modifies_setGame|].
        eapply modifies_trans; [apply Hmod|].
        eapply modifies_trans; apply modifies_setGame.
      * rewrite Hg. reflexivity.
      * skip_writes. rewrite Hh. by skip_writes.
      * done.
      * intros q Hq. skip_writes. destruct (decide (q = sk)) as [->|Hne]; [done|].
        rewrite (mod_called _ _ _ _ _ Hmod) by auto. by skip_writes.
      * intros q Hq. skip_writes. destruct (decide (q = sk)) as [->|Hne]; [done|].
        rewrite (mod_penalty _ _ _ _ _ Hmod) by auto. by skip_writes.
      * intros He Hp. specialize (Hcons He Hp).
        by eapply conserves_proper, Hcons.
      * done.
      * rewrite Hg in Hsome |- *. exact Hsome.
    + subst s2. rewrite !gameAt_setGame_eq in Hsome, Hpos |- *.
      exists [], (deck (gameAt s gid)), (deckIndex (gameAt s gid)), (moves (gameAt s gid)).
      split_and!.
      * eapply modifies_trans; apply modifies_setGame.
      * apply advance_game_eta.
      * skip_writes. by rewrite app_nil_r.
      * done.
      * intros q Hq. by skip_writes.
      * intros q Hq. by skip_writes.
      * intros He Hp. by eapply conserves_proper, conserves_refl, Hp.
      * done.
      * exact Hsome.
  - subst s'. rewrite !gameAt_setGame_eq in Hsome, Hpos |- *.
    exists [], (deck (gameAt s gid)), (deckIndex (gameAt s gid)), (moves (gameAt s gid)).
    split_and!.
    + apply modifies_setGame.
    + by apply advance_game_eta_noskip.
    + skip_writes. by rewrite app_nil_r.
    + done.
    + intros q Hq. by skip_writes.
    + intros q Hq. by skip_writes.
    + intros He Hp. by eapply conserves_proper, conserves_refl, Hp.
    + done.
    + exact Hsome.
Qed.

(** ** Modifiers and card effects *)

Lemma validateGame_Ok gid st s r :
  validateGame gid st s = Ok r ↔
  0 < gid ≤ _gameIdCounter s ∧ status (gameAt s gid) = st ∧ r = ((), s).
Proof.
  unfold validateGame. mrun.
  destruct (Z.ltb_spec 0 gid), (Z.leb_spec gid (_gameIdCounter s)); simpl;
    try (split; [done|intros ([? ?] & _); lia]).
  mrun. case_bool_decide; simpl.
  - split; [intros [= <-]; auto with lia|by intros (_ & _ & ->)].
  - split; [done|by intros (_ & ? & _)].
Qed.

Lemma onlyPlayer_Ok e gid s r :
  onlyPlayer e gid s = Ok r ↔
  msg_sender e ∈ players (gameAt s gid) ∧ r = ((), s).
Proof.
  unfold onlyPlayer. mrun. case_bool_decide; simpl.
  - split; [by intros [= <-]|by intros (_ & ->)].
  - split; [done|by intros (? & _)].
Qed.

Lemma applyCardEffect_spec gid ct s :
  (ct = CARD_TYPE_REVERSE → direction (gameAt s gid) ≠ -128) →
  ∃ s', _applyCardEffect gid ct s = Ok ((), s')
        ∧ gameAt s' gid = cardEffect ct (gameAt s gid)
        ∧ modifies gid (λ _, False) false s s'
        ∧ (∀ P w, modifies gid P w s s').
Proof.
  intros Hdir. unfold _applyCardEffect, cardEffect.
  destruct (ct =? CARD_TYPE_SKIP).
  { eexists. split; [reflexivity|]. rewrite gameAt_setGame_eq.
    split_and!; [done|..]; intros; apply modifies_setGame. }
  destruct (Z.eqb_spec ct CARD_TYPE_REVERSE) as [Hr|Hr].
  { mrun. rewrite (proj2 (Z.eqb_neq _ _)) by auto. simpl.
    destruct (_ =? 2).
    - eexists. split; [reflexivity|]. rewrite !gameAt_setGame_eq.
      split_and!; [done|..]; intros;
        (eapply modifies_trans; apply modifies_setGame).
    - eexists. split; [reflexivity|]. rewrite !gameAt_setGame_eq.
      split_and!; [done|..]; intros; apply modifies_setGame. }
  destruct (ct =? CARD_TYPE_DRAW_TWO).
  { eexists. split; [by mrun|]. rewrite !gameAt_setGame_eq.
    split_and!; [done|..]; intros;
      (eapply modifies_trans; apply modifies_setGame). }
  destruct (ct =? CARD_TYPE_WILD_DRAW_FOUR).
  { eexists. split; [by mrun|]. rewrite !gameAt_setGame_eq.
    split_and!; [done|..]; intros;
      (eapply modifies_trans; apply modifies_setGame). }
  exists s. split_and!; [done|done|..]; intros; apply modifies_refl.
Qed.

Lemma applyCardEffect_Ok gid ct s r :
  _applyCardEffect gid ct s = Ok r →
  ct = CARD_TYPE_REVERSE → direction (gameAt s gid) ≠ -128.
Proof.
  intros H -> Hd. revert H. unfold _applyCardEffect. simpl. mrun.
  by rewrite Hd.
Qed.

(** ** Checks that pass *)

Lemma validateGame_eq gid st s :
  0 < gid ≤ _gameIdCounter s → status (gameAt s gid) = st →
  validateGame gid st s = Ok ((), s).
Proof. intros. by apply validateGame_Ok. Qed.

Lemma onlyPlayer_eq e gid s :
  msg_sender e ∈ players (gameAt s gid) → onlyPlayer e gid s = Ok ((), s).
Proof. intros. by apply onlyPlayer_Ok. Qed.

Lemma arrayAt_eq l i a s :
  0 ≤ i → l !! Z.to_nat i = Some a → arrayAt l i s = Ok (a, s).
Proof. intros. apply arrayAt_Ok. eauto. Qed.

Lemma getEuint256_eq l i c s :
  0 ≤ i → l !! Z.to_nat i = Some c → ePreview.getEuint256 l i s = Ok (c, s).
Proof. intros. apply getEuint256_Ok. eauto. Qed.

(** ** Playing a card *)

Ltac simp_state :=
  repeat first
    [ rewrite gameAt_setGame_eq
    | rewrite handAt_setHand_eq
    | rewrite calledUnoAt_setCalledUno_eq
    | rewrite penaltyAt_setPenalty_eq
    | rewrite windowOpenAt_setWindowOpen_eq
    | rewrite windowPlayerAt_setWindowPlayer_eq
    | rewrite setGame_setGame
    | progress skip_writes ].

Ltac solve_modifies :=
  repeat first
    [ apply modifies_refl
    | eapply modifies_trans;
      [| first [ apply modifies_setGame
               | apply modifies_setHand; reflexivity
               | apply modifies_setCalledUno; reflexivity
               | apply modifies_setPenalty; reflexivity
               | apply modifies_setWindowOpen
               | apply modifies_setWindowPlayer ] ] ].

Lemma removeStep {B} (hand : list Z) i (k : list Z → M B) s :
  0 ≤ i < ePreview.length hand →
  ((if ePreview.length hand =? 1 then mret ePreview.newEList
    else _removeCardFromHand hand i (ePreview.length hand)) ≫= k) s
  = k (delete (Z.to_nat i) hand) s.
Proof.
  intros Hi. destruct (Z.eqb_spec (ePreview.length hand) 1) as [H1|H1].
  - rewrite bind_mret. f_equal. unfold ePreview.length in *.
    destruct hand as [|x [|y hand]]; simpl in *; try lia.
    by replace (Z.to_nat i) with 0%nat by lia.
  - erewrite bind_Ok_eq by (apply removeCardFromHand_eq; lia). done.
Qed.

Lemma length_delete_hand (hand : list Z) i :
  0 ≤ i < ePreview.length hand →
  ePreview.length (delete (Z.to_nat i) hand) = ePreview.length hand - 1.
Proof.
  intros Hi. unfold ePreview.length in *.
  rewrite length_delete; [lia|]. apply lookup_lt_is_Some_2. lia.
Qed.

Lemma commitMoveError_None e gid i rid cc s :
  commitMoveError e gid i rid cc s = None ↔ moveChecks e gid i rid cc s.
Proof.
  unfold commitMoveError, moveChecks, playerAtIndex.
  destruct (Z.ltb_spec 0 gid), (Z.leb_spec gid (_gameIdCounter s)); simpl;
    try (split; [done|intros ([? ?] & _); lia]).
  case_bool_decide; simpl; [|split; [done|tauto]].
  case_bool_decide; simpl; [|split; [done|tauto]].
  destruct (Z.leb_spec (inco_getFee e * 2) (msg_value e)); simpl;
    [|split; [done|intros (_ & _ & _ & ? & _); lia]].
  case_bool_decide as Hcur; simpl;
    [|split; [done|intros (_ & _ & _ & _ & ? & ? & _); destruct Hcur; eauto]].
  destruct Hcur as [Hc0 [a Ha]]. rewrite Ha. simpl.
  case_bool_decide; simpl;
    [subst a|split; [done|intros (_ & _ & _ & _ & _ & ? & _); congruence]].
  destruct (Z.leb_spec cc 3); simpl;
    [|split; [done|intros (_ & _ & _ & _ & _ & _ & ? & _); lia]].
  destruct (Z.ltb_spec rid DECK_SIZE); simpl;
    [|split; [done|intros (_ & _ & _ & _ & _ & _ & _ & ? & _); lia]].
  destruct (Z.ltb_spec i (ePreview.length (handAt s gid (msg_sender e)))); simpl;
    [|split; [done|intros (_ & _ & _ & _ & _ & _ & _ & _ & ? & _); lia]].
  destruct (_isCardPlayableInternal _ _ _); simpl;
    [|split; [done|intros (_ & _ & _ & _ & _ & _ & _ & _ & _ & ?); done]].
  destruct (Z.leb_spec 0 i); simpl;
    [|split; [done|intros (_ & _ & _ & _ & _ & _ & _ & _ & ? & _); lia]].
  split; [intros _|done]. split_and!; auto with lia.
Qed.

Lemma validateGame_Revert gid st s :
  validateGame gid st s =
  if negb ((0 <? gid) && (gid <=? _gameIdCounter s)) then Revert "Invalid game ID"
  else if negb (bool_decide (status (gameAt s gid) = st))
       then Revert "Game is not in the required status"
       else Ok ((), s).
Proof.
  unfold validateGame. mrun.
  destruct ((0 <? gid) && (gid <=? _gameIdCounter s)); simpl; [|done].
  by destruct (bool_decide _).
Qed.

Lemma onlyPlayer_Revert e gid s :
  onlyPlayer e gid s =
  if negb (bool_decide (msg_sender e ∈ players (gameAt s gid)))
  then Revert "Not a player in this game" else Ok ((), s).
Proof. unfold onlyPlayer. mrun. by destruct (bool_decide _). Qed.

Lemma arrayAt_Revert l i s :
  ¬ (0 ≤ i ∧ is_Some (l !! Z.to_nat i)) → arrayAt l i s = Revert "Panic(0x32)".
Proof.
  intros H. unfold arrayAt. destruct (Z.leb_spec 0 i); [|done].
  destruct (l !! Z.to_nat i) eqn:E; [|done]. destruct H. eauto.
Qed.

Lemma getEuint256_Revert l i s :
  i < 0 → ePreview.getEuint256 l i s = Revert "EList: index out of range".
Proof.
  intros H. unfold ePreview.getEuint256. by destruct (Z.leb_spec 0 i); [lia|].
Qed.

Lemma commitMove_rejects e gid i rid cc s msg :
  commitMoveError e gid i rid cc s = Some msg →
  commitMove e gid i rid cc s = Revert msg.
Proof.
  unfold commitMoveError, commitMove.
  unfold mbind at 1, M_bind at 1. rewrite validateGame_Revert.
  destruct (negb ((0 <? gid) && (gid <=? _gameIdCounter s))); [by intros [= <-]|].
  destruct (negb (bool_decide (status (gameAt s gid) = Started))); [by intros [= <-]|].
  unfold mbind at 1, M_bind at 1. rewrite onlyPlayer_Revert.
  destruct (negb (bool_decide (msg_sender e ∈ players (gameAt s gid))));
    [by intros [= <-]|].
  rewrite bind_require.
  destruct (inco_getFee e * 2 <=? msg_value e); simpl; [|by intros [= <-]].
  rewrite bind_gets.
  case_bool_decide as Hcur; simpl;
    [|intros [= <-]; by apply bind_Revert, arrayAt_Revert].
  destruct Hcur as [Hc0 [a Ha]].
  rewrite (playerAtIndex_lookup _ _ _ Ha).
  erewrite bind_Ok_eq by (by apply arrayAt_eq). cbv beta.
  rewrite bind_require.
  destruct (bool_decide (a = msg_sender e)); simpl; [|by intros [= <-]].
  rewrite bind_require. destruct (cc <=? 3); simpl; [|by intros [= <-]].
  rewrite bind_require. destruct (rid <? DECK_SIZE); simpl; [|by intros [= <-]].
  mrun.
  destruct (windowOpenAt s gid) eqn:Hwo;
    destruct (bool_decide (windowPlayerAt s gid = msg_sender e)) eqn:Hwp; simpl.
  all: simp_state; rewrite ?Hwo; simpl.
  all: destruct (i <? ePreview.length (handAt s gid (msg_sender e))); simpl;
    [|by intros [= <-]].
  all: destruct (_isCardPlayableInternal _ _ _); simpl; [|by intros [= <-]].
  all: destruct (Z.leb_spec 0 i); simpl; [done|].
  all: intros [= <-]; by apply bind_Revert, getEuint256_Revert.
Qed.

Lemma commitMove_placed e gid i rid cc s :
  moveChecks e gid i rid cc s →
  ∃ s0, playedUpTo (λ g, g) e gid i rid cc s s0
    ∧ commitMove e gid i rid cc s =
      (_applyCardEffect gid (_getCardType rid) ≫= λ _,
       finishMove e gid (ePreview.length (handAt s gid (msg_sender e)) - 1)) s0.
Proof.
  intros (Hgid & Hst & Hpl & Hfee & Hc0 & Hcur & Hcc & Hrid & Hi & Hplay).
  unfold playedUpTo, finishMove.
  set (p := msg_sender e) in *. set (hand := handAt s gid p) in *.
  assert (∃ c, hand !! Z.to_nat i = Some c) as [c Hc].
  { apply lookup_lt_is_Some_2. unfold ePreview.length in Hi. lia. }
  pose proof (length_delete_hand hand i Hi) as Hlen.
  unfold commitMove.
  erewrite bind_Ok_eq by (by apply validateGame_eq).
  erewrite bind_Ok_eq by (by apply onlyPlayer_eq).
  cbv beta. rewrite bind_require, (proj2 (Z.leb_le _ _) Hfee), bind_gets.
  erewrite bind_Ok_eq by (by apply arrayAt_eq).
  cbv beta. rewrite bind_require, bool_decide_eq_true_2 by done.
  rewrite bind_require, (proj2 (Z.leb_le _ _) Hcc).
  rewrite bind_require, (proj2 (Z.ltb_lt _ _) Hrid).
  fold p.
  mrun. fold p hand.
  destruct (windowOpenAt s gid) eqn:Hwo;
    destruct (bool_decide (windowPlayerAt s gid = p)) eqn:Hwp; simpl.
  all: simp_state; rewrite ?Hwo; simpl; fold hand.
  all: rewrite (proj2 (Z.ltb_lt _ _) (proj2 Hi)), ?Hplay.
  all: erewrite bind_Ok_eq by (apply getEuint256_eq; [lia|exact Hc]).
  all: cbv beta; rewrite removeStep by done.
  all: mrun; simp_state; rewrite ?Hwo, ?Hlen; fold hand.
  all: replace (ePreview.length hand - 1 =? 1) with (ePreview.length hand =? 2)
    by (destruct (Z.eqb_spec (ePreview.length hand) 2),
          (Z.eqb_spec (ePreview.length hand - 1) 1); lia || done).
  all: rewrite andb_diag.
  all: destruct (ePreview.length hand =? 2) eqn:H2;
    destruct (calledUnoAt s gid p) eqn:Hcu; simpl.
  all: eexists; (split; [exists c|reflexivity]).
  all: simp_state; rewrite ?Hwo.
  all: split_and!;
    [ exact Hc | solve_modifies
    | reflexivity | reflexivity | reflexivity | reflexivity | reflexivity
    | try done ].
Qed.

Lemma applyCardEffect_panic gid s :
  direction (gameAt s gid) = -128 →
  _applyCardEffect gid CARD_TYPE_REVERSE s = Revert "Panic(0x11)".
Proof. intros Hd. unfold _applyCardEffect. simpl. mrun. by rewrite Hd. Qed.

Lemma finishMove_win e gid sp :
  finishMove e gid 0 sp = Ok ((), won e gid sp).
Proof. unfold finishMove, won. simpl. mrun. by simp_state. Qed.

Lemma finishMove_advance e gid n sp :
  n ≠ 0 → finishMove e gid n sp = _advanceToNextPlayer e gid sp.
Proof. intros Hn. unfold finishMove. by rewrite (proj2 (Z.eqb_neq _ _) Hn). Qed.

Lemma playedUpTo_effect e gid i rid cc s s0 sp :
  playedUpTo (λ g, g) e gid i rid cc s s0 →
  gameAt sp gid = cardEffect (_getCardType rid) (gameAt s0 gid) →
  modifies gid (λ _, False) false s0 sp →
  played e gid i rid cc s sp.
Proof.
  intros (c & Hc & Hm & Hg & Hh & Hcu & Hpe & Hwo & Hwp) Hgame Hmod.
  exists c.
  rewrite (mod_open _ _ _ _ _ Hmod), (mod_subject _ _ _ _ _ Hmod),
    (mod_hand _ _ _ _ _ Hmod), (mod_called _ _ _ _ _ Hmod),
    (mod_penalty _ _ _ _ _ Hmod), Hgame, Hg by (right; tauto).
  split_and!; try done.
  eapply modifies_trans; [exact Hm|].
  eapply modifies_weaken; [| |exact Hmod]; [intros ? []|done].
Qed.

(** A successful [commitMove] passed every check, laid the card, and then
    either ended the game or advanced the turn. *)
Lemma commitMove_Ok e gid i rid cc s s' :
  commitMove e gid i rid cc s = Ok ((), s') →
  moveChecks e gid i rid cc s
  ∧ ∃ sp, played e gid i rid cc s sp
      ∧ finishMove e gid (ePreview.length (handAt s gid (msg_sender e)) - 1) sp
        = Ok ((), s').
Proof.
  intros H.
  assert (Hchk : moveChecks e gid i rid cc s).
  { apply commitMoveError_None.
    destruct (commitMoveError e gid i rid cc s) as [msg|] eqn:E; [|done].
    apply commitMove_rejects in E. congruence. }
  split; [done|].
  destruct (commitMove_placed _ _ _ _ _ _ Hchk) as (s0 & Hpl & Heq).
  rewrite Heq in H. apply bind_Ok in H as ([] & sp & Heff & Hfin).
  exists sp. split; [|done].
  assert (Hdir : _getCardType rid = CARD_TYPE_REVERSE →
                 direction (gameAt s0 gid) ≠ -128).
  { intros Hr Hd. rewrite Hr, applyCardEffect_panic in Heff; done. }
  destruct (applyCardEffect_spec gid _ s0 Hdir) as (sp' & Heff' & Hg & Hm & _).
  rewrite Heff in Heff'. injection Heff' as <-.
  by eapply playedUpTo_effect.
Qed.

(** Conversely the checks, together with a direction that can be negated,
    let [commitMove] run up to the win test. *)
Lemma commitMove_play e gid i rid cc s :
  moveChecks e gid i rid cc s →
  (_getCardType rid = CARD_TYPE_REVERSE → direction (gameAt s gid) ≠ -128) →
  ∃ sp, played e gid i rid cc s sp
    ∧ commitMove e gid i rid cc s
      = finishMove e gid (ePreview.length (handAt s gid (msg_sender e)) - 1) sp.
Proof.
  intros Hchk Hdir.
  destruct (commitMove_placed _ _ _ _ _ _ Hchk) as (s0 & Hpl & Heq).
  assert (Hdir0 : _getCardType rid = CARD_TYPE_REVERSE →
                  direction (gameAt s0 gid) ≠ -128).
  { destruct Hpl as (c & _ & _ & -> & _). exact Hdir. }
  destruct (applyCardEffect_spec gid _ s0 Hdir0) as (sp & Heff & Hg & Hm & _).
  exists sp. split; [by eapply playedUpTo_effect|].
  rewrite Heq. by erewrite bind_Ok_eq by exact Heff.
Qed.

(** ** Transactions *)

Lemma call_Success e a s s' :
  call e a s = (s', Success) ↔ exec e a s = Ok ((), s').
Proof.
  unfold call, transact. destruct (exec e a s) as [[[] s1]|msg]; split;
    intros H; by simplify_eq.
Qed.

Lemma call_Reverted e a s s' msg :
  call e a s = (s', Reverted msg) ↔ exec e a s = Revert msg ∧ s' = s.
Proof.
  unfold call, transact. destruct (exec e a s) as [[[] s1]|m].
  - split; [done|by intros [? _]].
  - split; [by intros [= -> ->]|by intros [[= ->] ->]].
Qed.

Lemma cardEffect_fields ct g :
  let g' := cardEffect ct g in
  gameId g' = gameId g ∧ players g' = players g ∧ status g' = status g
  ∧ startTime g' = startTime g ∧ endTime g' = endTime g
  ∧ deck g' = deck g ∧ moves g' = moves g ∧ topCard g' = topCard g
  ∧ topCardId g' = topCardId g ∧ deckIndex g' = deckIndex g
  ∧ currentPlayerIndex g' = currentPlayerIndex g
  ∧ currentColor g' = currentColor g ∧ winner g' = winner g.
Proof.
  unfold cardEffect. repeat case_match; simpl; by split_and!.
Qed.

Lemma last_card_wins e gid i rid cc s s' :
  call e (CommitMove gid i rid cc) s = (s', Success) →
  length (handAt s gid (msg_sender e)) = 1%nat →
  status (gameAt s' gid) = Ended
  ∧ winner (gameAt s' gid) = msg_sender e
  ∧ currentPlayerIndex (gameAt s' gid) = currentPlayerIndex (gameAt s gid)
  ∧ handAt s' gid (msg_sender e) = [].
Proof.
  intros H%call_Success Hlen. simpl in H.
  apply commitMove_Ok in H as (Hchk & sp & Hpl & Hfin).
  unfold ePreview.length in Hfin. rewrite Hlen in Hfin. simpl in Hfin.
  rewrite finishMove_win in Hfin. injection Hfin as <-.
  destruct Hpl as (c & Hc & Hm & Hg & Hh & _).
  unfold won. simp_state. simpl. split_and!; try done.
  - rewrite Hg. unfold laid. by rewrite (proj1 (proj2 (proj2 (proj2 (proj2 (proj2 (proj2 (proj2 (proj2 (proj2 (proj2 (cardEffect_fields _ _)))))))))))).
  - rewrite Hh. destruct (handAt s gid (msg_sender e)) as [|x [|y l]]; try done.
    apply lookup_lt_Some in Hc. simpl in Hc.
    by replace (Z.to_nat i) with 0%nat by lia.
Qed.

Lemma cardEffect_reverse_two g :
  length (players g) = 2%nat →
  cardEffect CARD_TYPE_REVERSE g
  = set_skipNextPlayer true (set_direction (- direction g) g).
Proof. intros H. unfold cardEffect. simpl. by rewrite H. Qed.

Lemma getCardType_reverse rid :
  84 ≤ rid < 92 → _getCardType rid = CARD_TYPE_REVERSE.
Proof.
  intros H. unfold _getCardType, NUMBER_CARDS_END, SKIP_END, REVERSE_END.
  repeat case_match; try done; lia.
Qed.

Lemma nextIndex_twice_two g :
  length (players g) = 2%nat →
  0 ≤ currentPlayerIndex g < 2 →
  nextIndex (set_currentPlayerIndex (nextIndex g) g) = currentPlayerIndex g.
Proof.
  intros Hn Hi. unfold nextIndex. simpl. rewrite Hn. simpl.
  assert (currentPlayerIndex g = 0 ∨ currentPlayerIndex g = 1) as [->| ->] by lia;
    by destruct (direction g =? 1).
Qed.

Lemma reverse_with_two_players e gid i rid cc s s' :
  call e (CommitMove gid i rid cc) s = (s', Success) →
  length (players (gameAt s gid)) = 2%nat →
  84 ≤ rid < 92 →
  currentPlayerIndex (gameAt s' gid) = currentPlayerIndex (gameAt s gid)
  ∧ direction (gameAt s' gid) = - direction (gameAt s gid)
  ∧ players (gameAt s' gid) = players (gameAt s gid).
Proof.
  intros H%call_Success Hn Hrid. simpl in H.
  apply commitMove_Ok in H as (Hchk & sp & Hpl & Hfin).
  destruct Hchk as (_ & _ & _ & _ & Hc0 & Hcur & _).
  apply lookup_lt_Some in Hcur. rewrite Hn in Hcur.
  destruct Hpl as (c & Hc & Hm & Hg & Hh & _).
  unfold laid in Hg. rewrite getCardType_reverse in Hg by done.
  rewrite cardEffect_reverse_two in Hg by done.
  destruct (Z.eq_dec (ePreview.length (handAt s gid (msg_sender e)) - 1) 0) as [E|E].
  - rewrite E, finishMove_win in Hfin. injection Hfin as <-.
    unfold won. simp_state. by rewrite Hg.
  - rewrite finishMove_advance in Hfin by done.
    apply advance_summary in Hfin
      as (cs & d & di & m & _ & Hg' & _).
    rewrite Hg' , Hg. simpl. split_and!; try done.
    apply (nextIndex_twice_two
             (set_skipNextPlayer true
                (set_direction (- direction (gameAt s gid))
                   (placed c rid cc (gameAt s gid))))); simpl; [done|lia].
Qed.

(** ** Preservation of the invariants *)

Lemma hands_update (ps : list Z) (h h' : Z → list Z) p cs :
  NoDup ps → p ∈ ps → (∀ q, q ≠ p → h' q = h q) → h' p ≡ₚ h p ++ cs →
  ps ≫= h' ≡ₚ (ps ≫= h) ++ cs.
Proof.
  intros Hnd Hin Hne Hp. induction ps as [|q ps IH]; [by apply elem_of_nil in Hin|].
  apply NoDup_cons in Hnd as [Hq Hnd]. rewrite !bind_cons.
  destruct (decide (q = p)) as [->|Hqp].
  - rewrite Hp. assert (ps ≫= h' = ps ≫= h) as ->.
    { clear IH Hin Hnd. induction ps as [|r ps IH]; [done|]. rewrite !bind_cons.
      rewrite Hne by (intros ->; apply Hq; left).
      f_equal. apply IH. intros Hr. apply Hq. by right. }
    rewrite <- !app_assoc. f_equiv. apply Permutation_app_comm.
  - apply elem_of_cons in Hin as [->|Hin]; [done|].
    rewrite Hne by done. rewrite IH by done. by rewrite app_assoc.
Qed.

Lemma hands_same (ps : list Z) (h h' : Z → list Z) :
  (∀ q, q ∈ ps → h' q = h q) → ps ≫= h' = ps ≫= h.
Proof.
  induction ps as [|r ps IH]; [done|]. intros H. rewrite !bind_cons.
  rewrite H by left. f_equal. apply IH. intros. apply H. by right.
Qed.

(** One card leaves the piles: without or after a reshuffle. *)
Lemma drawStep_conserves e g g1 c :
  validEnv e → pileInv g →
  ((deckIndex g < ePreview.length (deck g) ∧ g1 = g)
   ∨ (ePreview.length (deck g) ≤ deckIndex g
      ∧ 2 ≤ ePreview.length (moves g) ∧ g1 = reshuffled e g)) →
  0 ≤ deckIndex g1 →
  deck g1 !! Z.to_nat (deckIndex g1) = Some c →
  conserves [c] g (set_deckIndex (deckIndex g1 + 1) g1).
Proof.
  intros He [Hdi Htop] Hcase Hpos Hc.
  destruct Hcase as [[Hlt ->]|(Hex & Hm & ->)].
  - repeat split; simpl; try done; try lia.
    unfold drawPile. simpl.
    replace (Z.to_nat (deckIndex g + 1)) with (S (Z.to_nat (deckIndex g))) by lia.
    by rewrite (drop_S _ _ _ Hc).
  - simpl in Hc. change (Z.to_nat 0) with 0%nat in Hc.
    assert (Hne : moves g ≠ []).
    { intros E. rewrite E in Hm. unfold ePreview.length in Hm. simpl in Hm. lia. }
    specialize (Htop Hne).
    repeat split; simpl; try done; try lia.
    + unfold drawPile at 1 2. simpl. change (Z.to_nat (0 + 1)) with 1%nat.
      rewrite (drop_ge (deck _)) by (unfold ePreview.length in Hex; lia).
      simpl. rewrite app_comm_cons.
      rewrite <- (drop_S _ _ _ Hc), drop_0.
      rewrite (He _). by rewrite last_take_snoc.
    + apply lookup_lt_Some in Hc. unfold ePreview.length in *. lia.
Qed.

Lemma sameGame_refl gid s : sameGame gid s s.
Proof. by split_and!. Qed.

Lemma modifies_sameGame gid0 P w s s' gid :
  modifies gid0 P w s s' → gid ≠ gid0 → sameGame gid s s'.
Proof.
  intros Hm Hne. split_and!.
  - by apply (mod_game _ _ _ _ _ Hm).
  - intros p. apply (mod_hand _ _ _ _ _ Hm). by left.
  - apply (mod_open _ _ _ _ _ Hm). by left.
  - apply (mod_subject _ _ _ _ _ Hm). by left.
Qed.

Lemma gameInv_sameGame gid s s' :
  sameGame gid s s' → gameInv s gid → gameInv s' gid.
Proof.
  intros (Hg & Hh & Ho & Hp) [Hwf Hl]. split.
  - unfold gameWf, gameShape in *. by rewrite Hg, Ho, Hp.
  - unfold ledgerInv, ledger, allHands in *. rewrite Hg.
    destruct Hl as (c0 & Hperm & H1 & H2). exists c0. split_and!; try done.
    rewrite <- Hperm.
    by rewrite (hands_same _ (handAt s gid) (handAt s' gid)) by (by intros).
Qed.

Lemma ledger_draw s s' gid p cs :
  ledgerInv s gid →
  NoDup (players (gameAt s gid)) → p ∈ players (gameAt s gid) →
  players (gameAt s' gid) = players (gameAt s gid) →
  topCard (gameAt s' gid) = topCard (gameAt s gid) →
  (∀ q, q ≠ p → handAt s' gid q = handAt s gid q) →
  handAt s' gid p = handAt s gid p ++ cs →
  conserves cs (gameAt s gid) (gameAt s' gid) →
  ledgerInv s' gid.
Proof.
  intros (c0 & Hperm & H1 & H2) Hnd Hin Hpl Htop Hoth Hp (Hcons & [_ Hlast] & Hemp).
  exists c0. split_and!.
  - rewrite <- Hperm. f_equiv. unfold ledger, allHands. rewrite Hpl.
    rewrite (hands_update _ (handAt s gid) (handAt s' gid) p cs);
      [|done|done|done|by rewrite Hp].
    rewrite <- app_assoc. f_equiv. exact Hcons.
  - intros E. rewrite Htop. apply H1. by apply Hemp.
  - done.
Qed.

Lemma playerAtIndex_elem g i :
  0 ≤ i < Z.of_nat (length (players g)) → playerAtIndex g i ∈ players g.
Proof.
  intros Hi. unfold playerAtIndex.
  destruct (lookup_lt_is_Some_2 (players g) (Z.to_nat i)) as [a Ha]; [lia|].
  rewrite Ha. simpl. by eapply list_elem_of_lookup_2.
Qed.

Lemma nonempty_length (l : list Z) : 0 < Z.of_nat (length l) → l ≠ [].
Proof. destruct l; simpl; [lia|done]. Qed.

Lemma advance_gameInv e gid s s' :
  validEnv e →
  _advanceToNextPlayer e gid s = Ok ((), s') →
  gameShape s gid → ledgerInv s gid →
  0 ≤ pendingDraws (gameAt s gid) →
  (skipNextPlayer (gameAt s gid) = false → pendingDraws (gameAt s gid) = 0) →
  gameInv s' gid.
Proof.
  intros He H (Hnd & Hcpi & Hst & Hdir & Hwin & Hpile) Hled Hpd0 Hpd.
  apply advance_summary in H
    as (cs & d & di & m & Hmod & Hg & Hh & Hlen & _ & _ & Hcons & Hpos & Hsome).
  specialize (Hcons He Hpile).
  assert (Hne : players (gameAt s gid) ≠ []) by (apply nonempty_length; lia).
  pose proof (nextIndex_bounds _ Hne (proj1 Hcpi) (proj2 Hcpi)) as Hnext.
  split; [split|].
  - unfold gameShape.
    rewrite (mod_open _ _ _ _ _ Hmod), (mod_subject _ _ _ _ _ Hmod) by (by right).
    split_and!.
    + by rewrite Hg.
    + done.
    + rewrite Hg. destruct Hsome as [a Ha]. apply lookup_lt_Some in Ha.
      rewrite Hg in Ha. simpl in *. lia.
    + by rewrite Hg.
    + by rewrite Hg.
    + by rewrite Hg.
    + apply Hcons.
  - rewrite Hg. intros _. simpl. split; [done|].
    destruct (skipNextPlayer (gameAt s gid)); simpl; [|auto].
    destruct (Z.ltb_spec 0 (pendingDraws (gameAt s gid))); [done|lia].
  - eapply (ledger_draw s s' gid (playerAtIndex (gameAt s gid) (nextIndex (gameAt s gid))) cs);
      try done.
    + by apply playerAtIndex_elem.
    + by rewrite Hg.
    + by rewrite Hg.
    + intros q Hq. apply (mod_hand _ _ _ _ _ Hmod). by right.
Qed.

Lemma gameShape_proper s s' gid :
  let g := gameAt s gid in
  let g' := gameAt s' gid in
  players g' = players g → currentPlayerIndex g' = currentPlayerIndex g →
  (status g' = Started → status g = Started) →
  direction g' = direction g →
  deck g' = deck g → deckIndex g' = deckIndex g → moves g' = moves g →
  topCard g' = topCard g →
  windowOpenAt s' gid = windowOpenAt s gid →
  windowPlayerAt s' gid = windowPlayerAt s gid →
  gameShape s gid → gameShape s' gid.
Proof.
  unfold gameShape, pileInv. simpl.
  intros -> -> Hst -> -> -> -> -> -> ->. intuition.
Qed.

Lemma ledgerInv_proper s s' gid :
  let g := gameAt s gid in
  let g' := gameAt s' gid in
  players g' = players g →
  deck g' = deck g → deckIndex g' = deckIndex g → moves g' = moves g →
  topCard g' = topCard g →
  (∀ q, handAt s' gid q = handAt s gid q) →
  ledgerInv s gid → ledgerInv s' gid.
Proof.
  unfold ledgerInv, ledger, allHands, drawPile. simpl.
  intros -> -> -> -> -> Hh (c0 & Hperm & H1 & H2).
  exists c0. split_and!; try done.
  by rewrite (hands_same _ (handAt s gid) (handAt s' gid)) by (by intros).
Qed.

Lemma ledger_play s sp gid p i c :
  ledgerInv s gid →
  NoDup (players (gameAt s gid)) → p ∈ players (gameAt s gid) →
  handAt s gid p !! i = Some c →
  players (gameAt sp gid) = players (gameAt s gid) →
  deck (gameAt sp gid) = deck (gameAt s gid) →
  deckIndex (gameAt sp gid) = deckIndex (gameAt s gid) →
  moves (gameAt sp gid) = moves (gameAt s gid) ++ [c] →
  topCard (gameAt sp gid) = c →
  handAt sp gid p = delete i (handAt s gid p) →
  (∀ q, q ≠ p → handAt sp gid q = handAt s gid q) →
  ledgerInv sp gid.
Proof.
  intros (c0 & Hperm & H1 & H2) Hnd Hin Hc Hpl Hdk Hdi Hmv Htop Hp Hoth.
  exists c0. split_and!.
  - rewrite <- Hperm. f_equiv. unfold ledger, allHands, drawPile.
    rewrite Hpl, Hdk, Hdi, Hmv.
    rewrite (hands_update _ (handAt sp gid) (handAt s gid) p [c]); try done.
    + rewrite <- !app_assoc. f_equiv. rewrite app_assoc.
      by rewrite (Permutation_app_comm _ [c]).
    + intros q Hq. symmetry. by apply Hoth.
    + rewrite Hp. rewrite <- Permutation_cons_append. by apply delete_Permutation.
  - rewrite Hmv. by intros [_ [=]]%app_eq_nil.
  - intros _. rewrite Hmv, Htop. by rewrite last_snoc.
Qed.

Lemma cardEffect_direction ct g :
  direction g = 1 ∨ direction g = -1 →
  direction (cardEffect ct g) = 1 ∨ direction (cardEffect ct g) = -1.
Proof. unfold cardEffect. repeat case_match; simpl; lia. Qed.

Lemma cardEffect_pending ct g :
  skipNextPlayer g = false → pendingDraws g = 0 →
  0 ≤ pendingDraws (cardEffect ct g)
  ∧ (skipNextPlayer (cardEffect ct g) = false → pendingDraws (cardEffect ct g) = 0).
Proof.
  intros Hs Hp. unfold cardEffect. repeat case_match; simpl; rewrite ?Hs, ?Hp; done.
Qed.

Lemma commitMove_gameInv e gid i rid cc s s' :
  validEnv e →
  commitMove e gid i rid cc s = Ok ((), s') →
  gameInv s gid → gameInv s' gid.
Proof.
  intros He H [[Hshape Hset] Hled].
  apply commitMove_Ok in H as (Hchk & sp & Hpl & Hfin).
  destruct Hchk as (_ & Hst & Hin & _ & _ & _ & _ & _ & Hi & _).
  destruct Hshape as (Hnd & Hcpi & Hn2 & Hdir & Hwin & Hdi & Hlast).
  destruct Hset as [Hskip Hpd]; [by rewrite Hst|].
  destruct Hpl as (c & Hc & Hm & Hg & Hh & _ & _ & Hwo & Hwp).
  set (g := gameAt s gid) in *. set (p := msg_sender e) in *.
  destruct (cardEffect_fields (_getCardType rid) (placed c rid cc g))
    as (_ & Hf_pl & Hf_st & _ & _ & Hf_dk & Hf_mv & Hf_top & _ & Hf_di & Hf_cpi & _).
  unfold laid in Hg.
  assert (Hshape_sp : gameShape sp gid).
  { unfold gameShape, pileInv. rewrite Hg, Hf_pl, Hf_cpi, Hf_st, Hf_dk, Hf_di, Hf_mv, Hf_top.
    cbn [placed players currentPlayerIndex status deck deckIndex moves topCard
         set_moves set_currentColor set_topCardId set_topCard].
    split_and!; try done; try lia.
    - by apply cardEffect_direction.
    - intros ->%Hwp. done.
    - intros _. by rewrite last_snoc. }
  assert (Hled_sp : ledgerInv sp gid).
  { eapply (ledger_play s sp gid p (Z.to_nat i) c); try done.
    - by rewrite Hg, Hf_pl.
    - by rewrite Hg, Hf_dk.
    - by rewrite Hg, Hf_di.
    - by rewrite Hg, Hf_mv.
    - by rewrite Hg, Hf_top.
    - intros q Hq. apply (mod_hand _ _ _ _ _ Hm). by right. }
  destruct (Z.eq_dec (ePreview.length (handAt s gid p) - 1) 0) as [E|E].
  - rewrite E, finishMove_win in Hfin. injection Hfin as <-.
    split; [split|].
    + eapply (gameShape_proper sp); try exact Hshape_sp;
        unfold won; simp_state; try done.
    + unfold won, settled. simp_state. simpl. done.
    + eapply (ledgerInv_proper sp); try exact Hled_sp;
        unfold won; simp_state; try done.
  - rewrite finishMove_advance in Hfin by done.
    destruct (cardEffect_pending (_getCardType rid) (placed c rid cc g)) as [Hp0 Hp1];
      [done..|].
    eapply advance_gameInv; try done; by rewrite Hg.
Qed.

(** ** Drawing a card *)

Lemma drawCard_Ok e gid endTurn s s' :
  drawCard e gid endTurn s = Ok ((), s') →
  let g := gameAt s gid in
  let p := msg_sender e in
  (0 < gid ≤ _gameIdCounter s ∧ status g = Started ∧ p ∈ players g
   ∧ inco_getFee e ≤ msg_value e
   ∧ 0 ≤ currentPlayerIndex g
   ∧ players g !! Z.to_nat (currentPlayerIndex g) = Some p)
  ∧ ∃ sd c g1,
      ((deckIndex g < ePreview.length (deck g) ∧ g1 = g)
       ∨ (ePreview.length (deck g) ≤ deckIndex g
          ∧ 2 ≤ ePreview.length (moves g) ∧ g1 = reshuffled e g))
      ∧ 0 ≤ deckIndex g1
      ∧ deck g1 !! Z.to_nat (deckIndex g1) = Some c
      ∧ modifies gid (λ q, q = p) true s sd
      ∧ gameAt sd gid = set_deckIndex (deckIndex g1 + 1) g1
      ∧ handAt sd gid p = handAt s gid p ++ [c]
      ∧ windowOpenAt sd gid = false
      ∧ windowPlayerAt sd gid = windowPlayerAt s gid
      ∧ (∀ q, calledUnoAt sd gid q = calledUnoAt s gid q)
      ∧ (∀ q, penaltyAt sd gid q = penaltyAt s gid q)
      ∧ (if endTurn then _advanceToNextPlayer e gid sd = Ok ((), s')
         else s' = sd).
Proof.
  unfold drawCard. cbv zeta.
  rewrite bind_Ok. intros ([] & ? & (Hgid & Hst & [= ->])%validateGame_Ok & H).
  revert H. rewrite bind_Ok. intros ([] & ? & (Hin & [= ->])%onlyPlayer_Ok & H).
  revert H. rewrite bind_require.
  destruct (Z.leb_spec (inco_getFee e) (msg_value e)) as [Hfee|?]; [|done].
  rewrite bind_gets, bind_Ok.
  intros (a & ? & (a' & Hc0 & Hcur & [= -> ->])%arrayAt_Ok & H).
  revert H. rewrite bind_require. case_bool_decide as Hturn; [subst a'|done].
  intros H. split; [split_and!; (done || lia)|]. revert H.
  set (g := gameAt s gid). set (p := msg_sender e).
  assert (Hend : ∀ (s0 : Contract) c g1,
    ((deckIndex g < ePreview.length (deck g) ∧ g1 = g)
       ∨ (ePreview.length (deck g) ≤ deckIndex g
          ∧ 2 ≤ ePreview.length (moves g) ∧ g1 = reshuffled e g)) →
    0 ≤ deckIndex g1 → deck g1 !! Z.to_nat (deckIndex g1) = Some c →
    modifies gid (λ _, False) true s s0 →
    windowOpenAt s0 gid = false →
    windowPlayerAt s0 gid = windowPlayerAt s gid →
    (if endTurn
     then _advanceToNextPlayer e gid
            (setHand gid p (ePreview.append (handAt s gid p) c)
               (setGame gid (set_deckIndex (deckIndex g1 + 1) g1) s0))
     else Ok ((), setHand gid p (ePreview.append (handAt s gid p) c)
               (setGame gid (set_deckIndex (deckIndex g1 + 1) g1) s0)))
    = Ok ((), s') →
    ∃ sd c g1,
      ((deckIndex g < ePreview.length (deck g) ∧ g1 = g)
       ∨ (ePreview.length (deck g) ≤ deckIndex g
          ∧ 2 ≤ ePreview.length (moves g) ∧ g1 = reshuffled e g))
      ∧ 0 ≤ deckIndex g1
      ∧ deck g1 !! Z.to_nat (deckIndex g1) = Some c
      ∧ modifies gid (λ q, q = p) true s sd
      ∧ gameAt sd gid = set_deckIndex (deckIndex g1 + 1) g1
      ∧ handAt sd gid p = handAt s gid p ++ [c]
      ∧ windowOpenAt sd gid = false
      ∧ windowPlayerAt sd gid = windowPlayerAt s gid
      ∧ (∀ q, calledUnoAt sd gid q = calledUnoAt s gid q)
      ∧ (∀ q, penaltyAt sd gid q = penaltyAt s gid q)
      ∧ (if endTurn then _advanceToNextPlayer e gid sd = Ok ((), s')
         else s' = sd)).
  { intros s0 c g1 Hcase Hpos Hc Hm0 Hwo0 Hwp0 Hfin.
    exists (setHand gid p (handAt s gid p ++ [c])
              (setGame gid (set_deckIndex (deckIndex g1 + 1) g1) s0)), c, g1.
    split_and!; [done|done|done|..|].
    - eapply modifies_trans;
        [eapply modifies_weaken; [| |exact Hm0]; [intros ? []|done]|].
      solve_modifies.
    - by simp_state.
    - by simp_state.
    - by simp_state.
    - by simp_state.
    - intros q. simp_state. apply (mod_called _ _ _ _ _ Hm0). right; tauto.
    - intros q. simp_state. apply (mod_penalty _ _ _ _ _ Hm0). right; tauto.
    - destruct endTurn; [done|by injection Hfin]. }
  assert (Hclose : ∀ s0, modifies gid (λ _, False) true s s0 →
            windowPlayerAt s0 gid = windowPlayerAt s gid →
            modifies gid (λ _, False) true s (setWindowOpen gid false s0)
            ∧ windowOpenAt (setWindowOpen gid false s0) gid = false
            ∧ windowPlayerAt (setWindowOpen gid false s0) gid = windowPlayerAt s gid).
  { intros s0 Hm0 Hwp0. split_and!.
    - eapply modifies_trans; [exact Hm0|apply modifies_setWindowOpen].
    - apply windowOpenAt_setWindowOpen_eq.
    - exact Hwp0. }
  fold g.
  destruct (Z.leb_spec (ePreview.length (deck g)) (deckIndex g)) as [Hex|Hex].
  - rewrite bind_when. cbv beta iota.
    rewrite bind_Ok. intros ([] & sr & Hre & H). rewrite reshuffleFromDiscards_eq in Hre.
    fold g in Hre.
    destruct (Z.leb_spec 2 (ePreview.length (moves g))); [|done].
    injection Hre as <-. revert H. mrun. fold p.
    destruct (Hclose (setGame gid (reshuffled e g) s)) as (Hc1 & Hc2 & Hc3);
      [apply modifies_setGame|done|].
    simp_state.
    destruct (windowOpenAt s gid) eqn:Hwo;
      destruct (bool_decide (windowPlayerAt s gid = p)) eqn:Hwp;
      cbn [andb negb].
    all: simp_state; rewrite ?Hwo; cbn [andb negb]; simp_state.
    all: rewrite bind_Ok; intros (c & ? & (c' & Hpos & Hc & [= -> ->])%getEuint256_Ok & H).
    all: revert H; mrun; simp_state; fold g p; intros H.
    all: eapply (Hend _ c' (reshuffled e g)); [right; done|done|done|..|exact H];
      first [done | apply modifies_setGame | by simp_state].
  - rewrite bind_when. cbv beta iota. mrun. fold p.
    destruct (Hclose s) as (Hc1 & Hc2 & Hc3); [apply modifies_refl|done|].
    destruct (windowOpenAt s gid) eqn:Hwo;
      destruct (bool_decide (windowPlayerAt s gid = p)) eqn:Hwp;
      cbn [andb negb].
    all: simp_state; rewrite ?Hwo; cbn [andb negb]; simp_state.
    all: fold g; rewrite bind_Ok;
      intros (c & ? & (c' & Hpos & Hc & [= -> ->])%getEuint256_Ok & H).
    all: revert H; mrun; simp_state; fold g p; intros H.
    all: eapply (Hend _ c' g); [left; done|done|done|..|exact H];
      first [done | apply modifies_refl].
Qed.

Ltac simpl_game :=
  cbn [gameId players status startTime endTime deck moves topCard topCardId
       deckIndex currentPlayerIndex direction currentColor winner pendingDraws
       skipNextPlayer set_gameId set_players set_status set_startTime
       set_endTime set_deck set_moves set_topCard set_topCardId set_deckIndex
       set_currentPlayerIndex set_direction set_currentColor set_winner
       set_pendingDraws set_skipNextPlayer piles placed reshuffled] in *.

Lemma reshuffled_fields e g :
  let g' := reshuffled e g in
  players g' = players g ∧ status g' = status g
  ∧ currentPlayerIndex g' = currentPlayerIndex g ∧ direction g' = direction g
  ∧ skipNextPlayer g' = skipNextPlayer g ∧ pendingDraws g' = pendingDraws g
  ∧ topCard g' = topCard g.
Proof. by split_and!. Qed.

Lemma drawCard_gameInv e gid endTurn s s' :
  validEnv e →
  drawCard e gid endTurn s = Ok ((), s') →
  gameInv s gid → gameInv s' gid.
Proof.
  intros He H [[Hshape Hset] Hled].
  apply drawCard_Ok in H as (Hchk & sd & c & g1 & Hcase & Hpos & Hc & Hm & Hg & Hh
                             & Hwo & Hwp & _ & _ & Hfin).
  destruct Hchk as (_ & Hst & Hin & _).
  destruct Hshape as (Hnd & Hcpi & Hn2 & Hdir & Hwin & Hpile).
  destruct Hset as [Hskip Hpd]; [by rewrite Hst|].
  pose proof (drawStep_conserves e _ g1 c He Hpile Hcase Hpos Hc) as Hcons.
  rewrite <- Hg in Hcons.
  assert (Hsame : players (gameAt sd gid) = players (gameAt s gid)
            ∧ status (gameAt sd gid) = status (gameAt s gid)
            ∧ currentPlayerIndex (gameAt sd gid) = currentPlayerIndex (gameAt s gid)
            ∧ direction (gameAt sd gid) = direction (gameAt s gid)
            ∧ skipNextPlayer (gameAt sd gid) = skipNextPlayer (gameAt s gid)
            ∧ pendingDraws (gameAt sd gid) = pendingDraws (gameAt s gid)
            ∧ topCard (gameAt sd gid) = topCard (gameAt s gid)).
  { rewrite Hg. destruct Hcase as [[_ ->]|(_ & _ & ->)]; by split_and!. }
  destruct Hsame as (Hpl & Hst' & Hcpi' & Hdir' & Hskip' & Hpd' & Htop').
  assert (Hshape_sd : gameShape sd gid).
  { unfold gameShape. rewrite Hpl, Hst', Hcpi', Hdir', Hwo.
    split_and!; try done; try lia. apply Hcons. }
  assert (Hled_sd : ledgerInv sd gid).
  { eapply (ledger_draw s sd gid (msg_sender e) [c]); try done.
    intros q Hq. apply (mod_hand _ _ _ _ _ Hm). by right. }
  destruct endTurn.
  - eapply advance_gameInv; try done; rewrite ?Hskip', Hpd'; [lia|done].
  - subst s'. split; [split|]; try done.
    unfold settled. by rewrite Hskip', Hpd'.
Qed.

(** ** Challenging *)

Lemma penalizeUno_Ok e gid target s s' :
  penalizeUno e gid target s = Ok ((), s') →
  let g := gameAt s gid in
  (0 < gid ≤ _gameIdCounter s ∧ status g = Started ∧ msg_sender e ∈ players g
   ∧ msg_sender e ≠ target
   ∧ inco_getFee e * 2 ≤ msg_value e
   ∧ windowOpenAt s gid = true
   ∧ windowPlayerAt s gid = target
   ∧ penaltyAt s gid target = false)
  ∧ _forceDrawCards e gid target 2
      (setPenalty gid target true (setWindowOpen gid false s)) = Ok ((), s').
Proof.
  unfold penalizeUno. cbv zeta.
  rewrite bind_Ok. intros ([] & ? & (Hgid & Hst & [= ->])%validateGame_Ok & H).
  revert H. rewrite bind_Ok. intros ([] & ? & (Hin & [= ->])%onlyPlayer_Ok & H).
  revert H. rewrite bind_require. case_bool_decide as Hself; [done|]. cbn [negb].
  rewrite bind_require.
  destruct (Z.leb_spec (inco_getFee e * 2) (msg_value e)) as [Hfee|?]; [|done].
  mrun. destruct (windowOpenAt s gid) eqn:Hwo; [|done].
  case_bool_decide as Hsub; [|done].
  destruct (penaltyAt s gid target) eqn:Hpen; [done|]. cbn [negb].
  intros H. split; [split_and!; first [done | lia]|done].
Qed.

Lemma penalizeUno_gameInv e gid target s s' :
  validEnv e →
  penalizeUno e gid target s = Ok ((), s') →
  gameInv s gid → gameInv s' gid.
Proof.
  intros He H [[Hshape Hset] Hled].
  apply penalizeUno_Ok in H as (Hchk & H).
  destruct Hchk as (_ & Hst & _ & _ & _ & Hwo & Hwp & _).
  destruct Hshape as (Hnd & Hcpi & Hn2 & Hdir & Hwin & Hpile).
  apply forceDrawCards_summary in H
    as (cs & Hlen & Hm & (d & di & m & Hg) & Hh & _ & _ & Hcons).
  revert Hg Hh Hcons. simp_state. intros Hg Hh Hcons.
  specialize (Hcons He Hpile).
  split; [split|].
  - unfold gameShape.
    rewrite (mod_open _ _ _ _ _ Hm) by (by right). simp_state.
    destruct Hcons as (_ & Hpile' & _).
    rewrite Hg in Hpile' |- *. simpl_game. split_and!; try done; try lia.
  - unfold settled. by rewrite Hg.
  - eapply (ledger_draw s s' gid target cs); try done.
    + apply Hwin in Hwo. by rewrite Hwp in Hwo.
    + by rewrite Hg.
    + by rewrite Hg.
    + intros q Hq. rewrite (mod_hand _ _ _ _ _ Hm) by (by right). by simp_state.
Qed.

(** ** Declaring UNO, starting and joining *)

Lemma callUno_Ok e gid s s' :
  callUno e gid s = Ok ((), s') →
  (0 < gid ≤ _gameIdCounter s ∧ status (gameAt s gid) = Started
   ∧ msg_sender e ∈ players (gameAt s gid)
   ∧ ePreview.length (handAt s gid (msg_sender e)) = 2
   ∧ msg_value e = 0)
  ∧ s' = setCalledUno gid (msg_sender e) true s.
Proof.
  unfold callUno. cbv zeta. rewrite bind_require.
  destruct (Z.eqb_spec (msg_value e) 0) as [Hval|?]; [|done].
  rewrite bind_Ok. intros ([] & ? & (Hgid & Hst & [= ->])%validateGame_Ok & H).
  revert H. rewrite bind_Ok. intros ([] & ? & (Hin & [= ->])%onlyPlayer_Ok & H).
  revert H. mrun.
  destruct (Z.eqb_spec (ePreview.length (handAt s gid (msg_sender e))) 2); [|done].
  intros [= <-]. split; [split_and!; first [done | lia]|done].
Qed.

Lemma startGame_Ok e gid s s' :
  startGame e gid s = Ok ((), s') →
  (0 < gid ≤ _gameIdCounter s ∧ status (gameAt s gid) = NotStarted
   ∧ 2 ≤ Z.of_nat (length (players (gameAt s gid))))
  ∧ s' = with_activeGames
           (_activeGames s ++ [gid])
           (with_notStartedGames (swapRemove gid (_notStartedGames s))
              (setGame gid (set_status Started (gameAt s gid)) s)).
Proof.
  unfold startGame, _removeFromNotStartedGames.
  rewrite bind_Ok. intros ([] & ? & (Hgid & Hst & [= ->])%validateGame_Ok & H).
  revert H. mrun.
  destruct (Z.leb_spec 2 (Z.of_nat (length (players (gameAt s gid))))); [|done].
  intros [= <-]. split; [split_and!; first [done | lia]|done].
Qed.

Lemma joinGame_Ok e gid j s s' :
  joinGame e gid j s = Ok ((), s') →
  let g := gameAt s gid in
  (0 < gid ≤ _gameIdCounter s ∧ status g = NotStarted
   ∧ Z.of_nat (length (players g)) < MAX_PLAYERS
   ∧ inco_getFee e ≤ msg_value e
   ∧ (j ∉ players g)
   ∧ deckIndex g + INITIAL_HAND_SIZE < DECK_SIZE
   ∧ 0 ≤ deckIndex g
   ∧ deckIndex g + INITIAL_HAND_SIZE ≤ ePreview.length (deck g))
  ∧ s' = setGame gid
           (set_deckIndex (deckIndex g + INITIAL_HAND_SIZE)
              (set_players (players g ++ [j]) g))
           (setHand gid j
              (take (Z.to_nat INITIAL_HAND_SIZE) (drop (Z.to_nat (deckIndex g)) (deck g)))
              (setGame gid (set_players (players g ++ [j]) g) s)).
Proof.
  unfold joinGame, _dealHandToPlayer. cbv zeta.
  rewrite bind_Ok. intros ([] & ? & (Hgid & Hst & [= ->])%validateGame_Ok & H).
  revert H. mrun.
  destruct (Z.ltb_spec (Z.of_nat (length (players (gameAt s gid)))) MAX_PLAYERS); [|done].
  destruct (Z.leb_spec (inco_getFee e) (msg_value e)); [|done].
  case_bool_decide as Hnew; [|done].
  destruct (Z.ltb_spec (deckIndex (gameAt s gid) + INITIAL_HAND_SIZE) DECK_SIZE); [|done].
  rewrite bind_Ok.
  intros (h & ? & (Hs0 & Hs1 & Hs2 & [= -> ->])%slice_Ok & Hrest).
  revert Hrest. mrun. simp_state. intros [= <-].
  split; [split_and!; first [done | lia]|].
  replace (deckIndex (gameAt s gid) + INITIAL_HAND_SIZE - deckIndex (gameAt s gid))
    with INITIAL_HAND_SIZE by lia.
  done.
Qed.

(** ** Creating a game *)

Lemma createGame_Ok e creator t s n s' :
  createGame e creator t s = Ok (n, s') →
  let D := ePreview.shuffledRange e 0 DECK_SIZE in
  n = _gameIdCounter s + 1
  ∧ inco_getFee e * 2 ≤ msg_value e
  ∧ t < DECK_SIZE
  ∧ INITIAL_HAND_SIZE + 1 ≤ ePreview.length D
  ∧ ∃ top, D !! Z.to_nat INITIAL_HAND_SIZE = Some top
    ∧ _gameIdCounter s' = n
    ∧ _activeGames s' = _activeGames s
    ∧ _notStartedGames s' = _notStartedGames s ++ [n]
    ∧ gameAt s' n = createdGame e creator top t n (gameAt s n)
    ∧ handAt s' n creator = take (Z.to_nat INITIAL_HAND_SIZE) D
    ∧ (∀ g, g ≠ n → gameAt s' g = gameAt s g)
    ∧ (∀ g p, (g, p) ≠ (n, creator) → handAt s' g p = handAt s g p)
    ∧ (∀ g p, calledUnoAt s' g p = calledUnoAt s g p)
    ∧ (∀ g p, penaltyAt s' g p = penaltyAt s g p)
    ∧ (∀ g, windowOpenAt s' g = windowOpenAt s g)
    ∧ (∀ g, windowPlayerAt s' g = windowPlayerAt s g).
Proof.
  unfold createGame, _dealHandToPlayer. cbv zeta. mrun.
  destruct (Z.leb_spec (inco_getFee e * 2) (msg_value e)); [|done].
  destruct (Z.ltb_spec t DECK_SIZE); [|done].
  simp_state. rewrite bind_Ok.
  intros (h & ? & (Hs0 & Hs1 & Hs2 & [= -> ->])%slice_Ok & Hrest).
  revert Hrest. mrun. simp_state. rewrite bind_Ok.
  intros (top & ? & (top' & Hpos & Htop & [= -> ->])%getEuint256_Ok & Hrest).
  revert Hrest. mrun. simp_state. intros [= <- <-].
  split_and!; try done.
  - apply lookup_lt_Some in Htop. unfold ePreview.length, INITIAL_HAND_SIZE in *. lia.
  - exists top'. split_and!; try done.
    + simp_state. reflexivity.
    + simp_state. change (Z.to_nat 0) with 0%nat. by rewrite drop_0.
    + intros g Hg. simp_state. rewrite gameAt_setGame_ne by done. simp_state.
      by rewrite gameAt_setGame_ne by done.
    + intros g p Hgp. simp_state. rewrite handAt_setHand_ne by done. by simp_state.
Qed.

(** ** Other games are left alone *)

Lemma sameGame_trans gid s1 s2 s3 :
  sameGame gid s1 s2 → sameGame gid s2 s3 → sameGame gid s1 s3.
Proof.
  intros (G1 & H1 & O1 & P1) (G2 & H2 & O2 & P2). split_and!; congruence.
Qed.

Lemma finishMove_frame e gid n sp s' :
  finishMove e gid n sp = Ok ((), s') →
  _gameIdCounter s' = _gameIdCounter sp
  ∧ (∀ g, g ≠ gid → sameGame g sp s')
  ∧ (∀ g p, g ≠ gid → calledUnoAt s' g p = calledUnoAt sp g p)
  ∧ (∀ g p, g ≠ gid → penaltyAt s' g p = penaltyAt sp g p).
Proof.
  destruct (Z.eq_dec n 0) as [->|Hn].
  - rewrite finishMove_win. intros [= <-]. unfold won.
    split_and!; try done.
    intros g Hg. split_and!; try done. simp_state. by apply gameAt_setGame_ne.
  - rewrite finishMove_advance by done.
    intros (cs & d & di & m & Hmod & _)%advance_summary.
    split_and!.
    + apply (mod_counter _ _ _ _ _ Hmod).
    + intros g Hg. by eapply modifies_sameGame.
    + intros g p Hg. apply (mod_called _ _ _ _ _ Hmod). by left.
    + intros g p Hg. apply (mod_penalty _ _ _ _ _ Hmod). by left.
Qed.

Lemma commitMove_frame e gid i rid cc s s' :
  commitMove e gid i rid cc s = Ok ((), s') →
  _gameIdCounter s' = _gameIdCounter s ∧ (∀ g, g ≠ gid → sameGame g s s').
Proof.
  intros (_ & sp & (c & _ & Hm & _) & Hfin)%commitMove_Ok.
  apply finishMove_frame in Hfin as (Hc & Hs & _).
  split; [by rewrite Hc, (mod_counter _ _ _ _ _ Hm)|].
  intros g Hg. eapply sameGame_trans; [by eapply modifies_sameGame|by apply Hs].
Qed.

Lemma drawCard_frame e gid endTurn s s' :
  drawCard e gid endTurn s = Ok ((), s') →
  _gameIdCounter s' = _gameIdCounter s ∧ (∀ g, g ≠ gid → sameGame g s s').
Proof.
  intros (_ & sd & c & g1 & _ & _ & _ & Hm & _ & _ & _ & _ & _ & _ & Hfin)%drawCard_Ok.
  destruct endTurn.
  - apply advance_summary in Hfin as (cs & d & di & m & Hmod & _).
    split; [by rewrite (mod_counter _ _ _ _ _ Hmod), (mod_counter _ _ _ _ _ Hm)|].
    intros g Hg. eapply sameGame_trans; by eapply modifies_sameGame.
  - subst s'. split; [apply (mod_counter _ _ _ _ _ Hm)|].
    intros g Hg. by eapply modifies_sameGame.
Qed.

Lemma penalizeUno_frame e gid target s s' :
  penalizeUno e gid target s = Ok ((), s') →
  _gameIdCounter s' = _gameIdCounter s ∧ (∀ g, g ≠ gid → sameGame g s s').
Proof.
  intros (_ & H)%penalizeUno_Ok.
  apply forceDrawCards_summary in H as (cs & _ & Hm & _).
  split; [apply (mod_counter _ _ _ _ _ Hm)|].
  intros g Hg. apply (modifies_sameGame _ _ _ _ _ g) in Hm; [|done].
  destruct Hm as (G & H & O & P). revert G H O P. simp_state.
  intros G H O P. split_and!; try done.
  rewrite O. by apply windowOpenAt_setWindowOpen_ne.
Qed.

Lemma callUno_frame e gid s s' :
  callUno e gid s = Ok ((), s') →
  _gameIdCounter s' = _gameIdCounter s ∧ (∀ g, sameGame g s s').
Proof. intros (_ & ->)%callUno_Ok. split; [done|]. intros g. by split_and!. Qed.

Lemma startGame_frame e gid s s' :
  startGame e gid s = Ok ((), s') →
  _gameIdCounter s' = _gameIdCounter s ∧ (∀ g, g ≠ gid → sameGame g s s').
Proof.
  intros (_ & ->)%startGame_Ok. split; [done|]. intros g Hg.
  split_and!; try done. simp_state. by apply gameAt_setGame_ne.
Qed.

Lemma joinGame_frame e gid j s s' :
  joinGame e gid j s = Ok ((), s') →
  _gameIdCounter s' = _gameIdCounter s ∧ (∀ g, g ≠ gid → sameGame g s s').
Proof.
  intros (_ & ->)%joinGame_Ok. split; [done|]. intros g Hg.
  split_and!; try done.
  - simp_state. rewrite gameAt_setGame_ne by done. simp_state.
    by apply gameAt_setGame_ne.
  - intros p. simp_state. rewrite handAt_setHand_ne by (intros [=]; congruence). by simp_state.
Qed.

(** ** The invariant holds in every reachable state *)

Lemma Inv_step gid0 s s' :
  Inv s → 0 < gid0 ≤ _gameIdCounter s →
  _gameIdCounter s' = _gameIdCounter s →
  (∀ g, g ≠ gid0 → sameGame g s s') →
  (gameInv s gid0 → gameInv s' gid0) →
  Inv s'.
Proof.
  intros (Hc & Hin & Hout) Hgid Hcnt Hframe Hinv. split_and!.
  - by rewrite Hcnt.
  - rewrite Hcnt. intros g Hg. destruct (decide (g = gid0)) as [->|Hne].
    + by apply Hinv, Hin.
    + eapply gameInv_sameGame; [by apply Hframe|by apply Hin].
  - rewrite Hcnt. intros g Hg. assert (g ≠ gid0) as Hne by (intros ->; lia).
    destruct (Hframe g Hne) as (_ & _ & -> & _). by apply Hout.
Qed.

Lemma startGame_gameInv e gid s s' :
  startGame e gid s = Ok ((), s') → gameInv s gid → gameInv s' gid.
Proof.
  intros ((_ & Hst & Hn) & ->)%startGame_Ok [[Hshape Hset] Hled].
  split; [split|].
  - destruct Hshape as (Hnd & Hcpi & Hn2 & Hdir & Hwin & Hpile).
    unfold gameShape, pileInv in *. simp_state. simpl_game. intuition lia.
  - unfold settled in *. simp_state. simpl_game. intros _. apply Hset. by rewrite Hst.
  - eapply (ledgerInv_proper s); try exact Hled; simp_state; done.
Qed.

Lemma joinGame_gameInv e gid j s s' :
  joinGame e gid j s = Ok ((), s') → gameInv s gid → gameInv s' gid.
Proof.
  intros ((_ & Hst & _ & _ & Hnew & _ & Hd0 & Hd7) & ->)%joinGame_Ok [[Hshape Hset] Hled].
  destruct Hshape as (Hnd & Hcpi & Hn2 & Hdir & Hwin & Hpile & Hlast).
  split; [split|].
  - unfold gameShape, pileInv. simp_state. simpl_game. split_and!; try done.
    + apply NoDup_app. split_and!; [done| |apply NoDup_singleton].
      intros x Hx ->%list_elem_of_singleton. done.
    + lia.
    + rewrite length_app. simpl. lia.
    + by rewrite Hst.
    + intros H. apply elem_of_app. left. by apply Hwin.
    + unfold INITIAL_HAND_SIZE in *. lia.
  - unfold settled in *. simp_state. by simpl_game.
  - destruct Hled as (c0 & Hperm & H1 & H2). exists c0. simp_state. simpl_game.
    split_and!; try done. rewrite <- Hperm. f_equiv.
    unfold ledger, allHands, drawPile. simp_state. simpl_game.
    rewrite bind_app. simpl. rewrite app_nil_r.
    rewrite (hands_same (players (gameAt s gid)) (handAt s gid)).
    2:{ intros q Hq. simp_state.
        rewrite handAt_setHand_ne by (intros [= ->]; done). by simp_state. }
    simp_state.
    rewrite <- !app_assoc. f_equiv. rewrite app_assoc. f_equiv.
    replace (Z.to_nat (deckIndex (gameAt s gid) + INITIAL_HAND_SIZE))
      with (Z.to_nat (deckIndex (gameAt s gid)) + Z.to_nat INITIAL_HAND_SIZE)%nat
      by (unfold INITIAL_HAND_SIZE; lia).
    by rewrite <- drop_drop, take_drop.
Qed.

Lemma shuffledRange_perm e :
  validEnv e → ePreview.shuffledRange e 0 DECK_SIZE ≡ₚ canonicalIds.
Proof. intros He. unfold ePreview.shuffledRange. apply He. Qed.

Lemma createGame_Inv e creator t s n s' :
  validEnv e → createGame e creator t s = Ok (n, s') → Inv s → Inv s'.
Proof.
  intros He H (Hc & Hin & Hout).
  apply createGame_Ok in H
    as (-> & _ & _ & Hlen & top & Htop & Hcnt & _ & _ & Hg & Hh & Hgo & Hho & _ & _ & Hwo & Hwp).
  set (n := _gameIdCounter s + 1) in *.
  set (D := ePreview.shuffledRange e 0 DECK_SIZE) in *.
  split_and!.
  - rewrite Hcnt. lia.
  - rewrite Hcnt. intros gid Hgid. destruct (decide (gid = n)) as [->|Hne].
    + split; [split|].
      * unfold gameShape, pileInv. rewrite Hg, Hwo, Hout by lia. simpl.
        split_and!; try done; try lia.
        apply NoDup_singleton.
      * unfold settled. by rewrite Hg.
      * exists top. rewrite Hg. simpl. split_and!; try done.
        unfold ledger, allHands, drawPile. rewrite Hg. simpl.
        rewrite Hh, !app_nil_r. fold D.
        rewrite <- (shuffledRange_perm e He). fold D.
        rewrite <- (take_drop (Z.to_nat INITIAL_HAND_SIZE) D) at 3.
        rewrite (drop_S _ _ _ Htop).
        replace (Z.to_nat (INITIAL_HAND_SIZE + 1)) with (S (Z.to_nat INITIAL_HAND_SIZE))
          by (unfold INITIAL_HAND_SIZE; lia).
        by rewrite Permutation_middle.
    + eapply (gameInv_sameGame gid s).
      * split_and!; [by apply Hgo| |by apply Hwo|by apply Hwp].
        intros p. apply Hho. intros [= -> _]. done.
      * apply Hin. lia.
  - rewrite Hcnt. intros gid Hgid. rewrite Hwo. apply Hout. lia.
Qed.

Lemma emptyContract_Inv : Inv emptyContract.
Proof.
  split_and!; [done| |done]. simpl. intros gid Hgid. lia.
Qed.

Lemma exec_Inv e a s s' :
  validEnv e → exec e a s = Ok ((), s') → Inv s → Inv s'.
Proof.
  intros He H HI. destruct a as [c t|g j|g|g i r c|g|g t|g b]; simpl in H.
  - apply bind_Ok in H as (n & s1 & H & [= <-]). by eapply createGame_Inv.
  - pose proof H as ((Hgid & _) & _)%joinGame_Ok.
    pose proof H as (Hcnt & Hfr)%joinGame_frame.
    eapply (Inv_step g); try done. by eapply joinGame_gameInv.
  - pose proof H as ((Hgid & _) & _)%startGame_Ok.
    pose proof H as (Hcnt & Hfr)%startGame_frame.
    eapply (Inv_step g); try done. by eapply startGame_gameInv.
  - pose proof H as ((Hgid & _) & _)%commitMove_Ok.
    pose proof H as (Hcnt & Hfr)%commitMove_frame.
    eapply (Inv_step g); try done. by eapply commitMove_gameInv.
  - pose proof H as ((Hgid & _) & _)%callUno_Ok.
    pose proof H as (Hcnt & Hfr)%callUno_frame.
    eapply (Inv_step g); try done. by apply gameInv_sameGame.
  - pose proof H as ((Hgid & _) & _)%penalizeUno_Ok.
    pose proof H as (Hcnt & Hfr)%penalizeUno_frame.
    eapply (Inv_step g); try done. by eapply penalizeUno_gameInv.
  - pose proof H as ((Hgid & _) & _)%drawCard_Ok.
    pose proof H as (Hcnt & Hfr)%drawCard_frame.
    eapply (Inv_step g); try done. by eapply drawCard_gameInv.
Qed.

Lemma reachable_Inv s : reachable s → Inv s.
Proof.
  induction 1 as [|e a s s' _ IH He Hcall]; [apply emptyContract_Inv|].
  apply call_Success in Hcall. by eapply exec_Inv.
Qed.

(** ** When forced draws succeed *)

Lemma bind_reshuffle {B} e gid (k : unit → M B) s :
  (_reshuffleFromDiscards e gid ≫= k) s =
  if 2 <=? ePreview.length (moves (gameAt s gid))
  then k () (setGame gid (reshuffled e (gameAt s gid)) s)
  else Revert "No cards left to reshuffle".
Proof.
  unfold mbind, M_bind. rewrite reshuffleFromDiscards_eq. by destruct (2 <=? _).
Qed.

Lemma forceDrawOne_outcome e gid p s :
  validEnv e → 0 ≤ deckIndex (gameAt s gid) →
  ((∃ s', forceDrawOne e gid p s = Ok ((), s'))
   ∨ forceDrawOne e gid p s = Revert noReshuffle)
  ∧ (deckIndex (gameAt s gid) < ePreview.length (deck (gameAt s gid)) →
     forceDrawOne e gid p s
     = Ok ((), setHand gid p
                 (handAt s gid p
                  ++ [default 0 (deck (gameAt s gid)
                                 !! Z.to_nat (deckIndex (gameAt s gid)))])
                 (setGame gid (set_deckIndex (deckIndex (gameAt s gid) + 1)
                                             (gameAt s gid)) s))).
Proof.
  intros He Hpos. unfold forceDrawOne. mrun.
  destruct (Z.leb_spec (ePreview.length (deck (gameAt s gid)))
                       (deckIndex (gameAt s gid))) as [Hex|Hlt].
  - split.
    2:{ intros Hlt. exfalso. clear -Hex Hlt. lia. }
    rewrite !bind_reshuffle.
    destruct (Z.leb_spec 2 (ePreview.length (moves (gameAt s gid)))) as [Hm|Hm];
      [|right; reflexivity].
    left. mrun. simp_state.
    destruct (getEuint256_in_range (deck (reshuffled e (gameAt s gid)))
                (deckIndex (reshuffled e (gameAt s gid)))
                (setGame gid (reshuffled e (gameAt s gid)) s)) as (c & _ & Hget).
    { simpl. unfold ePreview.length in *.
      rewrite (Permutation_length (He _)), length_take. lia. }
    erewrite bind_Ok_eq by exact Hget. cbv beta. mrun. eauto.
  - destruct (getEuint256_in_range (deck (gameAt s gid)) (deckIndex (gameAt s gid)) s)
      as (c & Hc & Hget); [lia|].
    assert (forall X, (X = Ok ((), setHand gid p (handAt s gid p ++ [c])
                 (setGame gid (set_deckIndex (deckIndex (gameAt s gid) + 1)
                                             (gameAt s gid)) s))) →
            ((∃ s', X = Ok ((), s')) ∨ X = Revert noReshuffle)
            ∧ (deckIndex (gameAt s gid) < ePreview.length (deck (gameAt s gid)) →
               X = Ok ((), setHand gid p
                 (handAt s gid p
                  ++ [default 0 (deck (gameAt s gid)
                                 !! Z.to_nat (deckIndex (gameAt s gid)))])
                 (setGame gid (set_deckIndex (deckIndex (gameAt s gid) + 1)
                                             (gameAt s gid)) s)))) as Hgen.
    { intros X ->. split; [eauto|]. intros _. by rewrite Hc. }
    apply Hgen. mrun.
    erewrite bind_Ok_eq by exact Hget. cbv beta. mrun. by simp_state.
Qed.

Lemma forceDrawLoop_outcome e gid p n s :
  validEnv e → pileInv (gameAt s gid) →
  ((∃ s', forceDrawLoop e gid p n s = Ok ((), s'))
   ∨ forceDrawLoop e gid p n s = Revert noReshuffle)
  ∧ (deckIndex (gameAt s gid) + Z.of_nat n ≤ ePreview.length (deck (gameAt s gid)) →
     ∃ s', forceDrawLoop e gid p n s = Ok ((), s')).
Proof.
  intros He. revert s. induction n as [|n IH]; intros s Hpile.
  { simpl. split; [left|]; eauto. }
  cbn [forceDrawLoop].
  destruct (forceDrawOne_outcome e gid p s He (proj1 (proj1 Hpile))) as [Hout Hok].
  destruct Hout as [[s1 H1]|Hrev].
  - erewrite bind_Ok_eq by exact H1. cbv beta.
    pose proof H1 as (c & _ & Hcons)%forceDrawOne_drew.
    specialize (Hcons He Hpile). destruct Hcons as (_ & Hpile1 & _).
    destruct (IH s1 Hpile1) as [Hout1 Hok1]. split; [done|].
    intros Hen. apply Hok1.
    rewrite Hok in H1 by lia. injection H1 as <-. simp_state. simpl. lia.
  - split; [right; by apply bind_Revert|]. intros Hen.
    rewrite Hok in Hrev by lia. done.
Qed.

Lemma forceDrawCards_outcome e gid p n s :
  validEnv e → pileInv (gameAt s gid) →
  ((∃ s', _forceDrawCards e gid p n s = Ok ((), s'))
   ∨ _forceDrawCards e gid p n s = Revert noReshuffle)
  ∧ (deckIndex (gameAt s gid) + Z.max 0 n ≤ ePreview.length (deck (gameAt s gid)) →
     ∃ s', _forceDrawCards e gid p n s = Ok ((), s')).
Proof.
  intros He Hpile. unfold _forceDrawCards.
  destruct (forceDrawLoop_outcome e gid p (Z.to_nat n) s He Hpile) as [Hout Hok].
  assert (Hs : ∀ s1, forceDrawLoop e gid p (Z.to_nat n) s = Ok ((), s1) →
     ∃ s', (forceDrawLoop e gid p (Z.to_nat n);;
            modify (setCalledUno gid p false);;
            modify (setPenalty gid p false)) s = Ok ((), s')).
  { intros s1 H1. erewrite bind_Ok_eq by exact H1. cbv beta. mrun. eauto. }
  split.
  - destruct Hout as [[s1 H1]|Hrev]; [left; eauto|right; by apply bind_Revert].
  - intros Hen. destruct Hok as [s1 H1]; [lia|]. eauto.
Qed.

(** ** When the turn advance succeeds *)

Lemma advance_outcome e gid s :
  validEnv e → gameShape s gid →
  let g := gameAt s gid in
  ((∃ s', _advanceToNextPlayer e gid s = Ok ((), s'))
   ∨ _advanceToNextPlayer e gid s = Revert noReshuffle)
  ∧ ((skipNextPlayer g = true →
      deckIndex g + Z.max 0 (pendingDraws g) ≤ ePreview.length (deck g)) →
     ∃ s', _advanceToNextPlayer e gid s = Ok ((), s')).
Proof.
  intros He (Hnd & Hcpi & _ & _ & _ & Hpile). cbv zeta.
  set (g := gameAt s gid) in *.
  assert (Hne : players g ≠ []) by (apply nonempty_length; lia).
  pose proof (nextIndex_bounds _ Hne (proj1 Hcpi) (proj2 Hcpi)) as Hnext.
  destruct (lookup_lt_is_Some_2 (players g) (Z.to_nat (nextIndex g))) as [sk Hsk]; [lia|].
  unfold _advanceToNextPlayer.
  erewrite bind_Ok_eq by (by apply moveToNextPlayer_eq). cbv beta.
  mrun. simp_state. fold g. simpl_game.
  assert (Hlast : ∀ s2, players (gameAt s2 gid) = players g →
            currentPlayerIndex (gameAt s2 gid) = nextIndex g →
            ∃ s', (moveToNextPlayer gid ≫= λ _,
                   game ← gets (λ s0, gameAt s0 gid);
                   _ ← arrayAt (players game) (currentPlayerIndex game);
                   mret ()) s2 = Ok ((), s')).
  { intros s2 Hpl2 Hcpi2.
    erewrite bind_Ok_eq by (apply moveToNextPlayer_eq; by rewrite Hpl2). cbv beta.
    mrun. simp_state. simpl_game. rewrite Hpl2.
    assert (0 ≤ nextIndex (gameAt s2 gid) < Z.of_nat (length (players g))) as Hn2.
    { rewrite <- Hpl2. apply nextIndex_bounds; rewrite ?Hpl2, ?Hcpi2; [done|lia|lia]. }
    destruct (lookup_lt_is_Some_2 (players g) (Z.to_nat (nextIndex (gameAt s2 gid))))
      as [a Ha]; [lia|].
    erewrite bind_Ok_eq by (apply arrayAt_eq; [lia|exact Ha]). cbv beta. mrun. eauto. }
  destruct (skipNextPlayer g) eqn:Hskip.
  - erewrite bind_Ok_eq by (apply arrayAt_eq; [lia|exact Hsk]). cbv beta.
    mrun. simp_state.
    destruct (Z.ltb_spec 0 (pendingDraws g)) as [Hpd|Hpd].
    + set (s1 := setGame gid _ s).
      destruct (forceDrawCards_outcome e gid sk (pendingDraws g) s1 He) as [Hout Hok].
      { unfold s1. by simp_state. }
      assert (Hs : ∀ sd, _forceDrawCards e gid sk (pendingDraws g) s1 = Ok ((), sd) →
        ∃ s', (_forceDrawCards e gid sk (pendingDraws g) ≫= λ _,
               writeGame gid (set_pendingDraws 0) ≫= λ _,
               moveToNextPlayer gid ≫= λ _,
               game ← gets (λ s0, gameAt s0 gid);
               _ ← arrayAt (players game) (currentPlayerIndex game);
               mret ()) s1 = Ok ((), s')).
      { intros sd Hfd. erewrite bind_Ok_eq by exact Hfd. cbv beta. mrun.
        apply forceDrawCards_summary in Hfd as (cs & _ & _ & (d & di & m & Hg) & _).
        unfold s1 in Hg. revert Hg. simp_state. intros Hg.
        apply Hlast; simp_state; rewrite Hg; done. }
      split.
      * destruct Hout as [[sd Hfd]|Hrev]; [left; eauto|right; by apply bind_Revert].
      * intros Hen. destruct Hok as [sd Hfd]; [|eauto].
        unfold s1. simp_state. simpl_game. fold g. by apply Hen.
    + assert (∃ s', (moveToNextPlayer gid ≫= λ _,
                   game ← gets (λ s0, gameAt s0 gid);
                   _ ← arrayAt (players game) (currentPlayerIndex game);
                   mret ())
                (setGame gid (set_skipNextPlayer false
                   (set_currentPlayerIndex (nextIndex g) g)) s) = Ok ((), s')) as Hs.
      { apply Hlast; by simp_state. }
      split; [left|intros _]; exact Hs.
  - erewrite bind_Ok_eq by (apply arrayAt_eq; [lia|exact Hsk]). cbv beta.
    mrun. split; [left|intros _]; eauto.
Qed.

(** ** Rejected calls *)

Lemma bind_validateGame {B} gid st (k : unit → M B) s :
  (validateGame gid st ≫= k) s =
  if negb ((0 <? gid) && (gid <=? _gameIdCounter s)) then Revert "Invalid game ID"
  else if negb (bool_decide (status (gameAt s gid) = st))
       then Revert "Game is not in the required status"
       else k () s.
Proof.
  unfold mbind, M_bind. rewrite validateGame_Revert.
  destruct (negb _); [done|]. by destruct (negb _).
Qed.

Lemma bind_onlyPlayer {B} e gid (k : unit → M B) s :
  (onlyPlayer e gid ≫= k) s =
  if negb (bool_decide (msg_sender e ∈ players (gameAt s gid)))
  then Revert "Not a player in this game" else k () s.
Proof.
  unfold mbind, M_bind. rewrite onlyPlayer_Revert. by destruct (negb _).
Qed.

Lemma createGame_rejects e c t s msg :
  createGameError e t = Some msg → createGame e c t s = Revert msg.
Proof.
  unfold createGameError, createGame. cbv zeta. mrun.
  destruct (inco_getFee e * 2 <=? msg_value e); simpl; [|by intros [= <-]].
  destruct (t <? DECK_SIZE); simpl; [done|by intros [= <-]].
Qed.

Lemma joinGame_rejects e gid j s msg :
  joinGameError e gid j s = Some msg → joinGame e gid j s = Revert msg.
Proof.
  unfold joinGameError, joinGame. cbv zeta. rewrite bind_validateGame.
  destruct (negb ((0 <? gid) && (gid <=? _gameIdCounter s))); [by intros [= <-]|].
  destruct (negb (bool_decide _)); [by intros [= <-]|].
  mrun.
  destruct (_ <? MAX_PLAYERS); simpl; [|by intros [= <-]].
  destruct (inco_getFee e <=? msg_value e); simpl; [|by intros [= <-]].
  destruct (bool_decide (j ∉ players (gameAt s gid))); simpl; [|by intros [= <-]].
  destruct (_ <? DECK_SIZE); simpl; [done|by intros [= <-]].
Qed.

Lemma startGame_rejects e gid s msg :
  startGameError gid s = Some msg → startGame e gid s = Revert msg.
Proof.
  unfold startGameError, startGame. cbv zeta. rewrite bind_validateGame.
  destruct (negb ((0 <? gid) && (gid <=? _gameIdCounter s))); [by intros [= <-]|].
  destruct (negb (bool_decide _)); [by intros [= <-]|].
  mrun. destruct (2 <=? _); simpl; [done|by intros [= <-]].
Qed.

Lemma callUno_rejects e gid s msg :
  callUnoError e gid s = Some msg → callUno e gid s = Revert msg.
Proof.
  unfold callUnoError, callUno. cbv zeta. rewrite bind_require.
  destruct (msg_value e =? 0); simpl; [|by intros [= <-]].
  rewrite bind_validateGame.
  destruct (negb ((0 <? gid) && (gid <=? _gameIdCounter s))); [by intros [= <-]|].
  destruct (negb (bool_decide _)); [by intros [= <-]|].
  rewrite bind_onlyPlayer.
  destruct (negb (bool_decide _)); [by intros [= <-]|].
  mrun. destruct (_ =? 2); simpl; [done|by intros [= <-]].
Qed.

Lemma penalizeUno_rejects e gid target s msg :
  penalizeUnoError e gid target s = Some msg →
  penalizeUno e gid target s = Revert msg.
Proof.
  unfold penalizeUnoError, penalizeUno. cbv zeta. rewrite bind_validateGame.
  destruct (negb ((0 <? gid) && (gid <=? _gameIdCounter s))); [by intros [= <-]|].
  destruct (negb (bool_decide _)); [by intros [= <-]|].
  rewrite bind_onlyPlayer.
  destruct (negb (bool_decide _)); [by intros [= <-]|].
  mrun.
  destruct (bool_decide (msg_sender e = target)); simpl; [by intros [= <-]|].
  destruct (inco_getFee e * 2 <=? msg_value e); simpl; [|by intros [= <-]].
  destruct (windowOpenAt s gid); simpl; [|by intros [= <-]].
  destruct (bool_decide (windowPlayerAt s gid = target)); simpl; [|by intros [= <-]].
  destruct (penaltyAt s gid target); simpl; [by intros [= <-]|done].
Qed.

Lemma drawCard_rejects e gid endTurn s msg :
  drawCardError e gid s = Some msg → drawCard e gid endTurn s = Revert msg.
Proof.
  unfold drawCardError, drawCard. cbv zeta. rewrite bind_validateGame.
  destruct (negb ((0 <? gid) && (gid <=? _gameIdCounter s))); [by intros [= <-]|].
  destruct (negb (bool_decide _)); [by intros [= <-]|].
  rewrite bind_onlyPlayer.
  destruct (negb (bool_decide _)); [by intros [= <-]|].
  rewrite bind_require.
  destruct (inco_getFee e <=? msg_value e); simpl; [|by intros [= <-]].
  rewrite bind_gets.
  case_bool_decide as Hcur; simpl;
    [|intros [= <-]; by apply bind_Revert, arrayAt_Revert].
  destruct Hcur as [Hc0 [a Ha]].
  rewrite (playerAtIndex_lookup _ _ _ Ha).
  erewrite bind_Ok_eq by (by apply arrayAt_eq). cbv beta.
  rewrite bind_require.
  destruct (bool_decide (a = msg_sender e)); simpl; [|by intros [= <-]].
  rewrite bind_when.
  destruct (ePreview.length (deck (gameAt s gid)) <=? deckIndex (gameAt s gid));
    simpl; [|done].
  rewrite bind_reshuffle.
  destruct (2 <=? ePreview.length (moves (gameAt s gid))); simpl;
    [done|by intros [= <-]].
Qed.

Lemma exec_rejects e a s msg :
  firstViolation e a s = Some msg → exec e a s = Revert msg.
Proof.
  destruct a; simpl; intros H.
  - by apply bind_Revert, createGame_rejects.
  - by apply joinGame_rejects.
  - by apply startGame_rejects.
  - by apply commitMove_rejects.
  - by apply callUno_rejects.
  - by apply penalizeUno_rejects.
  - by apply drawCard_rejects.
Qed.

(** ** What a play leaves behind *)

Lemma played_shape e gid i rid cc s sp :
  gameInv s gid → status (gameAt s gid) = Started →
  msg_sender e ∈ players (gameAt s gid) →
  played e gid i rid cc s sp →
  gameShape sp gid ∧ ledgerInv sp gid.
Proof.
  intros [[Hshape Hset] Hled] Hst Hin Hpl.
  destruct Hshape as (Hnd & Hcpi & Hn2 & Hdir & Hwin & Hdi & Hlast).
  destruct Hpl as (c & Hc & Hm & Hg & Hh & _ & _ & Hwo & Hwp).
  set (g := gameAt s gid) in *. set (p := msg_sender e) in *.
  destruct (cardEffect_fields (_getCardType rid) (placed c rid cc g))
    as (_ & Hf_pl & Hf_st & _ & _ & Hf_dk & Hf_mv & Hf_top & _ & Hf_di & Hf_cpi & _).
  split.
  - unfold gameShape, pileInv.
    rewrite Hg, Hf_pl, Hf_cpi, Hf_st, Hf_dk, Hf_di, Hf_mv, Hf_top.
    cbn [placed players currentPlayerIndex status deck deckIndex moves topCard
         set_moves set_currentColor set_topCardId set_topCard].
    split_and!; try done; try lia.
    + by apply cardEffect_direction.
    + intros ->%Hwp. done.
    + intros _. by rewrite last_snoc.
  - eapply (ledger_play s sp gid p (Z.to_nat i) c); try done.
    + by rewrite Hg, Hf_pl.
    + by rewrite Hg, Hf_dk.
    + by rewrite Hg, Hf_di.
    + by rewrite Hg, Hf_mv.
    + by rewrite Hg, Hf_top.
    + intros q Hq. apply (mod_hand _ _ _ _ _ Hm). by right.
Qed.

Lemma nextIndex_ne g :
  2 ≤ Z.of_nat (length (players g)) →
  0 ≤ currentPlayerIndex g < Z.of_nat (length (players g)) →
  nextIndex g ≠ currentPlayerIndex g.
Proof.
  intros Hn Hc. unfold nextIndex.
  destruct (direction g =? 1).
  - intros E.
    destruct (Z.eq_dec (currentPlayerIndex g + 1) (Z.of_nat (length (players g))))
      as [E1|E1].
    + rewrite E1, Z_mod_same_full in E. lia.
    + rewrite Z.mod_small in E by lia. lia.
  - destruct (Z.eqb_spec (currentPlayerIndex g) 0); lia.
Qed.

Lemma cardEffect_draws rid g :
  pendingDraws g = 0 →
  skipNextPlayer (cardEffect (_getCardType rid) g) = true →
  pendingDraws (cardEffect (_getCardType rid) g) = forcedDraws rid.
Proof.
  intros Hp. unfold cardEffect, forcedDraws.
  generalize (_getCardType rid). intros ct.
  destruct (Z.eqb_spec ct CARD_TYPE_SKIP) as [->|_]; [done|].
  destruct (Z.eqb_spec ct CARD_TYPE_REVERSE) as [->|_].
  { simpl. by destruct (_ =? 2). }
  destruct (Z.eqb_spec ct CARD_TYPE_DRAW_TWO) as [->|_]; [done|].
  destruct (Z.eqb_spec ct CARD_TYPE_WILD_DRAW_FOUR) as [->|_]; done.
Qed.

Lemma forcedDraws_nonneg rid : 0 ≤ forcedDraws rid.
Proof. unfold forcedDraws. repeat case_match; lia. Qed.

(** The observable result of a successful [commitMove]. *)
Lemma commitMove_effects e gid i rid cc s s' :
  gameShape s gid →
  commitMove e gid i rid cc s = Ok ((), s') →
  let p := msg_sender e in
  ∃ c, handAt s gid p !! Z.to_nat i = Some c
    ∧ handAt s' gid p = delete (Z.to_nat i) (handAt s gid p)
    ∧ topCardId (gameAt s' gid) = rid
    ∧ topCard (gameAt s' gid) = c
    ∧ calledUnoAt s' gid p = false
    ∧ penaltyAt s' gid p = false
    ∧ windowOpenAt s' gid
      = (ePreview.length (handAt s gid p) =? 2) && negb (calledUnoAt s gid p)
    ∧ (windowOpenAt s' gid = true → windowPlayerAt s' gid = p).
Proof.
  intros Hshape H p.
  apply commitMove_Ok in H as (Hchk & sp & Hpl & Hfin).
  destruct Hchk as (_ & Hst & Hin & _ & Hc0 & Hcur & _ & _ & Hi & _).
  destruct Hshape as (Hnd & Hcpi & Hn2 & _).
  destruct Hpl as (c & Hc & Hm & Hg & Hh & Hcu & Hpe & Hwo & Hwp).
  fold p in Hc, Hm, Hh, Hcu, Hpe, Hwo, Hwp, Hin, Hcur, Hi, Hfin.
  set (g := gameAt s gid) in *.
  destruct (cardEffect_fields (_getCardType rid) (placed c rid cc g))
    as (_ & Hf_pl & _ & _ & _ & _ & _ & Hf_top & Hf_tid & _ & Hf_cpi & _).
  exists c. split; [done|].
  destruct (Z.eq_dec (ePreview.length (handAt s gid p) - 1) 0) as [E|E].
  - rewrite E, finishMove_win in Hfin. injection Hfin as <-.
    unfold won. simp_state.
    cbn [topCardId topCard set_winner set_endTime set_status].
    rewrite Hg, Hf_top, Hf_tid. by split_and!.
  - rewrite finishMove_advance in Hfin by done.
    apply advance_summary in Hfin
      as (cs & d & di & m & Hmod & Hg' & _ & _ & Hcalled & Hpen & _).
    set (gsp := gameAt sp gid) in *.
    assert (Hpl' : players gsp = players g) by (by rewrite Hg, Hf_pl).
    assert (Hcpi' : currentPlayerIndex gsp = currentPlayerIndex g)
      by (by rewrite Hg, Hf_cpi).
    assert (Hne : playerAtIndex gsp (nextIndex gsp) ≠ p).
    { specialize (Hn2 Hst).
      assert (Hb : 0 ≤ nextIndex gsp < Z.of_nat (length (players gsp))).
      { apply nextIndex_bounds; rewrite ?Hpl', ?Hcpi';
          [apply nonempty_length; lia|lia..]. }
      pose proof (nextIndex_ne gsp) as Hx. rewrite Hpl', Hcpi' in Hx.
      specialize (Hx Hn2 Hcpi).
      unfold playerAtIndex. intros E'.
      destruct (lookup_lt_is_Some_2 (players gsp) (Z.to_nat (nextIndex gsp)))
        as [a Ha]; [lia|].
      rewrite Ha in E'. simpl in E'. subst a. rewrite Hpl' in Ha.
      pose proof (NoDup_lookup _ _ _ _ Hnd Ha Hcur). lia. }
    rewrite (mod_hand _ _ _ _ _ Hmod) by (by right).
    rewrite (mod_open _ _ _ _ _ Hmod), (mod_subject _ _ _ _ _ Hmod) by (by right).
    rewrite Hg'.
    cbn [topCardId topCard set_currentPlayerIndex set_pendingDraws
         set_skipNextPlayer piles set_moves set_deckIndex set_deck].
    rewrite Hg, Hf_top, Hf_tid. split_and!; try done; auto.
Qed.

(** A call of [commitMove] that passes the checks can only fail for want
    of cards to hand to the next player. *)
Lemma commitMove_outcome e gid i rid cc s :
  validEnv e → gameInv s gid → moveChecks e gid i rid cc s →
  let g := gameAt s gid in
  ((∃ s', commitMove e gid i rid cc s = Ok ((), s'))
   ∨ commitMove e gid i rid cc s = Revert noReshuffle)
  ∧ (deckIndex g + forcedDraws rid ≤ ePreview.length (deck g) →
     ∃ s', commitMove e gid i rid cc s = Ok ((), s')).
Proof.
  intros He Hinv Hchk g. subst g.
  pose proof Hchk as (_ & Hst & Hin & _).
  pose proof Hinv as [[Hshape Hset] _].
  destruct Hset as [Hskip Hpd]; [by rewrite Hst|].
  destruct (commitMove_play e gid i rid cc s Hchk) as (sp & Hpl & Heq).
  { intros _. destruct Hshape as (_ & _ & _ & [Hd|Hd] & _); rewrite Hd; lia. }
  destruct (played_shape _ _ _ _ _ _ _ Hinv Hst Hin Hpl) as [Hsp _].
  rewrite Heq.
  destruct (Z.eq_dec (ePreview.length (handAt s gid (msg_sender e)) - 1) 0) as [E|E].
  { rewrite E, finishMove_win. split; [left|intros _]; eauto. }
  rewrite finishMove_advance by done.
  destruct (advance_outcome e gid sp He Hsp) as [H1 H2].
  split; [done|]. intros Hroom. apply H2. intros Hsk.
  destruct Hpl as (c & _ & _ & Hg & _). rewrite Hg in Hsk |- *.
  rewrite cardEffect_draws by done.
  destruct (cardEffect_fields (_getCardType rid) (placed c rid cc (gameAt s gid)))
    as (_ & _ & _ & _ & _ & Hf_dk & _ & _ & _ & Hf_di & _).
  rewrite Hf_dk, Hf_di. simpl.
  pose proof (forcedDraws_nonneg rid). lia.
Qed.

(** ** Challenges *)

Lemma penalizeUno_eq e gid target s :
  penalizeUnoError e gid target s = None →
  penalizeUno e gid target s
  = _forceDrawCards e gid target 2
      (setPenalty gid target true (setWindowOpen gid false s)).
Proof.
  unfold penalizeUnoError, penalizeUno. cbv zeta. rewrite bind_validateGame.
  destruct (negb ((0 <? gid) && (gid <=? _gameIdCounter s))); [done|].
  destruct (negb (bool_decide _)); [done|].
  rewrite bind_onlyPlayer.
  destruct (negb (bool_decide _)); [done|].
  mrun.
  destruct (bool_decide (msg_sender e = target)); simpl; [done|].
  destruct (inco_getFee e * 2 <=? msg_value e); simpl; [|done].
  destruct (windowOpenAt s gid); simpl; [|done].
  destruct (bool_decide (windowPlayerAt s gid = target)); simpl; [|done].
  destruct (penaltyAt s gid target); simpl; [done|]. intros _.
  reflexivity.
Qed.

Lemma penalizeUno_outcome e gid target s :
  validEnv e → gameShape s gid → penalizeUnoError e gid target s = None →
  let g := gameAt s gid in
  ((∃ s', penalizeUno e gid target s = Ok ((), s'))
   ∨ penalizeUno e gid target s = Revert noReshuffle)
  ∧ (deckIndex g + 2 ≤ ePreview.length (deck g) →
     ∃ s', penalizeUno e gid target s = Ok ((), s')).
Proof.
  intros He Hshape Herr g. rewrite penalizeUno_eq by done.
  destruct Hshape as (_ & _ & _ & _ & _ & Hpile).
  apply (forceDrawCards_outcome e gid target 2); [done|].
  by simp_state.
Qed.

Lemma penalizeUno_effects e gid target s s' :
  penalizeUno e gid target s = Ok ((), s') →
  windowOpenAt s' gid = false
  ∧ (∃ cs, length cs = 2%nat ∧ handAt s' gid target = handAt s gid target ++ cs)
  ∧ penaltyAt s' gid target = false
  ∧ calledUnoAt s' gid target = false.
Proof.
  intros H. apply penalizeUno_Ok in H as [_ H].
  apply forceDrawCards_summary in H as (cs & Hlen & Hmod & _ & Hh & Hc & Hp & _).
  split_and!; try done.
  - rewrite (mod_open _ _ _ _ _ Hmod) by (by right). by simp_state.
  - exists cs. split; [done|]. rewrite Hh. by simp_state.
Qed.

(** ** Declarations and draws *)

Lemma next_player_differs g p :
  NoDup (players g) → 2 ≤ Z.of_nat (length (players g)) →
  0 ≤ currentPlayerIndex g →
  players g !! Z.to_nat (currentPlayerIndex g) = Some p →
  playerAtIndex g (nextIndex g) ≠ p.
Proof.
  intros Hnd Hn Hc0 Hcur.
  pose proof (lookup_lt_Some _ _ _ Hcur) as Hlt.
  assert (Hb : 0 ≤ nextIndex g < Z.of_nat (length (players g))).
  { apply nextIndex_bounds; [apply nonempty_length; lia|lia..]. }
  pose proof (nextIndex_ne g Hn) as Hx.
  unfold playerAtIndex. intros E.
  destruct (lookup_lt_is_Some_2 (players g) (Z.to_nat (nextIndex g)))
    as [a Ha]; [lia|].
  rewrite Ha in E. simpl in E. subst a.
  pose proof (NoDup_lookup _ _ _ _ Hnd Ha Hcur). lia.
Qed.

(** A successful [drawCard] adds one card to the hand of the caller and
    leaves the caller's declaration as it was. *)
Lemma drawCard_called e gid endTurn s s' :
  gameShape s gid →
  drawCard e gid endTurn s = Ok ((), s') →
  calledUnoAt s' gid (msg_sender e) = calledUnoAt s gid (msg_sender e)
  ∧ ∃ c, handAt s' gid (msg_sender e) = handAt s gid (msg_sender e) ++ [c].
Proof.
  intros (Hnd & Hcpi & Hn2 & _) H.
  apply drawCard_Ok in H as ((_ & Hst & Hin & _ & Hc0 & Hcur) & H).
  destruct H as (sd & c & g1 & Hg1 & _ & _ & Hmod & Hgsd & Hh & _ & _ & Hcu & _ & Hend).
  destruct endTurn; [|subst s'; split; [done|by exists c]].
  apply advance_summary in Hend as (cs & d & di & m & Hmod' & _).
  assert (Hne : playerAtIndex (gameAt sd gid) (nextIndex (gameAt sd gid))
                ≠ msg_sender e).
  { assert (Hf : players (gameAt sd gid) = players (gameAt s gid)
               ∧ currentPlayerIndex (gameAt sd gid) = currentPlayerIndex (gameAt s gid)).
    { rewrite Hgsd. by destruct Hg1 as [[_ ->]|(_ & _ & ->)]. }
    destruct Hf as [Hf1 Hf2].
    apply next_player_differs; rewrite ?Hf1, ?Hf2; auto. }
  rewrite (mod_called _ _ _ _ _ Hmod'), (mod_hand _ _ _ _ _ Hmod') by (by right).
  split; [done|by exists c].
Qed.

(** ** The challenge window stays closed *)

Lemma commitMove_window e gid i rid cc s s' :
  commitMove e gid i rid cc s = Ok ((), s') →
  windowOpenAt s' gid
  = (ePreview.length (handAt s gid (msg_sender e)) =? 2)
    && negb (calledUnoAt s gid (msg_sender e)).
Proof.
  intros H. apply commitMove_Ok in H as (_ & sp & Hpl & Hfin).
  destruct Hpl as (c & _ & _ & _ & _ & _ & _ & Hwo & _).
  rewrite <- Hwo.
  destruct (Z.eq_dec (ePreview.length (handAt s gid (msg_sender e)) - 1) 0) as [E|E].
  - rewrite E, finishMove_win in Hfin. injection Hfin as <-.
    unfold won. by simp_state.
  - rewrite finishMove_advance in Hfin by done.
    apply advance_summary in Hfin as (cs & d & di & m & Hmod & _).
    apply (mod_open _ _ _ _ _ Hmod). by right.
Qed.

Lemma exec_window_closed e a s s' gid :
  exec e a s = Ok ((), s') →
  windowOpenAt s gid = false → twoToOne e a gid s = false →
  windowOpenAt s' gid = false.
Proof.
  intros H Hw Hno. destruct a as [c t|g j|g|g i r c|g|g t|g b]; simpl in H.
  - apply bind_Ok in H as (n & s1 & H & [= <-]).
    apply createGame_Ok in H.
    destruct H as (_ & _ & _ & _ & top & _ & _ & _ & _ & _ & _ & _ & _ & _ & _ & Ho & _).
    by rewrite Ho.
  - destruct (joinGame_frame _ _ _ _ _ H) as [_ Hf].
    destruct (Z.eq_dec gid g) as [->|Hne].
    + apply joinGame_Ok in H as [_ ->]. by simp_state.
    + destruct (Hf gid Hne) as (_ & _ & -> & _). done.
  - destruct (startGame_frame _ _ _ _ H) as [_ Hf].
    destruct (Z.eq_dec gid g) as [->|Hne].
    + apply startGame_Ok in H as [_ ->]. by simp_state.
    + destruct (Hf gid Hne) as (_ & _ & -> & _). done.
  - destruct (Z.eq_dec gid g) as [->|Hne].
    + rewrite (commitMove_window _ _ _ _ _ _ _ H).
      simpl in Hno. rewrite bool_decide_eq_true_2 in Hno by done.
      simpl in Hno. by rewrite Hno.
    + destruct (commitMove_frame _ _ _ _ _ _ _ H) as [_ Hf].
      destruct (Hf gid Hne) as (_ & _ & -> & _). done.
  - destruct (callUno_frame _ _ _ _ H) as [_ Hf].
    destruct (Hf gid) as (_ & _ & -> & _). done.
  - destruct (Z.eq_dec gid g) as [->|Hne].
    + by apply penalizeUno_effects in H as [? _].
    + destruct (penalizeUno_frame _ _ _ _ _ H) as [_ Hf].
      destruct (Hf gid Hne) as (_ & _ & -> & _). done.
  - destruct (Z.eq_dec gid g) as [->|Hne].
    + apply drawCard_Ok in H as [_ H].
      destruct H as (sd & c & g1 & _ & _ & _ & _ & _ & _ & Hwo & _ & _ & _ & Hend).
      destruct b; [|by subst].
      apply advance_summary in Hend as (cs & d & di & m & Hmod & _).
      rewrite (mod_open _ _ _ _ _ Hmod) by (by right). done.
    + destruct (drawCard_frame _ _ _ _ _ H) as [_ Hf].
      destruct (Hf gid Hne) as (_ & _ & -> & _). done.
Qed.

Lemma noTransition_closed gid s s' :
  noTransition gid s s' → windowOpenAt s gid = false →
  windowOpenAt s' gid = false.
Proof.
  induction 1 as [|s e a s1 s2 _ IH _ Hno Hcall]; [done|].
  intros Hw. apply call_Success in Hcall.
  eapply exec_window_closed; [done|by apply IH|done].
Qed.

Lemma noTransition_reachable gid s s' :
  noTransition gid s s' → reachable s → reachable s'.
Proof.
  induction 1 as [|s e a s1 s2 _ IH He _ Hcall]; [done|].
  intros Hr. eapply reachable_step; [by apply IH|done|done].
Qed.

(** ** Traces *)

Lemma run_app tr1 tr2 s : run (tr1 ++ tr2) s = run tr2 (run tr1 s).
Proof.
  revert s. induction tr1 as [|[e a] tr1 IH]; intros s; [done|]. simpl. apply IH.
Qed.

Lemma call_reachable e a s :
  validEnv e → reachable s → reachable (fst (call e a s)).
Proof.
  intros He Hr. destruct (call e a s) as [s' [|msg]] eqn:E; simpl.
  - by eapply reachable_step.
  - by apply call_Reverted in E as [_ ->].
Qed.

Lemma run_reachable tr s :
  Forall (λ ea, validEnv ea.1) tr → reachable s → reachable (run tr s).
Proof.
  intros Htr. revert s. induction Htr as [|[e a] tr He _ IH]; intros s Hr; [done|].
  simpl. apply IH. by apply call_reachable.
Qed.

(** ** The example table *)

Lemma asPlayer_valid p : validEnv (asPlayer p).
Proof. intros l. apply reverse_Permutation. Qed.

Lemma unpaid_valid p : validEnv (unpaid p).
Proof. intros l. apply reverse_Permutation. Qed.

Ltac solve_trace :=
  repeat first
    [ apply Forall_nil_2
    | apply Forall_cons_2; [first [apply asPlayer_valid | apply unpaid_valid]|]
    | apply Forall_app_2
    | apply Forall_replicate; apply asPlayer_valid ].

Lemma tableStarted_reachable : reachable tableStarted.
Proof. apply run_reachable; [solve_trace|apply reachable_init]. Qed.

Lemma tableTwoLeft_reachable : reachable tableTwoLeft.
Proof. apply run_reachable; [solve_trace|apply tableStarted_reachable]. Qed.

Lemma tableAliceToMove_reachable : reachable tableAliceToMove.
Proof. apply run_reachable; [solve_trace|apply tableTwoLeft_reachable]. Qed.

Lemma tableOneLeft_reachable : reachable tableOneLeft.
Proof. apply run_reachable; [solve_trace|apply tableAliceToMove_reachable]. Qed.

Lemma tableDeclared_reachable : reachable tableDeclared.
Proof. apply run_reachable; [solve_trace|apply tableAliceToMove_reachable]. Qed.

Lemma tableNoCards_reachable : reachable tableNoCards.
Proof. apply run_reachable; [solve_trace|apply tableTwoLeft_reachable]. Qed.

Lemma call_outcome e a s o :
  (call e a s).2 = o → call e a s = ((call e a s).1, o).
Proof. intros <-. by destruct (call e a s). Qed.

Lemma call_reverted_eq e a s msg :
  (call e a s).2 = Reverted msg → call e a s = (s, Reverted msg).
Proof.
  intros H. apply call_outcome in H. rewrite H. f_equal.
  by apply call_Reverted in H as [_ ->].
Qed.

(** ** The challenge window *)

Lemma exec_counter e a s s' :
  exec e a s = Ok ((), s') → _gameIdCounter s ≤ _gameIdCounter s'.
Proof.
  intros H. destruct a as [c t|g j|g|g i r c|g|g t|g b]; simpl in H.
  - apply bind_Ok in H as (n & s1 & H & [= <-]).
    apply createGame_Ok in H as (-> & _ & _ & _ & top & _ & -> & _). lia.
  - apply joinGame_frame in H as [-> _]. lia.
  - apply startGame_frame in H as [-> _]. lia.
  - apply commitMove_frame in H as [-> _]. lia.
  - apply callUno_frame in H as [-> _]. lia.
  - apply penalizeUno_frame in H as [-> _]. lia.
  - apply drawCard_frame in H as [-> _]. lia.
Qed.

Lemma noTransition_counter gid s s' :
  noTransition gid s s' → _gameIdCounter s ≤ _gameIdCounter s'.
Proof.
  induction 1 as [|s e a s1 s2 _ IH _ _ Hcall]; [lia|].
  apply call_Success, exec_counter in Hcall. lia.
Qed.

Lemma penalizeUno_refusals e gid t s :
  0 < gid ≤ _gameIdCounter s → status (gameAt s gid) = Started →
  msg_sender e ∈ players (gameAt s gid) →
  (msg_sender e = t →
   call e (PenalizeUno gid t) s = (s, Reverted "Cannot penalize yourself"))
  ∧ (msg_sender e ≠ t → inco_getFee e * 2 ≤ msg_value e →
     (windowOpenAt s gid = false →
      call e (PenalizeUno gid t) s = (s, Reverted "Challenge window not open"))
     ∧ (windowOpenAt s gid = true → windowPlayerAt s gid ≠ t →
        call e (PenalizeUno gid t) s
        = (s, Reverted "Target not in challenge window"))
     ∧ (windowOpenAt s gid = true → windowPlayerAt s gid = t →
        penaltyAt s gid t = true →
        call e (PenalizeUno gid t) s = (s, Reverted "Penalty already applied"))).
Proof.
  intros Hgid Hst Hin.
  assert (Hpre : ∀ msg,
    (if bool_decide (msg_sender e = t) then Some "Cannot penalize yourself"
     else if negb (inco_getFee e * 2 <=? msg_value e)
          then Some "Fee required for penalty"
     else if negb (windowOpenAt s gid) then Some "Challenge window not open"
     else if negb (bool_decide (windowPlayerAt s gid = t))
          then Some "Target not in challenge window"
     else if penaltyAt s gid t then Some "Penalty already applied"
     else None) = Some msg →
    call e (PenalizeUno gid t) s = (s, Reverted msg)).
  { intros msg H. apply call_Reverted. split; [|done].
    apply penalizeUno_rejects. unfold penalizeUnoError.
    rewrite (proj2 (Z.ltb_lt 0 gid)), (proj2 (Z.leb_le gid _)) by lia.
    rewrite !bool_decide_eq_true_2 by done. exact H. }
  split.
  - intros Heq. apply Hpre. by rewrite bool_decide_eq_true_2.
  - intros Hne Hfee.
    assert (Hfee' : (inco_getFee e * 2 <=? msg_value e) = true) by lia.
    split_and!.
    + intros Hw. apply Hpre.
      by rewrite bool_decide_eq_false_2, Hfee', Hw.
    + intros Hw Hp. apply Hpre.
      by rewrite bool_decide_eq_false_2, Hfee', Hw, bool_decide_eq_false_2.
    + intros Hw Hp Hpen. apply Hpre.
      by rewrite bool_decide_eq_false_2, Hfee', Hw, bool_decide_eq_true_2, Hpen.
Qed.

(** ** The card codec *)

Lemma codec_bands (id : Z) :
  0 ≤ id < 108 →
  (id < 76 → getCardInfo id = (CARD_TYPE_NUMBER, id / 19, specRank id)
             ∧ 0 ≤ id / 19 ≤ 3 ∧ 0 ≤ specRank id ≤ 9)
  ∧ (76 ≤ id < 84 →
     _getCardType id = CARD_TYPE_SKIP ∧ _getCardColor id = (id - 76) / 2)
  ∧ (84 ≤ id < 92 →
     _getCardType id = CARD_TYPE_REVERSE ∧ _getCardColor id = (id - 84) / 2)
  ∧ (92 ≤ id < 100 →
     _getCardType id = CARD_TYPE_DRAW_TWO ∧ _getCardColor id = (id - 92) / 2)
  ∧ (100 ≤ id < 104 →
     _getCardType id = CARD_TYPE_WILD ∧ _getCardColor id = 4)
  ∧ (104 ≤ id < 108 →
     _getCardType id = CARD_TYPE_WILD_DRAW_FOUR ∧ _getCardColor id = 4).
Proof.
  intros Hid.
  unfold getCardInfo, specRank, _getCardType, _getCardColor, _getCardValue.
  unfold NUMBER_CARDS_END, SKIP_END, SKIP_START, REVERSE_END, REVERSE_START,
    DRAW_TWO_END, DRAW_TWO_START, WILD_END, WILD_START in *.
  repeat split; intros;
    repeat (case_match; try lia); try reflexivity; try lia.
  all: try (rewrite ?Z.eqb_eq, ?Z.leb_le, ?Z.leb_gt, ?Z.ltb_lt, ?Z.ltb_ge in *;
            repeat f_equal; lia).
  all: Z.div_mod_to_equations; lia.
Qed.

Lemma count_ranks c r :
  0 ≤ c < 4 → 0 ≤ r ≤ 9 →
  length (numberCardsOf c r) = if r =? 0 then 1%nat else 2%nat.
Proof.
  intros Hc Hr.
  assert (c = 0 ∨ c = 1 ∨ c = 2 ∨ c = 3) as Hc' by lia.
  assert (r = 0 ∨ r = 1 ∨ r = 2 ∨ r = 3 ∨ r = 4 ∨ r = 5 ∨ r = 6 ∨ r = 7
          ∨ r = 8 ∨ r = 9) as Hr' by lia.
  destruct_or!; subst; vm_compute; reflexivity.
Qed.

(** ** Positions of a hand after a removal *)

Lemma lookup_delete_before (l : list Z) i j :
  (j < i)%nat → delete i l !! j = l !! j.
Proof. intros. by rewrite list_lookup_delete_lt. Qed.

Lemma lookup_delete_after (l : list Z) i j :
  (i ≤ j)%nat → delete i l !! j = l !! S j.
Proof. intros. by rewrite list_lookup_delete_ge. Qed.

(** ** Indices outside the hand *)

Lemma commitMove_index_refused e gid i rid cc s :
  reachable s →
  ePreview.length (handAt s gid (msg_sender e)) ≤ i →
  0 < gid ≤ _gameIdCounter s → status (gameAt s gid) = Started →
  playerAtIndex (gameAt s gid) (currentPlayerIndex (gameAt s gid)) = msg_sender e →
  inco_getFee e * 2 ≤ msg_value e → cc ≤ 3 → rid < DECK_SIZE →
  commitMoveError e gid i rid cc s = Some "Card index out of bounds".
Proof.
  intros Hr Hi Hgid Hst Hturn Hfee Hcc Hrid.
  destruct (reachable_Inv s Hr) as (_ & Hinv & _).
  destruct (Hinv gid Hgid) as [[(_ & Hcpi & _) _] _].
  set (g := gameAt s gid) in *.
  destruct (lookup_lt_is_Some_2 (players g) (Z.to_nat (currentPlayerIndex g)))
    as [a Ha]; [lia|].
  assert (a = msg_sender e) as ->.
  { rewrite <- Hturn. unfold playerAtIndex. by rewrite Ha. }
  unfold commitMoveError. fold g.
  rewrite (proj2 (Z.ltb_lt 0 gid)), (proj2 (Z.leb_le gid _)) by lia.
  rewrite (bool_decide_eq_true_2 _ Hst).
  rewrite (bool_decide_eq_true_2 (msg_sender e ∈ players g))
    by (by eapply list_elem_of_lookup_2).
  rewrite (proj2 (Z.leb_le _ _) Hfee).
  rewrite (bool_decide_eq_true_2 (0 ≤ currentPlayerIndex g ∧ _))
    by (split; [lia|by eexists]).
  rewrite (bool_decide_eq_true_2 _ Hturn).
  rewrite (proj2 (Z.leb_le _ _) Hcc), (proj2 (Z.ltb_lt _ _) Hrid).
  by rewrite (proj2 (Z.ltb_ge _ _) Hi).
Qed.

(** * The claims of the specification *)

(** Claim C1 (the ledger is a partition of the 108 ids): the code loses a
    card.  Game 1 is created, joined and started, and alice plays one card.
    In the state reached, the id 100, the card turned over at creation, is
    in no hand, not in the draw pile, not in the moves list and not the top
    card; hands, draw pile and moves list hold 107 cards between them.
    [createGame] never appends the card it turns over to the moves list,
    so the first [commitMove], which overwrites [topCard], removes it from
    the ledger for good.  What every reachable state does satisfy is
    [ledgerInv]. *)
Theorem first_top_card_leaves_the_ledger :
  let g := gameAt tableFirstPlay 1 in
  reachable tableFirstPlay
  ∧ topCard (gameAt tableStarted 1) = 100
  ∧ 100 ∈ canonicalIds
  ∧ (100 ∉ allHands tableFirstPlay 1 ++ drawPile g ++ moves g ++ [topCard g])
  ∧ length (allHands tableFirstPlay 1 ++ drawPile g ++ moves g) = 107%nat.
Proof.
  split_and!.
  - apply run_reachable; [solve_trace|apply tableStarted_reachable].
  - by vm_compute.
  - apply elem_of_seqZ. by vm_compute.
  - apply (bool_decide_eq_false_1 _). by vm_compute.
  - by vm_compute.
Qed.

(** Claim C2, amended.  In every reachable state, when the current player
    of a Started game calls [commitMove] with twice the fee attached, an
    index within the hand, an announced id below 108 that is playable on
    the public top card and colour, and a colour of at most 3, the call
    succeeds or reverts with the message of [_reshuffleFromDiscards];  it
    succeeds whenever the deck still holds the cards the next player is
    made to draw;  and whenever it succeeds the card at the index has left
    the hand and [topCardId] is the announced id, whatever id the slot of
    the hand held. *)
Theorem commitMove_trusts_revealed_id e gid i rid cc s :
  let g := gameAt s gid in
  let p := msg_sender e in
  let res := call e (CommitMove gid i rid cc) s in
  reachable s → validEnv e →
  0 < gid ≤ _gameIdCounter s →
  status g = Started →
  playerAtIndex g (currentPlayerIndex g) = p →
  inco_getFee e * 2 ≤ msg_value e →
  0 ≤ i < ePreview.length (handAt s gid p) →
  0 ≤ rid < DECK_SIZE →
  isCardPlayable rid (topCardId g) (currentColor g) = true →
  0 ≤ cc ≤ 3 →
  (res.2 = Success ∨ res = (s, Reverted noReshuffle))
  ∧ (deckIndex g + forcedDraws rid ≤ ePreview.length (deck g) →
     res.2 = Success)
  ∧ (res.2 = Success →
     handAt res.1 gid p = delete (Z.to_nat i) (handAt s gid p)
     ∧ topCardId (gameAt res.1 gid) = rid).
Proof.
  intros g p res Hr He Hgid Hst Hturn Hfee Hi Hrid Hplay Hcc.
  destruct (reachable_Inv s Hr) as (_ & Hinv & _).
  specialize (Hinv gid Hgid).
  pose proof Hinv as [[Hshape _] _].
  pose proof Hshape as (_ & Hcpi & _).
  assert (Hcur : players g !! Z.to_nat (currentPlayerIndex g) = Some p).
  { destruct (lookup_lt_is_Some_2 (players g) (Z.to_nat (currentPlayerIndex g)))
      as [a Ha]; [fold g in Hcpi; lia|].
    rewrite Ha. f_equal. rewrite <- Hturn. unfold playerAtIndex. by rewrite Ha. }
  assert (Hchk : moveChecks e gid i rid cc s).
  { unfold moveChecks. fold g p. split_and!; try done; try lia.
    - by eapply list_elem_of_lookup_2.
    - apply Hcpi. }
  destruct (commitMove_outcome e gid i rid cc s He Hinv Hchk) as [Hout Hroom].
  fold g in Hroom.
  assert (Hsucc : ∀ s', commitMove e gid i rid cc s = Ok ((), s') →
            res = (s', Success)).
  { intros s' Hs'. by apply call_Success. }
  split_and!.
  - destruct Hout as [[s' Hs']|Hrev].
    + left. by rewrite (Hsucc s' Hs').
    + right. by apply call_Reverted.
  - intros Hd. destruct (Hroom Hd) as [s' Hs']. by rewrite (Hsucc s' Hs').
  - intros Hok. apply call_outcome in Hok. fold res in Hok.
    apply call_Success in Hok.
    destruct (commitMove_effects _ _ _ _ _ _ _ Hshape Hok)
      as (c & _ & Hh & Htid & _).
    done.
Qed.

(** Alice holds the wild draw four 107 in her first slot and announces the
    wild draw four 104. *)
Lemma commitMove_trusts_revealed_id_witness :
  handAt tableStarted 1 alice !! 0%nat = Some 107
  ∧ let res := call (asPlayer alice) (CommitMove 1 0 104 0) tableStarted in
    res.2 = Success
    ∧ handAt res.1 1 alice = [106; 105; 104; 103; 102; 101]
    ∧ topCardId (gameAt res.1 1) = 104.
Proof.
  split; [by vm_compute|].
  destruct (commitMove_trusts_revealed_id (asPlayer alice) 1 0 104 0 tableStarted)
    as (_ & Hroom & Heff).
  - apply tableStarted_reachable.
  - apply asPlayer_valid.
  - by vm_compute.
  - by vm_compute.
  - by vm_compute.
  - by vm_compute.
  - by vm_compute.
  - by vm_compute.
  - by vm_compute.
  - by vm_compute.
  - cbv zeta. assert (Hs := Hroom ltac:(by vm_compute)).
    destruct (Heff Hs) as [Hh Ht]. split_and!; [done| |done].
    etrans; [exact Hh|by vm_compute].
Defined.

(** A call without the fee is turned away, and so is a truthful wild draw
    four played once alice has drawn the whole deck:  bob cannot be given
    his four cards. *)
Lemma commitMove_needs_fee_and_cards :
  let g0 := gameAt tableStarted 1 in
  let g := gameAt tableDeckUsedUp 1 in
  status g0 = Started
  ∧ playerAtIndex g0 (currentPlayerIndex g0) = alice
  ∧ handAt tableStarted 1 alice !! 0%nat = Some 107
  ∧ isCardPlayable 107 (topCardId g0) (currentColor g0) = true
  ∧ call (unpaid alice) (CommitMove 1 0 107 0) tableStarted
    = (tableStarted, Reverted "Fee required")
  ∧ reachable tableDeckUsedUp
  ∧ status g = Started
  ∧ playerAtIndex g (currentPlayerIndex g) = alice
  ∧ handAt tableDeckUsedUp 1 alice !! 0%nat = Some 107
  ∧ isCardPlayable 107 (topCardId g) (currentColor g) = true
  ∧ call (asPlayer alice) (CommitMove 1 0 107 0) tableDeckUsedUp
    = (tableDeckUsedUp, Reverted "No cards left to reshuffle").
Proof.
  split_and!; try (apply call_reverted_eq); try by vm_compute.
  apply run_reachable; [solve_trace|apply tableStarted_reachable].
Qed.

(** Claim C3 (a play or a draw resets the declared-UNO flag): the code
    does not reset it on a draw.  Alice holds two cards in a Started game
    and has declared UNO;  her successful [drawCard] leaves her with three
    cards and [hasCalledUno] still set.  [drawCard] never writes the flag,
    whereas [_forceDrawCards] and [commitMove] clear it. *)
Theorem drawCard_keeps_declaration :
  let res := call (asPlayer alice) (DrawCard 1 false) tableDeclared in
  reachable tableDeclared
  ∧ status (gameAt tableDeclared 1) = Started
  ∧ alice ∈ players (gameAt tableDeclared 1)
  ∧ handAt tableDeclared 1 alice = [102; 101]
  ∧ calledUnoAt tableDeclared 1 alice = true
  ∧ res.2 = Success
  ∧ handAt res.1 1 alice = [102; 101; 75]
  ∧ calledUnoAt res.1 1 alice = true.
Proof.
  split_and!; try by vm_compute.
  - apply tableDeclared_reachable.
  - apply (bool_decide_eq_true_1 _). by vm_compute.
Qed.

(** Claim C4, amended.  In a reachable state let participant A, holding
    two cards and not having declared UNO, play successfully.  Then the
    window is open with subject A and A holds one card.  A [penalizeUno] on
    A by another participant B who attaches twice the fee succeeds or
    reverts with the message of [_reshuffleFromDiscards], and it succeeds
    whenever two cards are left in the deck.  When it succeeds the window
    is closed, A holds three cards and [unoPenaltyApplied] is false for A,
    and after any further successful calls none of which is a 2-to-1
    transition in the game, a [penalizeUno] on A by another participant who
    attaches the fee, the game being Started, is refused with
    [Challenge window not open].  Moreover, for a participant of a Started
    game, [penalizeUno] is refused and the storage left as it was:  with
    [Cannot penalize yourself] when challenger and target coincide, and,
    for a different target and the fee attached, with
    [Challenge window not open] when the window is closed, with
    [Target not in challenge window] when the subject of the open window is
    someone else, and with [Penalty already applied] when the penalty flag
    of the subject is set. *)
Theorem uno_window_lifecycle eA eB gid i rid cc s s1 :
  let A := msg_sender eA in
  let B := msg_sender eB in
  let res := call eB (PenalizeUno gid A) s1 in
  reachable s → validEnv eA → validEnv eB →
  ePreview.length (handAt s gid A) = 2 →
  calledUnoAt s gid A = false →
  call eA (CommitMove gid i rid cc) s = (s1, Success) →
  B ≠ A → B ∈ players (gameAt s1 gid) →
  inco_getFee eB * 2 ≤ msg_value eB →
  (windowOpenAt s1 gid = true ∧ windowPlayerAt s1 gid = A
   ∧ ePreview.length (handAt s1 gid A) = 1)
  ∧ (res.2 = Success ∨ res = (s1, Reverted noReshuffle))
  ∧ (deckIndex (gameAt s1 gid) + 2 ≤ ePreview.length (deck (gameAt s1 gid)) →
     res.2 = Success)
  ∧ (res.2 = Success →
     windowOpenAt res.1 gid = false
     ∧ ePreview.length (handAt res.1 gid A) = 3
     ∧ penaltyAt res.1 gid A = false
     ∧ ∀ eC s3,
         noTransition gid res.1 s3 →
         status (gameAt s3 gid) = Started →
         msg_sender eC ∈ players (gameAt s3 gid) →
         msg_sender eC ≠ A →
         inco_getFee eC * 2 ≤ msg_value eC →
         call eC (PenalizeUno gid A) s3
         = (s3, Reverted "Challenge window not open"))
  ∧ (∀ e t s0,
       0 < gid ≤ _gameIdCounter s0 → status (gameAt s0 gid) = Started →
       msg_sender e ∈ players (gameAt s0 gid) →
       (msg_sender e = t →
        call e (PenalizeUno gid t) s0 = (s0, Reverted "Cannot penalize yourself"))
       ∧ (msg_sender e ≠ t → inco_getFee e * 2 ≤ msg_value e →
          (windowOpenAt s0 gid = false →
           call e (PenalizeUno gid t) s0
           = (s0, Reverted "Challenge window not open"))
          ∧ (windowOpenAt s0 gid = true → windowPlayerAt s0 gid ≠ t →
             call e (PenalizeUno gid t) s0
             = (s0, Reverted "Target not in challenge window"))
          ∧ (windowOpenAt s0 gid = true → windowPlayerAt s0 gid = t →
             penaltyAt s0 gid t = true →
             call e (PenalizeUno gid t) s0
             = (s0, Reverted "Penalty already applied")))).
Proof.
  intros A B res Hr HeA HeB Hlen Hcalled Hplay Hne Hin Hfee.
  pose proof (reachable_step _ _ _ _ Hr HeA Hplay) as Hr1.
  destruct (reachable_Inv s Hr) as (_ & Hinv & _).
  destruct (reachable_Inv s1 Hr1) as (_ & Hinv1 & _).
  apply call_Success in Hplay.
  pose proof (commitMove_Ok _ _ _ _ _ _ _ Hplay) as [Hchk _].
  destruct Hchk as (Hgid & Hst & _).
  destruct (Hinv gid Hgid) as [[Hshape _] _].
  destruct (commitMove_effects _ _ _ _ _ _ _ Hshape Hplay)
    as (c & Hc & Hh & _ & _ & _ & Hpen & Hwo & Hwp).
  fold A in Hc, Hh, Hpen, Hwo, Hwp.
  rewrite Hlen, Hcalled in Hwo. simpl in Hwo. specialize (Hwp Hwo).
  assert (Hlen1 : ePreview.length (handAt s1 gid A) = 1).
  { rewrite Hh. unfold ePreview.length in *.
    pose proof (lookup_lt_Some _ _ _ Hc).
    rewrite length_delete by eauto. lia. }
  assert (Hgid1 : 0 < gid ≤ _gameIdCounter s1).
  { apply exec_counter in Hplay. lia. }
  assert (Hst1 : status (gameAt s1 gid) = Started).
  { apply commitMove_Ok in Hplay as (_ & sp & Hpl & Hfin).
    rewrite finishMove_advance in Hfin by (fold A; lia).
    apply advance_summary in Hfin as (? & ? & ? & ? & _ & Hg' & _).
    destruct Hpl as (c' & _ & _ & Hg & _).
    destruct (cardEffect_fields (_getCardType rid)
                (placed c' rid cc (gameAt s gid))) as (_ & _ & Hf & _).
    rewrite Hg'.
    cbn [status set_currentPlayerIndex set_pendingDraws set_skipNextPlayer
         piles set_moves set_deckIndex set_deck].
    rewrite Hg, Hf. exact Hst. }
  destruct (Hinv1 gid Hgid1) as [[Hshape1 _] _].
  assert (Herr : penalizeUnoError eB gid A s1 = None).
  { unfold penalizeUnoError. fold B.
    rewrite (proj2 (Z.ltb_lt 0 gid)), (proj2 (Z.leb_le gid _)) by lia.
    rewrite !bool_decide_eq_true_2 by done.
    rewrite bool_decide_eq_false_2 by done.
    rewrite (proj2 (Z.leb_le _ _) Hfee), Hwo. simpl.
    by rewrite (bool_decide_eq_true_2 _ Hwp), Hpen. }
  destruct (penalizeUno_outcome eB gid A s1 HeB Hshape1 Herr) as [Hout Hroom].
  assert (Hsucc : ∀ s', penalizeUno eB gid A s1 = Ok ((), s') →
            res = (s', Success)).
  { intros s' Hs'. by apply call_Success. }
  split_and!; try done.
  - destruct Hout as [[s' Hs']|Hrev].
    + left. by rewrite (Hsucc s' Hs').
    + right. by apply call_Reverted.
  - intros Hd. destruct (Hroom Hd) as [s' Hs']. by rewrite (Hsucc s' Hs').
  - intros Hok. apply call_outcome in Hok. fold res in Hok.
    apply call_Success in Hok. simpl in Hok.
    destruct (penalizeUno_effects _ _ _ _ _ Hok)
      as (Hclosed & (cs & Hcs & Hh2) & Hpen2 & _).
    split_and!; try done.
    + rewrite Hh2. unfold ePreview.length in *. rewrite length_app. lia.
    + intros eC s3 Hquiet Hst3 Hin3 Hne3 Hfee3.
      pose proof (noTransition_counter _ _ _ Hquiet) as Hcnt.
      pose proof (exec_counter eB (PenalizeUno gid A) _ _ Hok) as Hcnt2.
      apply penalizeUno_refusals; try done; [lia|].
      by apply (noTransition_closed gid res.1).
  - intros e t s0. apply penalizeUno_refusals.
Qed.

(** Alice plays from two cards without declaring, bob challenges her while
    the deck still holds cards, and a second challenge is turned away. *)
Lemma uno_window_lifecycle_witness :
  let res := call (asPlayer bob) (PenalizeUno 1 alice) tableOneLeft in
  handAt tableAliceToMove 1 alice = [102; 101]
  ∧ windowOpenAt tableOneLeft 1 = true
  ∧ windowPlayerAt tableOneLeft 1 = alice
  ∧ res.2 = Success
  ∧ ePreview.length (handAt res.1 1 alice) = 3
  ∧ call (asPlayer bob) (PenalizeUno 1 alice) res.1
    = (res.1, Reverted "Challenge window not open").
Proof.
  destruct (uno_window_lifecycle (asPlayer alice) (asPlayer bob) 1 0 102 0
              tableAliceToMove tableOneLeft)
    as ((Hopen & Hsubj & _) & _ & Hroom & Heff & _).
  - apply tableAliceToMove_reachable.
  - apply asPlayer_valid.
  - apply asPlayer_valid.
  - by vm_compute.
  - by vm_compute.
  - by vm_compute.
  - by vm_compute.
  - apply (bool_decide_eq_true_1 _). by vm_compute.
  - by vm_compute.
  - assert (Hs := Hroom ltac:(by vm_compute)).
    destruct (Heff Hs) as (_ & Hthree & _ & Hagain).
    split_and!; [by vm_compute|exact Hopen|exact Hsubj|exact Hs|exact Hthree|].
    apply (Hagain (asPlayer bob)).
    + apply noTransition_refl.
    + by vm_compute.
    + apply (bool_decide_eq_true_1 _). by vm_compute.
    + by vm_compute.
    + by vm_compute.
Defined.

(** With the deck used up and two cards in the moves list the challenge
    itself is turned away, and a challenger who attaches nothing is told
    about the fee, not about the window. *)
Lemma penalizeUno_needs_cards_and_fee :
  reachable tableNoCards
  ∧ handAt tableNoCards 1 alice = [102; 101]
  ∧ calledUnoAt tableNoCards 1 alice = false
  ∧ call (asPlayer alice) (CommitMove 1 0 102 0) tableNoCards
    = (tableWindowOpen, Success)
  ∧ windowOpenAt tableWindowOpen 1 = true
  ∧ windowPlayerAt tableWindowOpen 1 = alice
  ∧ handAt tableWindowOpen 1 alice = [101]
  ∧ bob ∈ players (gameAt tableWindowOpen 1)
  ∧ call (asPlayer bob) (PenalizeUno 1 alice) tableWindowOpen
    = (tableWindowOpen, Reverted "No cards left to reshuffle")
  ∧ call (asPlayer bob) (PenalizeUno 1 alice) tableOneLeft
    = (tablePenalized, Success)
  ∧ windowOpenAt tablePenalized 1 = false
  ∧ call (unpaid bob) (PenalizeUno 1 alice) tablePenalized
    = (tablePenalized, Reverted "Fee required for penalty").
Proof.
  split_and!; try by vm_compute.
  - apply tableNoCards_reachable.
  - apply (bool_decide_eq_true_1 _). by vm_compute.
Qed.

(** Every message of [firstViolation] names its requirement, but for the
    empty revert data of a [callUno] that carries value. *)
Lemma firstViolation_named e a s msg :
  firstViolation e a s = Some msg →
  (msg = nonPayable ↔ ∃ gid, a = CallUno gid ∧ msg_value e ≠ 0).
Proof.
  assert (Hno : ∀ m : string, Some m = Some msg →
            m ≠ nonPayable →
            (∀ gid, a = CallUno gid → msg_value e = 0) →
            msg = nonPayable ↔ ∃ gid, a = CallUno gid ∧ msg_value e ≠ 0).
  { intros m [= <-] Hm Hfree. split; [done|].
    intros (gid & Ha & Hv). by destruct Hv, (Hfree gid). }
  destruct a as [c t|g j|g|g i r c|g|g t|g b]; simpl;
    unfold createGameError, joinGameError, startGameError, commitMoveError,
      callUnoError, penalizeUnoError, drawCardError, noReshuffle; cbv zeta.
  5:{ destruct (Z.eqb_spec (msg_value e) 0) as [Hv|Hv]; cbn [negb].
      - repeat case_match; try done;
          intros Hfv; (apply (Hno _ Hfv); [by unfold nonPayable|by intros ? _]).
      - intros [= <-]. split; [eauto|done]. }
  all: repeat case_match; try done;
    intros Hfv; (apply (Hno _ Hfv); [by unfold nonPayable|by intros ? [=]]).
Qed.

(** Claim C5, amended: atomicity of rejected calls.  For each public
    action, [firstViolation] names the first requirement the call violates,
    in the order in which the function tests them;  a call that violates
    one is refused with exactly that message and the storage after the call
    is the storage before it.  More generally every refused call, whatever
    the reason, leaves the whole storage unchanged.  The message names the
    requirement in every case but one:  [callUno] is not payable, and a
    [callUno] that carries value is refused with empty revert data before
    any of its requirements is tested. *)
Theorem rejected_calls_are_atomic e a s :
  (∀ msg, firstViolation e a s = Some msg → call e a s = (s, Reverted msg))
  ∧ (∀ s' msg, call e a s = (s', Reverted msg) → s' = s)
  ∧ (∀ msg, firstViolation e a s = Some msg →
            (msg = nonPayable ↔ ∃ gid, a = CallUno gid ∧ msg_value e ≠ 0)).
Proof.
  split_and!.
  - intros msg H. apply call_Reverted. split; [by apply exec_rejects|done].
  - intros s' msg H. by apply call_Reverted in H as [_ ->].
  - intros msg. apply firstViolation_named.
Qed.

(** Bob tries to play while it is alice's turn. *)
Lemma rejected_calls_are_atomic_witness :
  firstViolation (asPlayer bob) (CommitMove 1 0 99 0) tableStarted
  = Some "Not your turn"
  ∧ call (asPlayer bob) (CommitMove 1 0 99 0) tableStarted
    = (tableStarted, Reverted "Not your turn").
Proof.
  split; [by vm_compute|].
  apply (rejected_calls_are_atomic (asPlayer bob) (CommitMove 1 0 99 0)
           tableStarted).
  by vm_compute.
Defined.

(** A [callUno] on a game of the wrong status, and one by a caller who is
    not seated, are refused with the error of that requirement when they
    carry no value, and with no error at all when they carry value. *)
Lemma callUno_with_value_names_no_error :
  reachable tableLobby
  ∧ status (gameAt tableLobby 1) = NotStarted
  ∧ call (unpaid bob) (CallUno 1) tableLobby
    = (tableLobby, Reverted "Game is not in the required status")
  ∧ call (asPlayer bob) (CallUno 1) tableLobby
    = (tableLobby, Reverted nonPayable)
  ∧ reachable tableStarted
  ∧ status (gameAt tableStarted 1) = Started
  ∧ (12 ∉ players (gameAt tableStarted 1))
  ∧ call (unpaid 12) (CallUno 1) tableStarted
    = (tableStarted, Reverted "Not a player in this game")
  ∧ call (asPlayer 12) (CallUno 1) tableStarted
    = (tableStarted, Reverted nonPayable)
  ∧ String.length nonPayable = 0%nat.
Proof.
  split_and!; try (apply call_reverted_eq); try by vm_compute.
  - apply run_reachable; [solve_trace|apply reachable_init].
  - apply tableStarted_reachable.
  - apply (bool_decide_eq_true_1 _). by vm_compute.
Qed.

(** Claim C6, a reverse between two players acts as a skip.  If a
    [commitMove] announcing a Reverse card (an id in [84, 92)) succeeds in
    a game with exactly two participants, then [currentPlayerIndex] is
    what it was, the direction is flipped, and the player to move is the
    one who played. *)
Theorem two_player_reverse e gid i rid cc s s' :
  call e (CommitMove gid i rid cc) s = (s', Success) →
  length (players (gameAt s gid)) = 2%nat →
  REVERSE_START ≤ rid < REVERSE_END →
  let g := gameAt s gid in
  let g' := gameAt s' gid in
  currentPlayerIndex g' = currentPlayerIndex g
  ∧ direction g' = - direction g
  ∧ playerAtIndex g' (currentPlayerIndex g') = msg_sender e.
Proof.
  intros H Hn Hrid g g'.
  destruct (reverse_with_two_players _ _ _ _ _ _ _ H Hn Hrid) as (Hc & Hd & Hp).
  split_and!; [done..|].
  apply call_Success, commitMove_Ok in H as [Hchk _].
  destruct Hchk as (_ & _ & _ & _ & _ & Hcur & _).
  unfold playerAtIndex, g'. by rewrite Hc, Hp, Hcur.
Qed.

(** Alice opens with a red reverse; the direction flips and she is to move
    again. *)
Lemma two_player_reverse_witness :
  let res := call (asPlayer alice) (CommitMove 1 0 84 0) tableStarted in
  players (gameAt tableStarted 1) = [alice; bob]
  ∧ currentPlayerIndex (gameAt tableStarted 1) = 0
  ∧ res.2 = Success
  ∧ currentPlayerIndex (gameAt res.1 1) = 0
  ∧ direction (gameAt res.1 1) = -1.
Proof.
  assert (Hs : (call (asPlayer alice) (CommitMove 1 0 84 0) tableStarted).2
               = Success) by (by vm_compute).
  destruct (two_player_reverse (asPlayer alice) 1 0 84 0 tableStarted _
              (call_outcome _ _ _ _ Hs)) as (Hc & Hd & _).
  - vm_compute. reflexivity.
  - unfold REVERSE_START, REVERSE_END. lia.
  - split_and!; [vm_compute; reflexivity|vm_compute; reflexivity|exact Hs| |].
    + etrans; [exact Hc|vm_compute; reflexivity].
    + etrans; [exact Hd|vm_compute; reflexivity].
Defined.

(** Claim C7, win detection.  A successful [commitMove] by a participant
    who holds exactly one card leaves the hand empty, sets the status to
    Ended, records the caller as winner and leaves [currentPlayerIndex]
    where it was. *)
Theorem win_detection e gid i rid cc s s' :
  call e (CommitMove gid i rid cc) s = (s', Success) →
  ePreview.length (handAt s gid (msg_sender e)) = 1 →
  status (gameAt s' gid) = Ended
  ∧ winner (gameAt s' gid) = msg_sender e
  ∧ currentPlayerIndex (gameAt s' gid) = currentPlayerIndex (gameAt s gid)
  ∧ handAt s' gid (msg_sender e) = [].
Proof.
  intros H Hlen. apply (last_card_wins e gid i rid cc s s' H).
  unfold ePreview.length in Hlen. lia.
Qed.

(** Alice plays her last card, the wild 101. *)
Lemma win_detection_witness :
  let res := call (asPlayer alice) (CommitMove 1 0 101 0) tableLastCard in
  handAt tableLastCard 1 alice = [101]
  ∧ status (gameAt tableLastCard 1) = Started
  ∧ res.2 = Success
  ∧ status (gameAt res.1 1) = Ended
  ∧ winner (gameAt res.1 1) = alice
  ∧ currentPlayerIndex (gameAt res.1 1)
    = currentPlayerIndex (gameAt tableLastCard 1).
Proof.
  assert (Hs : (call (asPlayer alice) (CommitMove 1 0 101 0) tableLastCard).2
               = Success) by (by vm_compute).
  destruct (win_detection (asPlayer alice) 1 0 101 0 tableLastCard _
              (call_outcome _ _ _ _ Hs)) as (Hst & Hw & Hc & _).
  - vm_compute. reflexivity.
  - split_and!; [vm_compute; reflexivity|vm_compute; reflexivity|exact Hs|exact Hst|exact Hw|exact Hc].
Defined.

(** Claim C8, reshuffle.  [_reshuffleFromDiscards] reverts with
    [No cards left to reshuffle] when the moves list holds fewer than two
    cards.  Otherwise it succeeds:  the new moves list is the top card
    alone, the cursor is 0, the top card and its id are unchanged, and the
    new deck is a permutation of the moves list without its last card.  In
    every reachable state the last card of a non-empty moves list is the
    top card, so the card kept is the top of the discard pile. *)
Theorem reshuffle_keeps_top_card e gid s :
  validEnv e →
  let g := gameAt s gid in
  (ePreview.length (moves g) < 2 →
   _reshuffleFromDiscards e gid s = Revert "No cards left to reshuffle")
  ∧ (2 ≤ ePreview.length (moves g) →
     ∃ s', _reshuffleFromDiscards e gid s = Ok ((), s')
       ∧ moves (gameAt s' gid) = [topCard g]
       ∧ deckIndex (gameAt s' gid) = 0
       ∧ topCard (gameAt s' gid) = topCard g
       ∧ topCardId (gameAt s' gid) = topCardId g
       ∧ (∀ rest d, moves g = rest ++ [d] → deck (gameAt s' gid) ≡ₚ rest))
  ∧ (reachable s → 0 < gid ≤ _gameIdCounter s → moves g ≠ [] →
     last (moves g) = Some (topCard g)).
Proof.
  intros He g. split_and!.
  - intros Hn. rewrite reshuffleFromDiscards_eq. fold g.
    by rewrite (proj2 (Z.leb_gt _ _) Hn).
  - intros Hn. rewrite reshuffleFromDiscards_eq. fold g.
    rewrite (proj2 (Z.leb_le _ _) Hn).
    eexists. split; [reflexivity|].
    rewrite gameAt_setGame_eq. fold g. unfold reshuffled, piles. simpl.
    split_and!; try done.
    intros rest d Hm. etrans; [apply He|]. rewrite Hm. unfold ePreview.length.
    rewrite length_app. simpl.
    replace (Z.to_nat _) with (length rest) by lia.
    by rewrite take_app_length.
  - intros Hr Hgid Hne.
    destruct (reachable_Inv s Hr) as (_ & Hinv & _).
    destruct (Hinv gid Hgid) as [[(_ & _ & _ & _ & _ & _ & Hlast) _] _].
    by apply Hlast.
Qed.

(** The moves list [107; 106; 105; 104; 103] with 103 on top. *)
Lemma reshuffle_keeps_top_card_witness :
  moves (gameAt tableTwoLeft 1) = [107; 106; 105; 104; 103]
  ∧ topCard (gameAt tableTwoLeft 1) = 103
  ∧ ∃ s', _reshuffleFromDiscards (asPlayer alice) 1 tableTwoLeft = Ok ((), s')
      ∧ moves (gameAt s' 1) = [103]
      ∧ deck (gameAt s' 1) ≡ₚ [107; 106; 105; 104]
      ∧ deckIndex (gameAt s' 1) = 0
      ∧ topCard (gameAt s' 1) = 103.
Proof.
  assert (Hm : moves (gameAt tableTwoLeft 1) = [107; 106; 105; 104] ++ [103])
    by (vm_compute; reflexivity).
  assert (Ht : topCard (gameAt tableTwoLeft 1) = 103) by (vm_compute; reflexivity).
  split_and!; [exact Hm|exact Ht|].
  destruct (reshuffle_keeps_top_card (asPlayer alice) 1 tableTwoLeft
              (asPlayer_valid alice)) as (_ & Hok & _).
  destruct Hok as (s' & Hs' & Hmv & Hdi & Htop & _ & Hperm).
  - vm_compute. discriminate.
  - exists s'. rewrite Ht in Hmv, Htop.
    split_and!; [exact Hs'|exact Hmv|exact (Hperm _ _ Hm)|exact Hdi|exact Htop].
Defined.

(** Claim C9, the card codec.  For every id in [0, 108):  below 76 the
    card is a Number of colour [id / 19], a colour from Red to Blue, its
    value is the rank counted once for 0 and twice for 1 to 9 and the
    number cards of its colour and value are one for value 0 and two
    otherwise;  in [76, 84), [84, 92) and [92, 100) the card is a Skip, a
    Reverse and a DrawTwo of colour [(id - start) / 2];  in [100, 104) and
    [104, 108) it is a Wild and a WildDrawFour without colour.  The five
    documented decodings hold. *)
Theorem card_codec_bands id :
  0 ≤ id < DECK_SIZE →
  (id < NUMBER_CARDS_END →
   _getCardType id = CARD_TYPE_NUMBER
   ∧ _getCardColor id = id / 19 ∧ RED ≤ id / 19 ≤ BLUE
   ∧ _getCardValue id = specRank id ∧ 0 ≤ _getCardValue id ≤ 9
   ∧ length (numberCardsOf (_getCardColor id) (_getCardValue id))
     = if _getCardValue id =? 0 then 1%nat else 2%nat)
  ∧ (SKIP_START ≤ id < SKIP_END →
     _getCardType id = CARD_TYPE_SKIP
     ∧ _getCardColor id = (id - SKIP_START) / 2)
  ∧ (REVERSE_START ≤ id < REVERSE_END →
     _getCardType id = CARD_TYPE_REVERSE
     ∧ _getCardColor id = (id - REVERSE_START) / 2)
  ∧ (DRAW_TWO_START ≤ id < DRAW_TWO_END →
     _getCardType id = CARD_TYPE_DRAW_TWO
     ∧ _getCardColor id = (id - DRAW_TWO_START) / 2)
  ∧ (WILD_START ≤ id < WILD_END →
     _getCardType id = CARD_TYPE_WILD ∧ _getCardColor id = NO_COLOR)
  ∧ (WILD_DRAW_FOUR_START ≤ id < WILD_DRAW_FOUR_END →
     _getCardType id = CARD_TYPE_WILD_DRAW_FOUR ∧ _getCardColor id = NO_COLOR)
  ∧ getCardInfo 0 = (CARD_TYPE_NUMBER, RED, 0)
  ∧ getCardInfo 75 = (CARD_TYPE_NUMBER, BLUE, 9)
  ∧ (_getCardType 76, _getCardColor 76) = (CARD_TYPE_SKIP, RED)
  ∧ (_getCardType 100, _getCardColor 100) = (CARD_TYPE_WILD, NO_COLOR)
  ∧ (_getCardType 104, _getCardColor 104) = (CARD_TYPE_WILD_DRAW_FOUR, NO_COLOR).
Proof.
  intros Hid.
  destruct (codec_bands id Hid) as (Hnum & Hskip & Hrev & Hd2 & Hw & Hw4).
  unfold SKIP_START, SKIP_END, REVERSE_START, REVERSE_END, DRAW_TWO_START,
    DRAW_TWO_END, WILD_START, WILD_END, WILD_DRAW_FOUR_START,
    WILD_DRAW_FOUR_END, NUMBER_CARDS_END, NO_COLOR, RED, BLUE.
  split_and!; try done.
  intros Hlt. destruct (Hnum Hlt) as (Hinfo & Hcol & Hrank).
  injection Hinfo as Ht Hc Hv.
  rewrite Ht, Hc, Hv. split_and!; try done; try lia.
  apply count_ranks; lia.
Qed.

(** The second blue nine. *)
Lemma card_codec_bands_witness :
  getCardInfo 75 = (CARD_TYPE_NUMBER, BLUE, 9)
  ∧ numberCardsOf BLUE 9 = [66; 75].
Proof.
  destruct (card_codec_bands 75) as (Hnum & _).
  - unfold DECK_SIZE. lia.
  - destruct Hnum as (Ht & Hc & _ & Hv & _).
    + unfold NUMBER_CARDS_END. lia.
    + split; [|vm_compute; reflexivity].
      unfold getCardInfo. rewrite Ht, Hc, Hv. vm_compute. reflexivity.
Defined.

(** Claim C10, removing a card from a hand.  For a hand of [n] cards and
    an index [0 <= i < n], the removal step of [commitMove] (an empty list
    for a single card, [_removeCardFromHand] otherwise, itself correct in
    its three branches for [n >= 2]) yields the hand with position [i]
    deleted:  [n - 1] cards, the positions before [i] unchanged and the
    later ones moved up by one.  In a reachable state a successful
    [commitMove] with index [i] was given [i < n] and leaves exactly that
    hand;  with [i >= n] the call is refused and the storage unchanged, the
    message being [Card index out of bounds] when the earlier requirements
    hold. *)
Theorem remove_from_hand (hand : elist) (i : Z) :
  let n := ePreview.length hand in
  let hand' := delete (Z.to_nat i) hand in
  0 ≤ i →
  (i < n →
   (2 ≤ n → ∀ s, _removeCardFromHand hand i n s = Ok (hand', s))
   ∧ (∀ s, (if n =? 1 then mret ePreview.newEList
            else _removeCardFromHand hand i n) s = Ok (hand', s))
   ∧ ePreview.length hand' = n - 1
   ∧ (∀ j, (j < Z.to_nat i)%nat → hand' !! j = hand !! j)
   ∧ (∀ j, (Z.to_nat i ≤ j)%nat → hand' !! j = hand !! S j))
  ∧ (∀ e gid rid cc s,
       reachable s → handAt s gid (msg_sender e) = hand →
       let res := call e (CommitMove gid i rid cc) s in
       (res.2 = Success →
        i < n ∧ handAt res.1 gid (msg_sender e) = hand')
       ∧ (n ≤ i → ∃ msg, res = (s, Reverted msg))
       ∧ (n ≤ i →
          0 < gid ≤ _gameIdCounter s → status (gameAt s gid) = Started →
          playerAtIndex (gameAt s gid) (currentPlayerIndex (gameAt s gid))
          = msg_sender e →
          inco_getFee e * 2 ≤ msg_value e → cc ≤ 3 → rid < DECK_SIZE →
          res = (s, Reverted "Card index out of bounds"))).
Proof.
  intros n hand' Hi0. split.
  - intros Hi. split_and!.
    + intros Hn s. apply removeCardFromHand_eq; [done|]. fold n. lia.
    + intros s.
      destruct (Z.eqb_spec n 1) as [H1|H1].
      * unfold hand', n, ePreview.length in *.
        destruct hand as [|x [|y hand]]; simpl in *; try lia.
        by replace (Z.to_nat i) with 0%nat by lia.
      * apply removeCardFromHand_eq; fold n; lia.
    + unfold hand', n, ePreview.length in *.
      rewrite length_delete; [lia|]. apply lookup_lt_is_Some_2. lia.
    + intros j Hj. by apply lookup_delete_before.
    + intros j Hj. by apply lookup_delete_after.
  - intros e gid rid cc s Hr Hh res. split_and!.
    + intros Hok. apply call_outcome in Hok. fold res in Hok.
      apply call_Success in Hok. simpl in Hok.
      pose proof (commitMove_Ok _ _ _ _ _ _ _ Hok) as [Hchk _].
      destruct Hchk as (Hgid & _ & _ & _ & _ & _ & _ & _ & Hi & _).
      destruct (reachable_Inv s Hr) as (_ & Hinv & _).
      destruct (Hinv gid Hgid) as [[Hshape _] _].
      destruct (commitMove_effects _ _ _ _ _ _ _ Hshape Hok) as (c & _ & Hd & _).
      rewrite Hh in Hi, Hd. fold n in Hi. split; [lia|done].
    + intros Hi. destruct (exec e (CommitMove gid i rid cc) s) as [[[] s']|msg] eqn:E.
      * simpl in E. apply commitMove_Ok in E as [Hchk _].
        destruct Hchk as (_ & _ & _ & _ & _ & _ & _ & _ & Hlt & _).
        rewrite Hh in Hlt. fold n in Hlt. lia.
      * exists msg. by apply call_Reverted.
    + intros Hi Hgid Hst Hturn Hfee Hcc Hrid.
      apply call_Reverted. split; [|done]. simpl.
      apply commitMove_rejects, commitMove_index_refused; try done.
      rewrite Hh. by fold n.
Qed.

(** Alice removes the third of her seven cards. *)
Lemma remove_from_hand_witness :
  let res := call (asPlayer alice) (CommitMove 1 2 105 0) tableStarted in
  handAt tableStarted 1 alice = [107; 106; 105; 104; 103; 102; 101]
  ∧ _removeCardFromHand [107; 106; 105; 104; 103; 102; 101] 2 7 tableStarted
    = Ok ([107; 106; 104; 103; 102; 101], tableStarted)
  ∧ res.2 = Success
  ∧ handAt res.1 1 alice = [107; 106; 104; 103; 102; 101]
  ∧ call (asPlayer alice) (CommitMove 1 7 105 0) tableStarted
    = (tableStarted, Reverted "Card index out of bounds").
Proof.
  cbv zeta.
  assert (Hh : handAt tableStarted 1 (msg_sender (asPlayer alice))
               = [107; 106; 105; 104; 103; 102; 101])
    by (vm_compute; reflexivity).
  destruct (remove_from_hand [107; 106; 105; 104; 103; 102; 101] 2)
    as [Hin Hmove]; [lia|].
  destruct Hin as (Hhelper & _); [vm_compute; reflexivity|].
  destruct (Hmove (asPlayer alice) 1 105 0 tableStarted tableStarted_reachable Hh)
    as (Hok & _).
  assert (Hs : (call (asPlayer alice) (CommitMove 1 2 105 0) tableStarted).2
               = Success) by (vm_compute; reflexivity).
  destruct (Hok Hs) as [_ Hd].
  destruct (remove_from_hand [107; 106; 105; 104; 103; 102; 101] 7)
    as [_ Hmove7]; [lia|].
  destruct (Hmove7 (asPlayer alice) 1 105 0 tableStarted tableStarted_reachable Hh)
    as (_ & _ & Hout).
  split_and!.
  - exact Hh.
  - apply Hhelper. vm_compute. discriminate.
  - exact Hs.
  - exact Hd.
  - apply Hout.
    + vm_compute. discriminate.
    + vm_compute. split; [reflexivity|discriminate].
    + vm_compute. reflexivity.
    + vm_compute. reflexivity.
    + vm_compute. discriminate.
    + vm_compute. discriminate.
    + vm_compute. reflexivity.
Defined.

(** * Further properties of the code *)

(** ** The table facts are kept by every action *)

Lemma tableFacts_sameGame gid s s' :
  sameGame gid s s' → tableFacts s gid → tableFacts s' gid.
Proof.
  intros (Hg & Hh & Hwo & Hwp). unfold tableFacts, dealt.
  rewrite Hg, Hwo, Hwp. setoid_rewrite Hh. done.
Qed.

Lemma nonempty_of_length (l : list Z) : 0 < ePreview.length l → l ≠ [].
Proof. intros H ->. unfold ePreview.length in H. simpl in H. lia. Qed.

Lemma joinGame_tableFacts e gid j s s' :
  joinGame e gid j s = Ok ((), s') → tableFacts s gid → tableFacts s' gid.
Proof.
  intros ((_ & Hst & Hfull & _ & Hnew & _ & Hd0 & Hd7) & ->)%joinGame_Ok.
  intros (Hn & Hcol & Hdealt & Hne & Hend & Hwin).
  destruct (Hdealt Hst) as (Hmv & Hdk & Hdi & Hhands).
  assert (Hj : ePreview.length
                 (take (Z.to_nat INITIAL_HAND_SIZE)
                    (drop (Z.to_nat (deckIndex (gameAt s gid))) (deck (gameAt s gid))))
               = INITIAL_HAND_SIZE).
  { unfold ePreview.length in *. rewrite length_take, length_drop.
    unfold INITIAL_HAND_SIZE in *. lia. }
  assert (Hother : ∀ p, p ∈ players (gameAt s gid) →
            handAt s gid p = handAt s gid p ∧ p ≠ j).
  { intros p Hp. split; [done|]. by intros ->. }
  unfold tableFacts, dealt. simp_state. simpl_game.
  split_and!.
  - rewrite length_app. simpl. lia.
  - rewrite length_app. simpl. lia.
  - done.
  - intros _. split_and!; try done.
    + rewrite length_app. simpl. lia.
    + intros p [Hp| ->%list_elem_of_singleton]%elem_of_app.
      * skip_writes. rewrite handAt_setHand_ne by (intros [= ->]; done).
        simp_state. by apply Hhands.
      * by simp_state.
  - intros _ p [Hp| ->%list_elem_of_singleton]%elem_of_app.
    + skip_writes. rewrite handAt_setHand_ne by (intros [= ->]; done).
      simp_state. apply Hne; [by rewrite Hst|done].
    + simp_state. apply nonempty_of_length. rewrite Hj. done.
  - by rewrite Hst.
  - intros Hw. destruct (Hwin Hw) as [Hs _]. by rewrite Hst in Hs.
Qed.

Lemma startGame_tableFacts e gid s s' :
  startGame e gid s = Ok ((), s') → tableFacts s gid → tableFacts s' gid.
Proof.
  intros ((_ & Hst & Hn2) & ->)%startGame_Ok.
  intros (Hn & Hcol & Hdealt & Hne & Hend & Hwin).
  unfold tableFacts, dealt. simp_state. simpl_game.
  split_and!; try done; try lia.
  - intros _ p Hp. simp_state. apply Hne; [by rewrite Hst|done].
  - intros Hw. destruct (Hwin Hw) as [Hs _]. by rewrite Hst in Hs.
Qed.

Lemma callUno_tableFacts e gid s s' :
  callUno e gid s = Ok ((), s') → tableFacts s gid → tableFacts s' gid.
Proof.
  intros H. apply callUno_frame in H as [_ Hf]. by apply tableFacts_sameGame.
Qed.

Lemma colorAfter_plain rid cc :
  rid < WILD_START → colorAfter rid cc = _getCardColor rid.
Proof.
  intros H. unfold colorAfter, _getCardType.
  unfold WILD_START, NUMBER_CARDS_END, SKIP_END, REVERSE_END, DRAW_TWO_END,
    WILD_END in *.
  repeat case_match; try done; lia.
Qed.

Lemma length_delete_lookup (l : list Z) i c :
  l !! i = Some c → ePreview.length (delete i l) = ePreview.length l - 1.
Proof.
  intros H. unfold ePreview.length. rewrite length_delete by eauto.
  apply lookup_lt_Some in H. lia.
Qed.

Lemma commitMove_tableFacts e gid i rid cc s s' :
  commitMove e gid i rid cc s = Ok ((), s') →
  gameShape s gid → tableFacts s gid → tableFacts s' gid.
Proof.
  intros H Hshape (Hn & Hcol & Hdealt & Hne & Hend & Hwin).
  apply commitMove_Ok in H as (Hchk & sp & Hpl & Hfin).
  destruct Hchk as (_ & Hst & Hin & _ & Hc0 & Hcur & _ & _ & Hi & _).
  destruct Hshape as (Hnd & Hcpi & Hn2 & _).
  destruct Hpl as (c & Hc & Hm & Hg & Hh & _ & _ & Hwo & Hwp).
  set (g := gameAt s gid) in *. set (p := msg_sender e) in *.
  destruct (cardEffect_fields (_getCardType rid) (placed c rid cc g))
    as (_ & Hf_pl & Hf_st & _ & _ & _ & _ & _ & Hf_tid & _ & Hf_cpi & Hf_col & Hf_win).
  pose proof (length_delete_lookup _ _ _ Hc) as Hlen.
  assert (Hcolour : topCardId (gameAt sp gid) < WILD_START →
            currentColor (gameAt sp gid) = _getCardColor (topCardId (gameAt sp gid))).
  { rewrite Hg, Hf_tid, Hf_col. simpl. apply colorAfter_plain. }
  assert (Hplayers : players (gameAt sp gid) = players g) by (by rewrite Hg, Hf_pl).
  assert (Hstatus : status (gameAt sp gid) = Started) by (by rewrite Hg, Hf_st).
  assert (Hothers : ∀ q, q ≠ p → handAt sp gid q = handAt s gid q).
  { intros q Hq. apply (mod_hand _ _ _ _ _ Hm). by right. }
  destruct (Z.eq_dec (ePreview.length (handAt s gid p) - 1) 0) as [E|E].
  - rewrite E, finishMove_win in Hfin. injection Hfin as <-.
    unfold tableFacts, dealt, won. simp_state. simpl_game.
    rewrite Hplayers. split_and!; try done; try lia.
    + intros _. fold p. split; [done|]. rewrite Hh. apply length_zero_iff_nil.
      unfold ePreview.length in *. lia.
    + rewrite Hwo. destruct (Z.eqb_spec (ePreview.length (handAt s gid p)) 2);
        [lia|done].
  - rewrite finishMove_advance in Hfin by done.
    apply advance_summary in Hfin
      as (cs & d & di & m & Hmod & Hg' & Hsk & _).
    set (sk := playerAtIndex (gameAt sp gid) (nextIndex (gameAt sp gid))) in *.
    assert (Hskp : sk ≠ p).
    { apply next_player_differs; rewrite ?Hplayers, ?Hg, ?Hf_cpi; auto. }
    assert (Hhand : ∀ q, q ∈ players g → handAt s' gid q ≠ []).
    { intros q Hq. destruct (decide (q = sk)) as [->|Hqs].
      - rewrite Hsk, Hothers by done.
        intros [E1 _]%app_eq_nil. revert E1. apply Hne; [by rewrite Hst|done].
      - rewrite (mod_hand _ _ _ _ _ Hmod) by (by right).
        destruct (decide (q = p)) as [->|Hqp].
        + rewrite Hh. apply nonempty_of_length. lia.
        + rewrite Hothers by done. apply Hne; [by rewrite Hst|done]. }
    unfold tableFacts, dealt.
    rewrite (mod_open _ _ _ _ _ Hmod), (mod_subject _ _ _ _ _ Hmod) by (by right).
    rewrite Hg'. simpl_game. rewrite Hplayers, Hstatus.
    split_and!; try done; try lia.
    intros Hw. specialize (Hwp Hw). rewrite Hwp.
    rewrite (mod_hand _ _ _ _ _ Hmod) by (right; congruence).
    rewrite Hh, Hlen. split; [done|].
    rewrite Hwo in Hw. apply andb_true_iff in Hw as [Hw _].
    apply Z.eqb_eq in Hw. lia.
Qed.

Lemma advance_tableFacts e gid s s' :
  _advanceToNextPlayer e gid s = Ok ((), s') →
  status (gameAt s gid) = Started → windowOpenAt s gid = false →
  tableFacts s gid → tableFacts s' gid.
Proof.
  intros H Hst Hw (Hn & Hcol & Hdealt & Hne & Hend & Hwin).
  apply advance_summary in H as (cs & d & di & m & Hmod & Hg' & Hsk & _).
  unfold tableFacts, dealt.
  rewrite (mod_open _ _ _ _ _ Hmod), (mod_subject _ _ _ _ _ Hmod) by (by right).
  rewrite Hg'. simpl_game. rewrite Hst, Hw.
  split_and!; try done; try lia.
  intros _ q Hq.
  destruct (decide (q = playerAtIndex (gameAt s gid) (nextIndex (gameAt s gid))))
    as [->|Hqs].
  - rewrite Hsk. intros [E1 _]%app_eq_nil. revert E1.
    apply Hne; [by rewrite Hst|done].
  - rewrite (mod_hand _ _ _ _ _ Hmod) by (by right).
    apply Hne; [by rewrite Hst|done].
Qed.

Lemma drawCard_tableFacts e gid endTurn s s' :
  drawCard e gid endTurn s = Ok ((), s') →
  tableFacts s gid → tableFacts s' gid.
Proof.
  intros H (Hn & Hcol & Hdealt & Hne & Hend & Hwin).
  apply drawCard_Ok in H as ((_ & Hst & Hin & _) & H).
  destruct H as (sd & c & g1 & Hg1 & _ & _ & Hmod & Hgsd & Hh & Hwo & _ & _ & _ & Hfin).
  assert (Hf : players g1 = players (gameAt s gid)
             ∧ status g1 = status (gameAt s gid)
             ∧ topCardId g1 = topCardId (gameAt s gid)
             ∧ currentColor g1 = currentColor (gameAt s gid)).
  { by destruct Hg1 as [[_ ->]|(_ & _ & ->)]. }
  destruct Hf as (Hf1 & Hf2 & Hf3 & Hf4).
  assert (Hsd : tableFacts sd gid).
  { unfold tableFacts, dealt. rewrite Hgsd, Hwo. simpl_game.
    rewrite Hf1, Hf2, Hf3, Hf4, Hst.
    split_and!; try done; try lia.
    intros _ q Hq. destruct (decide (q = msg_sender e)) as [->|Hqp].
    - rewrite Hh. intros [_ E1]%app_eq_nil. done.
    - rewrite (mod_hand _ _ _ _ _ Hmod) by (by right).
      apply Hne; [by rewrite Hst|done]. }
  destruct endTurn; [|by subst].
  eapply advance_tableFacts; try done.
  rewrite Hgsd. simpl_game. by rewrite Hf2.
Qed.

Lemma penalizeUno_tableFacts e gid target s s' :
  penalizeUno e gid target s = Ok ((), s') →
  tableFacts s gid → tableFacts s' gid.
Proof.
  intros H (Hn & Hcol & Hdealt & Hne & Hend & Hwin).
  apply penalizeUno_Ok in H as ((_ & Hst & _) & H).
  apply forceDrawCards_summary in H
    as (cs & _ & Hmod & (d & di & m & Hg') & Hh & _).
  unfold tableFacts, dealt.
  rewrite (mod_open _ _ _ _ _ Hmod) by (by right).
  rewrite Hg'. simp_state. simpl_game. rewrite Hst.
  split_and!; try done; try lia.
  intros _ q Hq. destruct (decide (q = target)) as [->|Hqt].
  - rewrite Hh. simp_state. intros [E1 _]%app_eq_nil. revert E1.
    apply Hne; [by rewrite Hst|done].
  - rewrite (mod_hand _ _ _ _ _ Hmod) by (by right). simp_state.
    apply Hne; [by rewrite Hst|done].
Qed.

(** ** Removal from a registry *)

Lemma swapRemove_absent x (l : list Z) : x ∉ l → swapRemove x l = l.
Proof.
  intros Hx. unfold swapRemove.
  destruct (list_find (λ y, y = x) l) as [[i y]|] eqn:E; [|done].
  apply list_find_Some in E as (Hi & -> & _).
  exfalso. apply Hx. by eapply list_elem_of_lookup_2.
Qed.

Lemma swapRemove_present x (l : list Z) :
  x ∈ l → x :: swapRemove x l ≡ₚ l.
Proof.
  intros Hx. unfold swapRemove.
  destruct (list_find (λ y, y = x) l) as [[i y]|] eqn:E.
  2:{ apply list_find_None in E. rewrite Forall_forall in E.
      by destruct (E x Hx). }
  apply list_find_Some in E as (Hi & -> & _).
  pose proof (take_drop_middle l i x Hi) as Hl.
  set (a := take i l) in *. set (b := drop (S i) l) in *.
  assert (Hla : length a = i).
  { unfold a. rewrite length_take. apply lookup_lt_Some in Hi. lia. }
  clearbody a b. subst l. clear Hi Hx.
  destruct (last (a ++ x :: b)) as [z|] eqn:Hz.
  2:{ apply last_None in Hz. by destruct a. }
  rewrite last_app, last_cons in Hz.
  replace i with (length a + 0)%nat by lia.
  rewrite insert_app_r. simpl. rewrite length_app. simpl.
  destruct (last b) as [z'|] eqn:Hb; simpl in Hz; injection Hz as <-.
  - apply last_Some in Hb as [b' ->].
    rewrite length_app. simpl.
    replace (length a + S (length b' + 1) - 1)%nat
      with (length (a ++ z' :: b')) by (rewrite length_app; simpl; lia).
    replace (a ++ z' :: b' ++ [z']) with ((a ++ z' :: b') ++ [z'])
      by (by rewrite <- app_assoc).
    rewrite take_app_length.
    rewrite <- !Permutation_middle, ?app_nil_r. done.
  - apply last_None in Hb as ->.
    simpl. replace (length a + 1 - 1)%nat with (length a) by lia.
    rewrite take_app_length. by rewrite <- Permutation_middle, app_nil_r.
Qed.

Lemma swapRemove_NoDup x (l : list Z) :
  NoDup l →
  NoDup (swapRemove x l) ∧ ∀ y, y ∈ swapRemove x l ↔ y ∈ l ∧ y ≠ x.
Proof.
  intros Hnd. destruct (decide (x ∈ l)) as [Hx|Hx].
  - pose proof (swapRemove_present x l Hx) as Hp.
    rewrite <- Hp in Hnd. apply NoDup_cons in Hnd as [Hnx Hnd'].
    split; [done|]. intros y. rewrite <- Hp at 2. rewrite elem_of_cons.
    split; [intros Hy; split; [by right|by intros ->]|].
    intros [[->|Hy] Hne]; done.
  - rewrite swapRemove_absent by done. split; [done|].
    intros y. split; [intros Hy; split; [done|by intros ->]|by intros [? _]].
Qed.

(** ** Bookkeeping of each action: counter, registries, status, players
    and penalty flags *)

Lemma advance_book e gid s s' :
  _advanceToNextPlayer e gid s = Ok ((), s') →
  _gameIdCounter s' = _gameIdCounter s
  ∧ _activeGames s' = _activeGames s
  ∧ _notStartedGames s' = _notStartedGames s
  ∧ status (gameAt s' gid) = status (gameAt s gid)
  ∧ players (gameAt s' gid) = players (gameAt s gid)
  ∧ (∀ g q, penaltyAt s g q = false → penaltyAt s' g q = false).
Proof.
  intros H. apply advance_summary in H
    as (cs & d & di & m & Hmod & Hg' & _ & _ & _ & Hpen & _).
  destruct Hmod as [Hc Ha Hn _ _ _ Hp _ _].
  split_and!; try done; try (by rewrite Hg').
  intros g q Hq. destruct (decide (g = gid)) as [->|Hne]; [by apply Hpen|].
  rewrite Hp by (by left). done.
Qed.

Lemma commitMove_book e gid i rid cc s s' :
  commitMove e gid i rid cc s = Ok ((), s') →
  let n := ePreview.length (handAt s gid (msg_sender e)) in
  status (gameAt s gid) = Started
  ∧ _gameIdCounter s' = _gameIdCounter s
  ∧ _notStartedGames s' = _notStartedGames s
  ∧ players (gameAt s' gid) = players (gameAt s gid)
  ∧ status (gameAt s' gid) = (if n =? 1 then Ended else Started)
  ∧ _activeGames s'
    = (if n =? 1 then swapRemove gid (_activeGames s) else _activeGames s)
  ∧ (∀ g q, penaltyAt s g q = false → penaltyAt s' g q = false).
Proof.
  intros H n. apply commitMove_Ok in H as (Hchk & sp & Hpl & Hfin).
  destruct Hchk as (_ & Hst & _).
  destruct Hpl as (c & _ & Hm & Hg & _ & _ & Hpe & _).
  destruct (cardEffect_fields (_getCardType rid) (placed c rid cc (gameAt s gid)))
    as (_ & Hf_pl & Hf_st & _).
  destruct Hm as [Hc Ha Hn _ _ _ Hp _ _].
  assert (Hpen : ∀ g q, penaltyAt s g q = false → penaltyAt sp g q = false).
  { intros g q Hq.
    destruct (decide (g = gid ∧ q = msg_sender e)) as [[-> ->]|Hne]; [done|].
    rewrite Hp; [done|]. destruct (decide (g = gid)); [right|left]; naive_solver. }
  fold n in Hfin. destruct (Z.eqb_spec n 1) as [E|E].
  - rewrite E in Hfin. simpl in Hfin. rewrite finishMove_win in Hfin.
    injection Hfin as <-. unfold won. simp_state. simpl_game.
    rewrite Hg, Hf_pl, Hc, Hn, Ha. by split_and!.
  - rewrite finishMove_advance in Hfin by lia.
    apply advance_book in Hfin as (Hc' & Ha' & Hn' & Hst' & Hpl' & Hpen').
    rewrite Hc', Ha', Hn', Hst', Hpl', Hg, Hf_pl, Hf_st.
    split_and!; try done. intros g q Hq. by apply Hpen', Hpen.
Qed.

Lemma drawCard_book e gid endTurn s s' :
  drawCard e gid endTurn s = Ok ((), s') →
  status (gameAt s gid) = Started
  ∧ _gameIdCounter s' = _gameIdCounter s
  ∧ _activeGames s' = _activeGames s
  ∧ _notStartedGames s' = _notStartedGames s
  ∧ status (gameAt s' gid) = Started
  ∧ players (gameAt s' gid) = players (gameAt s gid)
  ∧ (∀ g q, penaltyAt s g q = false → penaltyAt s' g q = false).
Proof.
  intros H. apply drawCard_Ok in H as ((_ & Hst & _) & H).
  destruct H as (sd & c & g1 & Hg1 & _ & _ & Hmod & Hgsd & _ & _ & _ & _ & Hpe & Hfin).
  assert (Hf : players g1 = players (gameAt s gid)
             ∧ status g1 = status (gameAt s gid)).
  { by destruct Hg1 as [[_ ->]|(_ & _ & ->)]. }
  destruct Hf as (Hf1 & Hf2).
  destruct Hmod as [Hc Ha Hn _ _ _ Hp _ _].
  assert (Hpen : ∀ g q, penaltyAt s g q = false → penaltyAt sd g q = false).
  { intros g q Hq. destruct (decide (g = gid)) as [->|Hne]; [by rewrite Hpe|].
    rewrite Hp by (by left). done. }
  assert (Hsd : status (gameAt sd gid) = Started
              ∧ players (gameAt sd gid) = players (gameAt s gid)).
  { rewrite Hgsd. simpl_game. by rewrite Hf1, Hf2. }
  destruct Hsd as [Hsd1 Hsd2].
  destruct endTurn; [|subst s'; by split_and!].
  apply advance_book in Hfin as (Hc' & Ha' & Hn' & Hst' & Hpl' & Hpen').
  rewrite Hc', Ha', Hn', Hst', Hpl'. split_and!; try done.
  intros g q Hq. by apply Hpen', Hpen.
Qed.

Lemma penalizeUno_book e gid target s s' :
  penalizeUno e gid target s = Ok ((), s') →
  status (gameAt s gid) = Started
  ∧ _gameIdCounter s' = _gameIdCounter s
  ∧ _activeGames s' = _activeGames s
  ∧ _notStartedGames s' = _notStartedGames s
  ∧ status (gameAt s' gid) = Started
  ∧ players (gameAt s' gid) = players (gameAt s gid)
  ∧ (∀ g q, penaltyAt s g q = false → penaltyAt s' g q = false).
Proof.
  intros H. apply penalizeUno_Ok in H as ((_ & Hst & _) & H).
  apply forceDrawCards_summary in H
    as (cs & _ & Hmod & (d & di & m & Hg') & _ & _ & Hpe & _).
  destruct Hmod as [Hc Ha Hn _ _ _ Hp _ _].
  rewrite Hc, Ha, Hn, Hg'. simp_state. simpl_game.
  split_and!; try done.
  intros g q Hq.
  destruct (decide (g = gid ∧ q = target)) as [[-> ->]|Hne]; [done|].
  rewrite Hp by (destruct (decide (g = gid)); [right|left]; naive_solver).
  rewrite penaltyAt_setPenalty_ne by naive_solver. by simp_state.
Qed.

(** ** The further invariants hold in every reachable state *)

Lemma registryInv_same s s' :
  _gameIdCounter s' = _gameIdCounter s →
  _activeGames s' = _activeGames s →
  _notStartedGames s' = _notStartedGames s →
  (∀ g, status (gameAt s' g) = status (gameAt s g)) →
  registryInv s → registryInv s'.
Proof.
  intros Hc Ha Hn Hst. unfold registryInv. rewrite Hc, Ha, Hn.
  by setoid_rewrite Hst.
Qed.

Lemma status_frame gid s s' :
  (∀ g, g ≠ gid → sameGame g s s') →
  status (gameAt s' gid) = status (gameAt s gid) →
  ∀ g, status (gameAt s' g) = status (gameAt s g).
Proof.
  intros Hf Hs g. destruct (decide (g = gid)) as [->|Hne]; [done|].
  by destruct (Hf g Hne) as (-> & _).
Qed.

Lemma Facts_step gid0 s s' :
  Facts s → 0 < gid0 ≤ _gameIdCounter s →
  _gameIdCounter s' = _gameIdCounter s →
  (∀ g, g ≠ gid0 → sameGame g s s') →
  (tableFacts s gid0 → tableFacts s' gid0) →
  (∀ g q, penaltyAt s g q = false → penaltyAt s' g q = false) →
  (registryInv s → registryInv s') →
  Facts s'.
Proof.
  intros (Ht & Hp & Hr) Hgid Hcnt Hframe Htab Hpen Hreg. split_and!.
  - rewrite Hcnt. intros g Hg. destruct (decide (g = gid0)) as [->|Hne].
    + by apply Htab, Ht.
    + eapply tableFacts_sameGame; [by apply Hframe|by apply Ht].
  - intros g q. by apply Hpen.
  - by apply Hreg.
Qed.

Lemma createGame_Facts e creator t s n s' :
  validEnv e → createGame e creator t s = Ok (n, s') →
  Inv s → Facts s → Facts s'.
Proof.
  intros He H (Hc & _ & Hout) (Ht & Hp & Hr).
  apply createGame_Ok in H
    as (-> & _ & _ & Hlen & top & Htop & Hcnt & Hact & Hns & Hg & Hh & Hgo & Hho
        & _ & Hpe & Hwo & Hwp).
  set (n := _gameIdCounter s + 1) in *.
  set (D := ePreview.shuffledRange e 0 DECK_SIZE) in *.
  assert (HD : ePreview.length D = DECK_SIZE).
  { unfold ePreview.length. unfold D. rewrite (shuffledRange_perm e He).
    unfold canonicalIds. rewrite length_seqZ. unfold DECK_SIZE. lia. }
  split_and!.
  - rewrite Hcnt. intros gid Hgid. destruct (decide (gid = n)) as [->|Hne].
    + unfold tableFacts, dealt. rewrite Hg, Hwo, Hout by (unfold n; lia). simpl.
      split_and!; try done.
      * intros Hlt. destruct (Z.leb_spec WILD_START t); [lia|done].
      * intros _. split_and!; try done.
        intros p ->%list_elem_of_singleton. rewrite Hh.
        unfold ePreview.length in *. rewrite length_take.
        unfold INITIAL_HAND_SIZE, DECK_SIZE in *. lia.
      * intros _ p ->%list_elem_of_singleton. rewrite Hh.
        apply nonempty_of_length. unfold ePreview.length in *.
        rewrite length_take. unfold INITIAL_HAND_SIZE, DECK_SIZE in *. lia.
    + eapply (tableFacts_sameGame gid s).
      * split_and!; [by apply Hgo| |by apply Hwo|by apply Hwp].
        intros p. apply Hho. intros [= -> _]. done.
      * apply Ht. lia.
  - intros g q. by rewrite Hpe.
  - destruct Hr as (Hnd1 & Hnd2 & Hm1 & Hm2).
    assert (Hfresh1 : n ∉ _notStartedGames s).
    { intros Hn%Hm1. lia. }
    assert (Hfresh2 : n ∉ _activeGames s).
    { intros Hn%Hm2. lia. }
    unfold registryInv. rewrite Hcnt, Hact, Hns. split_and!.
    + apply NoDup_app. split_and!; [done| |apply NoDup_singleton].
      intros x Hx ->%list_elem_of_singleton. done.
    + done.
    + intros gid. rewrite elem_of_app, list_elem_of_singleton.
      destruct (decide (gid = n)) as [->|Hne].
      * rewrite Hg. simpl. split; [intros _; split; [lia|done]|by right].
      * rewrite Hgo, Hm1 by done. split.
        -- intros [[? ?]|?]; [split; [lia|done]|done].
        -- intros [? ?]. left. split; [lia|done].
    + intros gid. destruct (decide (gid = n)) as [->|Hne].
      * rewrite Hg. simpl. split; [done|by intros [_ ?]].
      * rewrite Hgo, Hm2 by done. split.
        -- intros [? ?]; split; [lia|done].
        -- intros [? ?]. split; [lia|done].
Qed.

Lemma emptyContract_Facts : Facts emptyContract.
Proof.
  split_and!.
  - simpl. intros gid Hgid. lia.
  - done.
  - split_and!; try apply NoDup_nil_2.
    + intros gid. split; [by intros ?%elem_of_nil|]. simpl. lia.
    + intros gid. split; [by intros ?%elem_of_nil|]. simpl. lia.
Qed.

Lemma startGame_registry e gid s s' :
  startGame e gid s = Ok ((), s') →
  (∀ g, g ≠ gid → sameGame g s s') →
  registryInv s → registryInv s'.
Proof.
  intros ((Hgid & Hst & _) & ->)%startGame_Ok Hframe (Hnd1 & Hnd2 & Hm1 & Hm2).
  destruct (swapRemove_NoDup gid _ Hnd1) as [Hnd1' Hrem].
  assert (Hother : ∀ g, g ≠ gid →
            status (gameAt (with_activeGames (_activeGames s ++ [gid])
                      (with_notStartedGames (swapRemove gid (_notStartedGames s))
                         (setGame gid (set_status Started (gameAt s gid)) s))) g)
            = status (gameAt s g)).
  { intros g Hg. by destruct (Hframe g Hg) as (-> & _). }
  unfold registryInv. simpl. split_and!.
  - done.
  - apply NoDup_app. split_and!; [done| |apply NoDup_singleton].
    intros x Hx ->%list_elem_of_singleton. apply Hm2 in Hx as [_ Hx]. congruence.
  - intros g. rewrite Hrem, Hm1. skip_writes.
    destruct (decide (g = gid)) as [->|Hne].
    + simp_state. simpl_game. split; [by intros [_ ?]|by intros [_ ?]].
    + rewrite <- (Hother g Hne). skip_writes. split; [by intros [? _]|done].
  - intros g. rewrite elem_of_app, list_elem_of_singleton, Hm2. skip_writes.
    destruct (decide (g = gid)) as [->|Hne].
    + simp_state. simpl_game. split; [done|by right].
    + rewrite <- (Hother g Hne). skip_writes. split; [by intros [?|?]|by left].
Qed.

Lemma commitMove_registry e gid i rid cc s s' :
  commitMove e gid i rid cc s = Ok ((), s') →
  (∀ g, g ≠ gid → sameGame g s s') →
  registryInv s → registryInv s'.
Proof.
  intros H Hframe Hreg.
  apply commitMove_book in H as (Hst & Hc & Hn & _ & Hst' & Ha & _).
  destruct (ePreview.length (handAt s gid (msg_sender e)) =? 1).
  2:{ eapply registryInv_same; try done. apply (status_frame gid); [done|].
      by rewrite Hst', Hst. }
  destruct Hreg as (Hnd1 & Hnd2 & Hm1 & Hm2).
  destruct (swapRemove_NoDup gid _ Hnd2) as [Hnd2' Hrem].
  unfold registryInv. rewrite Hc, Hn, Ha. split_and!; try done.
  - intros g. rewrite Hm1. destruct (decide (g = gid)) as [->|Hne].
    + rewrite Hst', Hst. split; by intros [_ ?].
    + by destruct (Hframe g Hne) as (-> & _).
  - intros g. rewrite Hrem, Hm2. destruct (decide (g = gid)) as [->|Hne].
    + rewrite Hst'. split; [by intros [_ ?]|by intros [_ ?]].
    + destruct (Hframe g Hne) as (-> & _). split; [by intros [? _]|done].
Qed.

Lemma exec_Facts e a s s' :
  validEnv e → exec e a s = Ok ((), s') → Inv s → Facts s → Facts s'.
Proof.
  intros He H HI HF. destruct a as [c t|g j|g|g i r c|g|g t|g b]; simpl in H.
  - apply bind_Ok in H as (n & s1 & H & [= <-]). by eapply createGame_Facts.
  - pose proof H as ((Hgid & _) & Hs')%joinGame_Ok.
    pose proof H as (Hcnt & Hfr)%joinGame_frame.
    apply (Facts_step g s s' HF Hgid Hcnt Hfr).
    + by eapply joinGame_tableFacts.
    + intros g' q Hq. rewrite Hs'. by simp_state.
    + apply registryInv_same; try done; try (by rewrite Hs').
      apply (status_frame g); [done|]. rewrite Hs'. by simp_state.
  - pose proof H as ((Hgid & _) & Hs')%startGame_Ok.
    pose proof H as (Hcnt & Hfr)%startGame_frame.
    apply (Facts_step g s s' HF Hgid Hcnt Hfr).
    + by eapply startGame_tableFacts.
    + intros g' q Hq. rewrite Hs'. by simp_state.
    + by eapply startGame_registry.
  - pose proof H as ((Hgid & _) & _)%commitMove_Ok.
    pose proof H as (Hcnt & Hfr)%commitMove_frame.
    destruct HI as (_ & Hin & _). destruct (Hin g Hgid) as [[Hshape _] _].
    apply (Facts_step g s s' HF Hgid Hcnt Hfr).
    + by eapply commitMove_tableFacts.
    + by apply commitMove_book in H as (_ & _ & _ & _ & _ & _ & ?).
    + by eapply commitMove_registry.
  - pose proof H as ((Hgid & _) & Hs')%callUno_Ok.
    pose proof H as (Hcnt & Hfr)%callUno_frame.
    apply (Facts_step g s s' HF Hgid Hcnt (λ g' _, Hfr g')).
    + by eapply callUno_tableFacts.
    + intros g' q Hq. rewrite Hs'. by simp_state.
    + apply registryInv_same; try done; by rewrite Hs'.
  - pose proof H as ((Hgid & _) & _)%penalizeUno_Ok.
    pose proof H as (Hcnt & Hfr)%penalizeUno_frame.
    pose proof H as (Hst & _ & Ha & Hn & Hst' & _ & Hpen)%penalizeUno_book.
    apply (Facts_step g s s' HF Hgid Hcnt Hfr).
    + by eapply penalizeUno_tableFacts.
    + done.
    + apply registryInv_same; try done.
      apply (status_frame g); [done|]. by rewrite Hst', Hst.
  - pose proof H as ((Hgid & _) & _)%drawCard_Ok.
    pose proof H as (Hcnt & Hfr)%drawCard_frame.
    pose proof H as (Hst & _ & Ha & Hn & Hst' & _ & Hpen)%drawCard_book.
    apply (Facts_step g s s' HF Hgid Hcnt Hfr).
    + by eapply drawCard_tableFacts.
    + done.
    + apply registryInv_same; try done.
      apply (status_frame g); [done|]. by rewrite Hst', Hst.
Qed.

Lemma reachable_Facts s : reachable s → Facts s.
Proof.
  induction 1 as [|e a s s' Hr IH He Hcall]; [apply emptyContract_Facts|].
  apply call_Success in Hcall.
  eapply exec_Facts; [done..|by apply reachable_Inv|done].
Qed.

Lemma tableLobby_reachable : reachable tableLobby.
Proof. apply run_reachable; [solve_trace|apply reachable_init]. Qed.

Lemma tableLastCard_reachable : reachable tableLastCard.
Proof. apply run_reachable; [solve_trace|apply tableOneLeft_reachable]. Qed.

Lemma tableWon_reachable : reachable tableWon.
Proof. apply run_reachable; [solve_trace|apply tableLastCard_reachable]. Qed.

Lemma tableWindowOpen_reachable : reachable tableWindowOpen.
Proof. apply run_reachable; [solve_trace|apply tableNoCards_reachable]. Qed.

(** Property X1.  In every reachable state and for every game created:
    no participant is seated twice, there are between one and ten
    participants and at least two once the game has started, the current
    player index points at a seat, the direction is 1 or -1, the deck cursor
    lies within the deck, and unless the game has ended no skip and no
    forced draw is left pending between two calls. *)
Theorem table_is_well_formed s gid :
  reachable s → 0 < gid ≤ _gameIdCounter s →
  let g := gameAt s gid in
  NoDup (players g)
  ∧ 1 ≤ Z.of_nat (length (players g)) ≤ MAX_PLAYERS
  ∧ (status g = Started → 2 ≤ Z.of_nat (length (players g)))
  ∧ 0 ≤ currentPlayerIndex g < Z.of_nat (length (players g))
  ∧ playerAtIndex g (currentPlayerIndex g) ∈ players g
  ∧ (direction g = 1 ∨ direction g = -1)
  ∧ 0 ≤ deckIndex g ≤ ePreview.length (deck g)
  ∧ (status g ≠ Ended → skipNextPlayer g = false ∧ pendingDraws g = 0).
Proof.
  intros Hr Hgid g.
  destruct (reachable_Inv s Hr) as (_ & Hinv & _).
  destruct (Hinv gid Hgid) as [[Hshape Hset] _].
  destruct Hshape as (Hnd & Hcpi & Hn2 & Hdir & _ & Hdi & _).
  destruct (reachable_Facts s Hr) as (Ht & _).
  destruct (Ht gid Hgid) as (Hn & _).
  split_and!; try done; try apply Hn; try apply Hcpi; try apply Hdi.
  by apply playerAtIndex_elem.
Qed.

Lemma table_is_well_formed_witness :
  players (gameAt tableOneLeft 1) = [alice; bob]
  ∧ playerAtIndex (gameAt tableOneLeft 1)
      (currentPlayerIndex (gameAt tableOneLeft 1)) ∈ players (gameAt tableOneLeft 1)
  ∧ skipNextPlayer (gameAt tableOneLeft 1) = false.
Proof.
  destruct (table_is_well_formed tableOneLeft 1 tableOneLeft_reachable)
    as (_ & _ & _ & _ & Hin & _ & _ & Hset).
  - vm_compute. split; [reflexivity|discriminate].
  - split_and!; [vm_compute; reflexivity|exact Hin|].
    apply Hset. vm_compute. discriminate.
Defined.

Lemma total_lengths (ps : list Z) (h : Z → list Z) :
  total (map (λ p, ePreview.length (h p)) ps) = ePreview.length (ps ≫= h).
Proof.
  unfold ePreview.length. induction ps as [|p ps IH]; [done|].
  rewrite bind_cons, length_app. simpl. rewrite IH. lia.
Qed.

(** Property X2.  In every reachable state the hands of the participants,
    the cards of the deck from the cursor on and the moves list of a game
    hold, together with one further card, exactly the ids 0 to 107, each
    once.  The further card is the one turned over by [createGame]: it is
    the top card until the first play.  Once a card has been played the top
    card is the last entry of the moves list.  In particular no id occurs
    twice among hands, draw pile and moves list. *)
Theorem ledger_is_conserved s gid :
  reachable s → 0 < gid ≤ _gameIdCounter s →
  let g := gameAt s gid in
  let cards := allHands s gid ++ drawPile g ++ moves g in
  (∃ c0, c0 :: cards ≡ₚ canonicalIds ∧ (moves g = [] → topCard g = c0))
  ∧ (moves g ≠ [] → last (moves g) = Some (topCard g))
  ∧ NoDup cards
  ∧ (∀ c, c ∈ cards → 0 ≤ c < DECK_SIZE).
Proof.
  intros Hr Hgid g cards.
  destruct (reachable_Inv s Hr) as (_ & Hinv & _).
  destruct (Hinv gid Hgid) as [_ (c0 & Hperm & Hfirst & Hlast)].
  fold g in Hfirst, Hlast. unfold ledger in Hperm. fold g cards in Hperm.
  assert (Hnd : NoDup (c0 :: cards)).
  { rewrite Hperm. apply NoDup_seqZ. }
  split_and!.
  - by exists c0.
  - done.
  - by apply NoDup_cons in Hnd as [_ ?].
  - intros c Hc. assert (Hin : c ∈ c0 :: cards) by (by right).
    rewrite Hperm in Hin. apply elem_of_seqZ in Hin. unfold DECK_SIZE in *. lia.
Qed.

Lemma ledger_is_conserved_witness :
  let g := gameAt tableOneLeft 1 in
  100 :: allHands tableOneLeft 1 ++ drawPile g ++ moves g ≡ₚ canonicalIds
  ∧ last (moves g) = Some (topCard g).
Proof.
  cbv zeta.
  destruct (ledger_is_conserved tableOneLeft 1 tableOneLeft_reachable)
    as (_ & Hlast & _).
  - vm_compute. split; [reflexivity|discriminate].
  - split; [|apply Hlast; vm_compute; discriminate].
    apply (bool_decide_eq_true_1 _). vm_compute. reflexivity.
Defined.

(** Property X3.  [getAllPlayerHandSizes] returns the participants in
    seating order with one size for each, and in every reachable state the
    sizes, the cards left in the draw pile and the length of the moves list
    add up to 107.  As long as the deck is the deck of 108 cards that
    [createGame] shuffled, [getGame] succeeds and the [deckRemaining] it
    reports is the number of cards left to draw. *)
Theorem card_counts_add_up s gid :
  reachable s → 0 < gid ≤ _gameIdCounter s →
  let g := gameAt s gid in
  let sizes := (getAllPlayerHandSizes s gid).2 in
  (getAllPlayerHandSizes s gid).1 = players g
  ∧ length sizes = length (players g)
  ∧ (∀ i p, players g !! i = Some p →
            sizes !! i = Some (getPlayerHandSize s gid p))
  ∧ total sizes + ePreview.length (drawPile g) + ePreview.length (moves g)
    = DECK_SIZE - 1
  ∧ (ePreview.length (deck g) = DECK_SIZE →
     ∃ v, getGame gid s = Ok (v, s)
          ∧ view_deckRemaining v = ePreview.length (drawPile g)
          ∧ view_moveCount v = ePreview.length (moves g)
          ∧ total sizes + view_deckRemaining v + view_moveCount v
            = DECK_SIZE - 1).
Proof.
  intros Hr Hgid g sizes.
  destruct (reachable_Inv s Hr) as (_ & Hinv & _).
  destruct (Hinv gid Hgid) as [[Hshape _] (c0 & Hperm & _)].
  destruct Hshape as (_ & _ & _ & _ & _ & Hdi & _). fold g in Hdi.
  assert (Hsum : total sizes + ePreview.length (drawPile g)
                 + ePreview.length (moves g) = DECK_SIZE - 1).
  { apply Permutation_length in Hperm.
    unfold canonicalIds in Hperm. rewrite length_seqZ in Hperm.
    unfold ledger in Hperm. fold g in Hperm.
    simpl in Hperm. rewrite !length_app in Hperm.
    unfold sizes, getAllPlayerHandSizes. simpl. fold g.
    rewrite total_lengths. unfold allHands in Hperm. fold g in Hperm.
    unfold ePreview.length, DECK_SIZE in *. lia. }
  split_and!.
  - done.
  - unfold sizes, getAllPlayerHandSizes. simpl. by rewrite length_map.
  - intros i p Hp. unfold sizes, getAllPlayerHandSizes. simpl. fold g.
    by rewrite list_lookup_fmap, Hp.
  - done.
  - intros Hfull. unfold getGame. mrun. fold g.
    rewrite (proj2 (Z.leb_le _ _)) by lia. mrun.
    eexists. split; [reflexivity|]. simpl.
    assert (Hrem : DECK_SIZE - deckIndex g = ePreview.length (drawPile g)).
    { unfold drawPile, ePreview.length in *. rewrite length_drop. lia. }
    rewrite Hrem. split_and!; try done.
Qed.

Lemma card_counts_add_up_witness :
  getAllPlayerHandSizes tableOneLeft 1 = ([alice; bob], [1; 24])
  ∧ ∃ v, getGame 1 tableOneLeft = Ok (v, tableOneLeft)
         ∧ view_deckRemaining v = 76 ∧ view_moveCount v = 6
         ∧ 1 + 24 + 76 + 6 = DECK_SIZE - 1.
Proof.
  split; [vm_compute; reflexivity|].
  destruct (card_counts_add_up tableOneLeft 1 tableOneLeft_reachable)
    as (_ & _ & _ & _ & Hview).
  - vm_compute. split; [reflexivity|discriminate].
  - destruct Hview as (v & Hv & Hrem & Hcount & _); [vm_compute; reflexivity|].
    exists v. split_and!; [exact Hv| | |vm_compute; reflexivity].
    + etrans; [exact Hrem|vm_compute; reflexivity].
    + etrans; [exact Hcount|vm_compute; reflexivity].
Defined.

(** Property X4.  In every reachable state [getNotStartedGames] lists
    exactly the games created that have not started and [getActiveGames]
    exactly the games that are Started, each once; a game that has ended is
    in neither list. *)
Theorem registries_list_games_by_status s :
  reachable s →
  NoDup (getNotStartedGames s) ∧ NoDup (getActiveGames s)
  ∧ ∀ gid,
      (gid ∈ getNotStartedGames s ↔
       0 < gid ≤ _gameIdCounter s ∧ status (gameAt s gid) = NotStarted)
      ∧ (gid ∈ getActiveGames s ↔
         0 < gid ≤ _gameIdCounter s ∧ status (gameAt s gid) = Started)
      ∧ (status (gameAt s gid) = Ended →
         (gid ∉ getNotStartedGames s) ∧ (gid ∉ getActiveGames s)).
Proof.
  intros Hr. destruct (reachable_Facts s Hr) as (_ & _ & Hreg).
  destruct Hreg as (Hnd1 & Hnd2 & Hm1 & Hm2).
  split_and!; try done. intros gid. split_and!; try done.
  intros Hend. split.
  - intros [_ H1]%Hm1. congruence.
  - intros [_ H2]%Hm2. congruence.
Qed.

Lemma registries_list_games_by_status_witness :
  getNotStartedGames tableWon = [] ∧ getActiveGames tableWon = []
  ∧ status (gameAt tableWon 1) = Ended
  ∧ (1 ∉ getActiveGames tableWon).
Proof.
  destruct (registries_list_games_by_status tableWon tableWon_reachable)
    as (_ & _ & Hall).
  destruct (Hall 1) as (_ & _ & Hend).
  assert (Hst : status (gameAt tableWon 1) = Ended) by (vm_compute; reflexivity).
  split_and!; [vm_compute; reflexivity|vm_compute; reflexivity|exact Hst|].
  by apply Hend.
Defined.

(** Property X5.  [_removeFromActiveGames] and [_removeFromNotStartedGames]
    never revert.  When the id is in the list they remove exactly one
    occurrence of it and keep every other entry (the order may change);
    when it is not in the list they change nothing.  Nothing but the list
    concerned is written: the storage afterwards is the storage before with
    that list replaced. *)
Theorem registry_removal gid s :
  (∃ s', _removeFromActiveGames gid s = Ok ((), s')
     ∧ (gid ∈ _activeGames s → gid :: _activeGames s' ≡ₚ _activeGames s)
     ∧ ((gid ∉ _activeGames s) → s' = s)
     ∧ _notStartedGames s' = _notStartedGames s
     ∧ games s' = games s ∧ playerHands s' = playerHands s
     ∧ s' = with_activeGames (_activeGames s') s)
  ∧ (∃ s', _removeFromNotStartedGames gid s = Ok ((), s')
       ∧ (gid ∈ _notStartedGames s →
          gid :: _notStartedGames s' ≡ₚ _notStartedGames s)
       ∧ ((gid ∉ _notStartedGames s) → s' = s)
       ∧ _activeGames s' = _activeGames s
       ∧ games s' = games s ∧ playerHands s' = playerHands s
       ∧ s' = with_notStartedGames (_notStartedGames s') s).
Proof.
  split.
  - eexists. split; [reflexivity|]. simpl. split_and!; try done.
    + apply swapRemove_present.
    + intros Hx. rewrite swapRemove_absent by done. by destruct s.
  - eexists. split; [reflexivity|]. simpl. split_and!; try done.
    + apply swapRemove_present.
    + intros Hx. rewrite swapRemove_absent by done. by destruct s.
Qed.

(** Property X6.  In every reachable state, every participant of a game
    that has not ended holds at least one card; a game that has ended has a
    winner among its participants, and the winner's hand is empty. *)
Theorem hands_and_winner s gid :
  reachable s → 0 < gid ≤ _gameIdCounter s →
  let g := gameAt s gid in
  (status g ≠ Ended →
   ∀ p, p ∈ players g → 1 ≤ getPlayerHandSize s gid p)
  ∧ (status g = Ended →
     winner g ∈ players g ∧ getPlayerHandSize s gid (winner g) = 0).
Proof.
  intros Hr Hgid g. destruct (reachable_Facts s Hr) as (Ht & _).
  destruct (Ht gid Hgid) as (_ & _ & _ & Hne & Hend & _). fold g in Hne, Hend.
  unfold getPlayerHandSize, ePreview.length. split.
  - intros Hst p Hp. specialize (Hne Hst p Hp).
    destruct (handAt s gid p); [done|]. simpl. lia.
  - intros Hst. destruct (Hend Hst) as [Hw Hh]. by rewrite Hh.
Qed.

Lemma hands_and_winner_witness :
  winner (gameAt tableWon 1) = alice
  ∧ winner (gameAt tableWon 1) ∈ players (gameAt tableWon 1)
  ∧ getPlayerHandSize tableWon 1 (winner (gameAt tableWon 1)) = 0.
Proof.
  destruct (hands_and_winner tableWon 1 tableWon_reachable) as [_ Hend].
  - vm_compute. split; [reflexivity|discriminate].
  - split; [vm_compute; reflexivity|].
    apply Hend. vm_compute. reflexivity.
Defined.

(** Property X7.  In every reachable state an open challenge window belongs
    to a Started game, its subject is a participant who holds exactly one
    card, and no penalty flag is set: [canPenalizePlayer] is true exactly
    for the subject of an open window, so the refusal
    [Penalty already applied] of [penalizeUno] never occurs. *)
Theorem challenge_window_is_sound s gid :
  reachable s → 0 < gid ≤ _gameIdCounter s →
  let g := gameAt s gid in
  (isUnoWindowOpen s gid = true →
   status g = Started
   ∧ getUnoWindowPlayer s gid ∈ players g
   ∧ getPlayerHandSize s gid (getUnoWindowPlayer s gid) = 1)
  ∧ (∀ p, penaltyAt s gid p = false)
  ∧ (∀ target, canPenalizePlayer s gid target
               = isUnoWindowOpen s gid
                 && bool_decide (getUnoWindowPlayer s gid = target))
  ∧ (∀ e target msg,
       validEnv e →
       call e (PenalizeUno gid target) s = (s, Reverted msg) →
       msg ≠ "Penalty already applied").
Proof.
  intros Hr Hgid g.
  destruct (reachable_Inv s Hr) as (_ & Hinv & _).
  destruct (Hinv gid Hgid) as [[Hshape _] _].
  destruct Hshape as (_ & _ & _ & _ & Hsub & Hpile).
  destruct (reachable_Facts s Hr) as (Ht & Hpen & _).
  destruct (Ht gid Hgid) as (_ & _ & _ & _ & _ & Hwin).
  unfold isUnoWindowOpen, getUnoWindowPlayer, getPlayerHandSize, canPenalizePlayer.
  split_and!.
  - intros Hw. destruct (Hwin Hw) as [Hst Hone]. split_and!; auto.
  - intros p. apply Hpen.
  - intros target. rewrite Hpen. simpl. by rewrite andb_true_r.
  - intros e target msg He Hcall ->. apply call_Reverted in Hcall as [Hrev _].
    simpl in Hrev. revert Hrev. unfold penalizeUno.
    rewrite bind_validateGame.
    destruct (negb _); [done|]. destruct (negb _); [done|].
    rewrite bind_onlyPlayer. destruct (negb _); [done|].
    mrun.
    destruct (bool_decide (msg_sender e = target)); simpl; [done|].
    destruct (inco_getFee e * 2 <=? msg_value e); simpl; [|done].
    destruct (windowOpenAt s gid); simpl; [|done].
    destruct (bool_decide (windowPlayerAt s gid = target)); simpl; [|done].
    rewrite Hpen. simpl.
    assert (Hp : pileInv (gameAt (setPenalty gid target true
                                    (setWindowOpen gid false s)) gid))
      by (by simp_state).
    destruct (forceDrawCards_outcome e gid target 2 _ He Hp)
      as [[[s1 ->]| ->] _]; done.
Qed.

Lemma challenge_window_is_sound_witness :
  isUnoWindowOpen tableOneLeft 1 = true
  ∧ getUnoWindowPlayer tableOneLeft 1 = alice
  ∧ getPlayerHandSize tableOneLeft 1 (getUnoWindowPlayer tableOneLeft 1) = 1
  ∧ canPenalizePlayer tableOneLeft 1 alice = true
  ∧ canPenalizePlayer tableOneLeft 1 bob = false.
Proof.
  destruct (challenge_window_is_sound tableOneLeft 1 tableOneLeft_reachable)
    as (Hopen & _ & Hcan & _).
  - vm_compute. split; [reflexivity|discriminate].
  - destruct Hopen as (_ & _ & Hone); [vm_compute; reflexivity|].
    split_and!; [vm_compute; reflexivity|vm_compute; reflexivity|exact Hone| |].
    + rewrite Hcan. vm_compute. reflexivity.
    + rewrite Hcan. vm_compute. reflexivity.
Defined.


(** ** Playability *)

Lemma isCardPlayable_spec id top col :
  isCardPlayable id top col = true ↔
  WILD_START ≤ id
  ∨ _getCardColor id = col
  ∨ (_getCardType id = _getCardType top
     ∧ (_getCardType id ≠ CARD_TYPE_NUMBER
        ∨ _getCardValue id = _getCardValue top)).
Proof.
  unfold isCardPlayable, _isCardPlayableInternal.
  destruct (Z.leb_spec WILD_START id) as [Hw|Hw]; [by split; [left|]|].
  destruct (Z.eqb_spec (_getCardColor id) col) as [Hc|Hc]; [by split; [right; left|]|].
  destruct (Z.eqb_spec (_getCardType id) (_getCardType top)) as [Ht|Ht]; simpl.
  - rewrite <- Ht.
    destruct (Z.eqb_spec (_getCardType id) CARD_TYPE_NUMBER) as [Hn|Hn]; simpl.
    + destruct (Z.eqb_spec (_getCardValue id) (_getCardValue top)) as [Hv|Hv].
      * split; [intros _; right; right; auto|done].
      * split; [done|]. intros [?|[?|[_ [?|?]]]]; try done; lia.
    + split; [intros _; right; right; auto|done].
  - assert ((_getCardType id =? CARD_TYPE_NUMBER)
            && (_getCardType top =? CARD_TYPE_NUMBER) = true
            → False) as Hboth.
    { intros [H1%Z.eqb_eq H2%Z.eqb_eq]%andb_true_iff. congruence. }
    destruct ((_getCardType id =? CARD_TYPE_NUMBER)
              && (_getCardType top =? CARD_TYPE_NUMBER)); [by destruct Hboth|].
    split; [done|]. intros [?|[?|[? _]]]; try done; lia.
Qed.

Lemma getCardType_wild id : WILD_START ≤ id ↔ CARD_TYPE_WILD ≤ _getCardType id.
Proof.
  unfold _getCardType, WILD_START, NUMBER_CARDS_END, SKIP_END, REVERSE_END,
    DRAW_TWO_END, WILD_END, CARD_TYPE_WILD, CARD_TYPE_NUMBER, CARD_TYPE_SKIP,
    CARD_TYPE_REVERSE, CARD_TYPE_DRAW_TWO, CARD_TYPE_WILD_DRAW_FOUR.
  repeat case_match; lia.
Qed.

(** Property X8.  In every reachable state, when the top card of a game is
    not a wild card the colour in force is the colour of the top card, and
    a card is playable exactly when it is a wild card, has the colour of the
    top card, is an action card of the same kind as the top card, or is a
    number card of the same value.  When a wild card is on top, a card that
    is not wild is playable exactly when it has the colour in force. *)
Theorem colour_follows_top_card s gid :
  reachable s → 0 < gid ≤ _gameIdCounter s →
  let g := gameAt s gid in
  let top := topCardId g in
  (top < WILD_START →
   currentColor g = _getCardColor top
   ∧ ∀ id, isCardPlayable id top (currentColor g) = true ↔
           WILD_START ≤ id
           ∨ _getCardColor id = _getCardColor top
           ∨ (_getCardType id = _getCardType top
              ∧ (_getCardType id ≠ CARD_TYPE_NUMBER
                 ∨ _getCardValue id = _getCardValue top)))
  ∧ (WILD_START ≤ top →
     ∀ id, id < WILD_START →
           isCardPlayable id top (currentColor g) = true ↔
           _getCardColor id = currentColor g).
Proof.
  intros Hr Hgid g top.
  destruct (reachable_Facts s Hr) as (Ht & _).
  destruct (Ht gid Hgid) as (_ & Hcol & _). fold g top in Hcol.
  split.
  - intros Htop. specialize (Hcol Htop). split; [done|].
    intros id. rewrite isCardPlayable_spec. by rewrite Hcol.
  - intros Htop id Hid. rewrite isCardPlayable_spec.
    apply getCardType_wild in Htop.
    assert (¬ CARD_TYPE_WILD ≤ _getCardType id) by (rewrite <- getCardType_wild; lia).
    split; [|by right; left].
    intros [?|[?|[? _]]]; [lia|done|lia].
Qed.

Lemma colour_follows_top_card_witness :
  topCardId (gameAt tableLobby 1) = 100
  ∧ currentColor (gameAt tableLobby 1) = RED
  ∧ isCardPlayable 18 (topCardId (gameAt tableLobby 1))
      (currentColor (gameAt tableLobby 1)) = true
  ∧ isCardPlayable 19 (topCardId (gameAt tableLobby 1))
      (currentColor (gameAt tableLobby 1)) = false.
Proof.
  destruct (colour_follows_top_card tableLobby 1 tableLobby_reachable)
    as [_ Hwild].
  - vm_compute. split; [reflexivity|discriminate].
  - assert (Htop : WILD_START ≤ topCardId (gameAt tableLobby 1))
      by (vm_compute; discriminate).
    split_and!; [vm_compute; reflexivity|vm_compute; reflexivity| |].
    + apply (Hwild Htop 18); [unfold WILD_START; lia|vm_compute; reflexivity].
    + apply not_true_is_false. intros Hp.
      apply (Hwild Htop 19) in Hp; [|unfold WILD_START; lia].
      revert Hp. vm_compute. discriminate.
Defined.

(** Property X9.  In every reachable state [canPenalizePlayer] tells a
    participant of a Started game whether a challenge will be heard: when
    it is false, a [penalizeUno] on that target with the fee attached is
    refused, because the window is closed or belongs to someone else, and
    the storage stays as it was; when it is true the call goes through
    unless the deck and the moves list cannot supply the two cards. *)
Theorem canPenalizePlayer_predicts e gid target s :
  reachable s → validEnv e →
  0 < gid ≤ _gameIdCounter s → status (gameAt s gid) = Started →
  msg_sender e ∈ players (gameAt s gid) → msg_sender e ≠ target →
  inco_getFee e * 2 ≤ msg_value e →
  let res := call e (PenalizeUno gid target) s in
  (canPenalizePlayer s gid target = false →
   res = (s, Reverted "Challenge window not open")
   ∨ res = (s, Reverted "Target not in challenge window"))
  ∧ (canPenalizePlayer s gid target = true →
     res.2 = Success ∨ res = (s, Reverted noReshuffle)).
Proof.
  intros Hr He Hgid Hst Hin Hne Hfee res.
  destruct (reachable_Inv s Hr) as (_ & Hinv & _).
  destruct (Hinv gid Hgid) as [[Hshape _] _].
  destruct (reachable_Facts s Hr) as (_ & Hpen & _).
  destruct (penalizeUno_refusals e gid target s Hgid Hst Hin) as [_ Href].
  destruct (Href Hne Hfee) as (Hclosed & Hother & _).
  unfold canPenalizePlayer. rewrite Hpen, andb_true_r. split.
  - intros Hcan. destruct (windowOpenAt s gid) eqn:Hw; [|left; by apply Hclosed].
    right. apply Hother; [done|]. simpl in Hcan.
    by apply bool_decide_eq_false in Hcan.
  - intros [Hw Hsub%bool_decide_eq_true]%andb_true_iff.
    assert (Herr : penalizeUnoError e gid target s = None).
    { unfold penalizeUnoError.
      rewrite (proj2 (Z.ltb_lt 0 gid)), (proj2 (Z.leb_le gid _)) by lia.
      rewrite (bool_decide_eq_true_2 _ Hst), (bool_decide_eq_true_2 _ Hin).
      rewrite (bool_decide_eq_false_2 _ Hne).
      rewrite (proj2 (Z.leb_le _ _) Hfee), Hw. simpl.
      by rewrite (bool_decide_eq_true_2 _ Hsub), Hpen. }
    destruct (penalizeUno_outcome e gid target s He Hshape Herr) as [[[s' Hs']|Hrev] _].
    + left. unfold res. by rewrite (proj2 (call_Success e (PenalizeUno gid target) s s') Hs').
    + right. by apply call_Reverted.
Qed.

Lemma canPenalizePlayer_predicts_witness :
  canPenalizePlayer tableOneLeft 1 alice = true
  ∧ (call (asPlayer bob) (PenalizeUno 1 alice) tableOneLeft).2 = Success
  ∧ canPenalizePlayer tablePenalized 1 alice = false.
Proof.
  assert (Hcan : canPenalizePlayer tableOneLeft 1 alice = true)
    by (vm_compute; reflexivity).
  destruct (canPenalizePlayer_predicts (asPlayer bob) 1 alice tableOneLeft)
    as [_ Hyes].
  - apply tableOneLeft_reachable.
  - apply asPlayer_valid.
  - vm_compute. split; [reflexivity|discriminate].
  - vm_compute. reflexivity.
  - apply (bool_decide_eq_true_1 _). vm_compute. reflexivity.
  - vm_compute. discriminate.
  - vm_compute. discriminate.
  - split_and!; [exact Hcan| |vm_compute; reflexivity].
    destruct (Hyes Hcan) as [Hs|Hrev]; [exact Hs|].
    apply (f_equal snd) in Hrev. revert Hrev. vm_compute. discriminate.
Defined.

(** ** The life cycle *)

Lemma sameGame_lifecycle gid s s' :
  sameGame gid s s' →
  gameAt s' gid = gameAt s gid ∧ ∀ p, handAt s' gid p = handAt s gid p.
Proof. by intros (? & ? & _). Qed.

(** Property X10.  A successful call never moves a game backwards: the
    counter of game ids does not decrease, the status of every game created
    stays or advances from NotStarted to Started to Ended, the participants
    of a game can only be extended at the end while it has not started and
    are fixed afterwards, and a game that has ended is never written
    again, neither its record nor a hand. *)
Theorem lifecycle_moves_forward e a s s' gid :
  call e a s = (s', Success) → 0 < gid ≤ _gameIdCounter s →
  let g := gameAt s gid in
  let g' := gameAt s' gid in
  _gameIdCounter s ≤ _gameIdCounter s'
  ∧ statusRank (status g) ≤ statusRank (status g')
  ∧ (∃ joined, players g' = players g ++ joined
               ∧ (status g ≠ NotStarted → joined = []))
  ∧ (status g = Ended → g' = g ∧ ∀ p, handAt s' gid p = handAt s gid p).
Proof.
  intros Hcall Hgid g g'. subst g g'. apply call_Success in Hcall.
  pose proof (exec_counter _ _ _ _ Hcall) as Hcnt.
  split; [done|].
  assert (Hsame : sameGame gid s s' →
    statusRank (status (gameAt s gid)) ≤ statusRank (status (gameAt s' gid))
    ∧ (∃ joined, players (gameAt s' gid) = players (gameAt s gid) ++ joined
                 ∧ (status (gameAt s gid) ≠ NotStarted → joined = []))
    ∧ (status (gameAt s gid) = Ended →
       gameAt s' gid = gameAt s gid ∧ ∀ p, handAt s' gid p = handAt s gid p)).
  { intros [Hg Hh]%sameGame_lifecycle. rewrite Hg.
    split_and!; [lia| |done]. exists []. by rewrite app_nil_r. }
  destruct a as [c t|g0 j|g0|g0 i r c|g0|g0 t|g0 b]; simpl in Hcall.
  - apply bind_Ok in Hcall as (n & s1 & H & [= <-]).
    apply createGame_Ok in H
      as (-> & _ & _ & _ & top & _ & _ & _ & _ & _ & _ & Hgo & Hho & _ & _ & Hwo & Hwp).
    apply Hsame. split_and!; [apply Hgo; lia| |apply Hwo|apply Hwp].
    intros p. apply Hho. intros [= -> _]. lia.
  - destruct (decide (gid = g0)) as [->|Hne].
    2:{ apply joinGame_frame in Hcall as [_ Hf]. by apply Hsame, Hf. }
    apply joinGame_Ok in Hcall as ((_ & Hst & _) & ->).
    simp_state. simpl_game. rewrite Hst. simpl.
    split_and!; [lia| |done]. exists [j]. split; [done|by intros []].
  - destruct (decide (gid = g0)) as [->|Hne].
    2:{ apply startGame_frame in Hcall as [_ Hf]. by apply Hsame, Hf. }
    apply startGame_Ok in Hcall as ((_ & Hst & _) & ->).
    simp_state. simpl_game. rewrite Hst. simpl.
    split_and!; [lia| |done]. exists []. by rewrite app_nil_r.
  - destruct (decide (gid = g0)) as [->|Hne].
    2:{ apply commitMove_frame in Hcall as [_ Hf]. by apply Hsame, Hf. }
    apply commitMove_book in Hcall as (Hst & _ & _ & Hpl & Hst' & _).
    rewrite Hst, Hst', Hpl.
    split_and!; [by destruct (_ =? 1)| |done].
    exists []. by rewrite app_nil_r.
  - apply callUno_frame in Hcall as [_ Hf]. by apply Hsame, Hf.
  - destruct (decide (gid = g0)) as [->|Hne].
    2:{ apply penalizeUno_frame in Hcall as [_ Hf]. by apply Hsame, Hf. }
    apply penalizeUno_book in Hcall as (Hst & _ & _ & _ & Hst' & Hpl & _).
    rewrite Hst, Hst', Hpl.
    split_and!; [done| |done]. exists []. by rewrite app_nil_r.
  - destruct (decide (gid = g0)) as [->|Hne].
    2:{ apply drawCard_frame in Hcall as [_ Hf]. by apply Hsame, Hf. }
    apply drawCard_book in Hcall as (Hst & _ & _ & _ & Hst' & Hpl & _).
    rewrite Hst, Hst', Hpl.
    split_and!; [done| |done]. exists []. by rewrite app_nil_r.
Qed.

Lemma lifecycle_moves_forward_witness :
  let res := call (asPlayer alice) (CreateGame alice 0) tableWon in
  status (gameAt tableWon 1) = Ended
  ∧ res.2 = Success
  ∧ gameAt res.1 1 = gameAt tableWon 1
  ∧ handAt res.1 1 bob = handAt tableWon 1 bob.
Proof.
  cbv zeta.
  assert (Hs : (call (asPlayer alice) (CreateGame alice 0) tableWon).2 = Success)
    by (vm_compute; reflexivity).
  assert (Hst : status (gameAt tableWon 1) = Ended) by (vm_compute; reflexivity).
  destruct (lifecycle_moves_forward (asPlayer alice) (CreateGame alice 0)
              tableWon _ 1 (call_outcome _ _ _ _ Hs))
    as (_ & _ & _ & Hfrozen).
  - vm_compute. split; [reflexivity|discriminate].
  - destruct (Hfrozen Hst) as [Hg Hh].
    split_and!; [exact Hst|exact Hs|exact Hg|exact (Hh bob)].
Defined.

(** ** Turn order *)

Lemma nextIndex_neighbour g :
  nextIndex g
  = neighbour (direction g) (Z.of_nat (length (players g))) (currentPlayerIndex g).
Proof. reflexivity. Qed.

Lemma cardEffect_turn rid g :
  direction (cardEffect (_getCardType rid) g) = directionAfter rid (direction g)
  ∧ (skipNextPlayer g = false →
     skipNextPlayer (cardEffect (_getCardType rid) g)
     = skipsNext rid (Z.of_nat (length (players g))))
  ∧ (pendingDraws g = 0 →
     pendingDraws (cardEffect (_getCardType rid) g) = forcedDraws rid).
Proof.
  unfold cardEffect, directionAfter, skipsNext, forcedDraws.
  generalize (_getCardType rid). intros ct.
  unfold CARD_TYPE_SKIP, CARD_TYPE_REVERSE, CARD_TYPE_DRAW_TWO,
    CARD_TYPE_WILD_DRAW_FOUR.
  destruct (Z.eqb_spec ct 1) as [->|H1]; [by split_and!|].
  destruct (Z.eqb_spec ct 2) as [->|H2].
  { simpl. destruct (_ =? 2); by split_and!. }
  destruct (Z.eqb_spec ct 3) as [->|H3]; [by split_and!|].
  destruct (Z.eqb_spec ct 5) as [->|H5]; [by split_and!|].
  by split_and!.
Qed.

(** Property X11.  After a successful [commitMove] that does not empty the
    hand, in a reachable state: the direction is reversed exactly by a
    Reverse card; the turn passes to the neighbour in the direction of play,
    or to the neighbour's neighbour when the card is a Skip, a Draw Two, a
    Wild Draw Four or, between two players, a Reverse; the neighbour that
    is passed over receives two cards for a Draw Two and four for a Wild
    Draw Four at the end of the hand, and nothing otherwise; no other hand
    but the player's own changes, and no skip or forced draw is left
    pending. *)
Theorem turn_passes_in_order e gid i rid cc s s' :
  reachable s → validEnv e →
  call e (CommitMove gid i rid cc) s = (s', Success) →
  2 ≤ ePreview.length (handAt s gid (msg_sender e)) →
  let g := gameAt s gid in
  let g' := gameAt s' gid in
  let n := Z.of_nat (length (players g)) in
  let dir := directionAfter rid (direction g) in
  let next := neighbour dir n (currentPlayerIndex g) in
  let victim := playerAtIndex g next in
  direction g' = dir
  ∧ currentPlayerIndex g'
    = (if skipsNext rid n then neighbour dir n next else next)
  ∧ status g' = Started
  ∧ skipNextPlayer g' = false ∧ pendingDraws g' = 0
  ∧ victim ≠ msg_sender e
  ∧ (∃ cs, handAt s' gid victim = handAt s gid victim ++ cs
           ∧ Z.of_nat (length cs)
             = (if skipsNext rid n then forcedDraws rid else 0))
  ∧ (∀ q, q ≠ msg_sender e → q ≠ victim →
          handAt s' gid q = handAt s gid q).
Proof.
  intros Hr He Hcall Hlen g g' n dir next victim.
  pose proof (reachable_step _ _ _ _ Hr He Hcall) as Hr'.
  apply call_Success in Hcall. simpl in Hcall.
  apply commitMove_Ok in Hcall as (Hchk & sp & Hpl & Hfin).
  destruct Hchk as (Hgid & Hst & Hin & _ & Hc0 & Hcur & _).
  destruct (reachable_Inv s Hr) as (_ & Hinv & _).
  destruct (Hinv gid Hgid) as [[Hshape Hset] _].
  destruct Hshape as (Hnd & Hcpi & Hn2 & _).
  destruct Hset as [Hskip Hpd]; [by rewrite Hst|].
  destruct Hpl as (c & Hc & Hm & Hg & _).
  fold g in Hg, Hst, Hin, Hc0, Hcur, Hnd, Hcpi, Hn2, Hskip, Hpd.
  set (gsp := gameAt sp gid) in *.
  destruct (cardEffect_fields (_getCardType rid) (placed c rid cc g))
    as (_ & Hf_pl & Hf_st & _ & _ & _ & _ & _ & _ & _ & Hf_cpi & _).
  destruct (cardEffect_turn rid (placed c rid cc g)) as (Hdir & Hsk & Hdraw).
  specialize (Hsk Hskip). specialize (Hdraw Hpd).
  rewrite <- Hg in Hf_pl, Hf_st, Hf_cpi, Hdir, Hsk, Hdraw.
  simpl in Hf_pl, Hf_st, Hf_cpi, Hdir, Hsk. fold n in Hsk.
  fold dir in Hdir.
  assert (Hnext : nextIndex gsp = next).
  { rewrite nextIndex_neighbour. by rewrite Hdir, Hf_pl, Hf_cpi. }
  rewrite finishMove_advance in Hfin by lia.
  apply advance_summary in Hfin
    as (cs & d & di & m & Hmod & Hg' & Hh & Hcs & _).
  fold gsp in Hg', Hh, Hcs, Hmod. rewrite Hnext in Hg', Hh, Hmod.
  assert (Hvic : playerAtIndex gsp next = victim).
  { unfold playerAtIndex, victim. by rewrite Hf_pl. }
  rewrite Hvic in Hh, Hmod.
  assert (Hne : victim ≠ msg_sender e).
  { rewrite <- Hvic, <- Hnext.
    apply next_player_differs; rewrite ?Hf_pl, ?Hf_cpi; auto. }
  assert (Hothers : ∀ q, q ≠ msg_sender e → handAt sp gid q = handAt s gid q).
  { intros q Hq. apply (mod_hand _ _ _ _ _ Hm). by right. }
  destruct (reachable_Inv s' Hr') as (_ & Hinv' & _).
  assert (Hgid' : 0 < gid ≤ _gameIdCounter s').
  { rewrite (mod_counter _ _ _ _ _ Hmod), (mod_counter _ _ _ _ _ Hm). done. }
  destruct (Hinv' gid Hgid') as [[_ Hset'] _].
  assert (Hst' : status g' = Started).
  { unfold g'. rewrite Hg'. simpl_game. by rewrite Hf_st. }
  destruct Hset' as [Hskip' Hpd']; [fold g'; by rewrite Hst'|].
  split_and!; try done.
  - unfold g'. rewrite Hg'. simpl_game. done.
  - unfold g'. rewrite Hg'. simpl_game. rewrite Hsk.
    destruct (skipsNext rid n); [|done].
    rewrite nextIndex_neighbour. simpl_game. by rewrite Hdir, Hf_pl.
  - exists cs. rewrite Hh, Hothers by done. split; [done|].
    rewrite Hcs, Hsk, Hdraw. pose proof (forcedDraws_nonneg rid).
    destruct (skipsNext rid n); simpl; [|done].
    destruct (Z.ltb_spec 0 (forcedDraws rid)); lia.
  - intros q Hq1 Hq2. rewrite (mod_hand _ _ _ _ _ Hmod) by (by right).
    by apply Hothers.
Qed.

(** Alice plays a wild draw four between two players: bob draws four cards
    and alice is to move again. *)
Lemma turn_passes_in_order_witness :
  let res := call (asPlayer alice) (CommitMove 1 0 107 0) tableStarted in
  res.2 = Success
  ∧ currentPlayerIndex (gameAt res.1 1) = 0
  ∧ ∃ cs, handAt res.1 1 bob = handAt tableStarted 1 bob ++ cs
          ∧ Z.of_nat (length cs) = 4.
Proof.
  cbv zeta.
  assert (Hlen : 2 ≤ ePreview.length
                   (handAt tableStarted 1 (msg_sender (asPlayer alice))))
    by (vm_compute; intros H; inversion H).
  assert (Hs : (call (asPlayer alice) (CommitMove 1 0 107 0) tableStarted).2
               = Success) by (vm_compute; reflexivity).
  pose proof (turn_passes_in_order (asPlayer alice) 1 0 107 0 tableStarted _
              tableStarted_reachable (asPlayer_valid alice)
              (call_outcome _ _ _ _ Hs) Hlen) as H.
  cbv zeta in H.
  destruct H as (_ & Hcpi & _ & _ & _ & _ & (cs & Hh & Hn) & _).
  match type of Hh with
  | handAt _ _ ?v = _ =>
      assert (Hv : v = bob) by (vm_compute; reflexivity); rewrite Hv in Hh
  end.
  split; [exact Hs|]. split.
  - match type of Hcpi with
    | _ = ?v => assert (Hc : v = 0) by (vm_compute; reflexivity);
                rewrite Hc in Hcpi
    end.
    exact Hcpi.
  - exists cs. split; [exact Hh|].
    etrans; [exact Hn|vm_compute; reflexivity].
Defined.

(** ** Drawing *)

(** Property X12.  A successful [drawCard] in a reachable state, which only
    the player to move can make, puts exactly one card at the end of the
    caller's hand: the card under the cursor, the cursor moving on by one,
    or, when the deck is used up, the first card of the deck reshuffled
    from the moves list, of which only the top card remains.  It closes
    the challenge window of the game, leaves every other hand, the top
    card, the colour and the direction as they were, and moves the turn to
    the neighbour exactly when [endTurn] is set. *)
Theorem drawCard_takes_the_next_card e gid endTurn s s' :
  reachable s → call e (DrawCard gid endTurn) s = (s', Success) →
  let g := gameAt s gid in
  let g' := gameAt s' gid in
  let p := msg_sender e in
  let n := Z.of_nat (length (players g)) in
  playerAtIndex g (currentPlayerIndex g) = p
  ∧ (∃ c, handAt s' gid p = handAt s gid p ++ [c]
          ∧ (deckIndex g < ePreview.length (deck g) →
             deck g !! Z.to_nat (deckIndex g) = Some c
             ∧ deck g' = deck g ∧ deckIndex g' = deckIndex g + 1
             ∧ moves g' = moves g)
          ∧ (ePreview.length (deck g) ≤ deckIndex g →
             deck g' = reshuffledDeck e g
             ∧ deck g' !! 0%nat = Some c ∧ deckIndex g' = 1
             ∧ moves g' = [topCard g]))
  ∧ (∀ q, q ≠ p → handAt s' gid q = handAt s gid q)
  ∧ isUnoWindowOpen s' gid = false
  ∧ currentPlayerIndex g'
    = (if endTurn then neighbour (direction g) n (currentPlayerIndex g)
       else currentPlayerIndex g)
  ∧ topCard g' = topCard g ∧ topCardId g' = topCardId g
  ∧ currentColor g' = currentColor g ∧ direction g' = direction g
  ∧ status g' = Started.
Proof.
  intros Hr Hcall g g' p n. apply call_Success in Hcall. simpl in Hcall.
  apply drawCard_Ok in Hcall as ((Hgid & Hst & _ & _ & Hc0 & Hcur) & H).
  destruct H as (sd & c & g1 & Hg1 & Hpos & Hc & Hmod & Hgsd & Hh & Hwo & _ & _ & _ & Hfin).
  destruct (reachable_Inv s Hr) as (_ & Hinv & _).
  destruct (Hinv gid Hgid) as [[_ Hset] _].
  destruct Hset as [Hskip _]; [by rewrite Hst|].
  fold g p in Hg1, Hcur, Hh, Hst, Hmod, Hskip.
  assert (Hf : players g1 = players g ∧ status g1 = status g
             ∧ currentPlayerIndex g1 = currentPlayerIndex g
             ∧ direction g1 = direction g ∧ skipNextPlayer g1 = skipNextPlayer g
             ∧ topCard g1 = topCard g ∧ topCardId g1 = topCardId g
             ∧ currentColor g1 = currentColor g).
  { by destruct Hg1 as [[_ ->]|(_ & _ & ->)]. }
  destruct Hf as (Hf1 & Hf2 & Hf3 & Hf4 & Hf5 & Hf6 & Hf7 & Hf8).
  assert (Hs' : s' = sd ∧ endTurn = false
              ∨ (endTurn = true
                 ∧ s' = setGame gid (set_currentPlayerIndex
                                       (nextIndex (gameAt sd gid)) (gameAt sd gid)) sd)).
  { destruct endTurn; [right|left; by subst].
    apply advanceToNextPlayer_Ok in Hfin as [Hfin _].
    rewrite Hgsd in Hfin. simpl_game. rewrite Hf5, Hskip in Hfin.
    by rewrite Hgsd. }
  assert (Hgame : g' = set_currentPlayerIndex
                         (if endTurn then nextIndex (gameAt sd gid)
                          else currentPlayerIndex (gameAt sd gid))
                         (gameAt sd gid)).
  { unfold g'. destruct Hs' as [[-> ->]|[-> ->]]; [by destruct (gameAt sd gid)|].
    by simp_state. }
  assert (Hhands : ∀ q, handAt s' gid q = handAt sd gid q).
  { intros q. destruct Hs' as [[-> _]|[_ ->]]; [done|by simp_state]. }
  assert (Hwin : windowOpenAt s' gid = windowOpenAt sd gid).
  { destruct Hs' as [[-> _]|[_ ->]]; [done|by simp_state]. }
  rewrite Hgame, Hgsd. simpl_game. unfold isUnoWindowOpen.
  rewrite Hwin, Hwo, !Hhands, Hh, Hf6, Hf7, Hf8, Hf4, Hf2.
  split_and!; try done.
  - by apply playerAtIndex_lookup.
  - exists c. split; [done|]. split.
    + intros Hlt. destruct Hg1 as [[_ ->]|(Hge & _)]; [done|lia].
    + intros Hge. destruct Hg1 as [[Hlt _]|(_ & _ & ->)]; [lia|].
      simpl_game. unfold reshuffledDeck. split_and!; try done.
  - intros q Hq. rewrite Hhands. apply (mod_hand _ _ _ _ _ Hmod). by right.
  - destruct endTurn; [|done].
    rewrite nextIndex_neighbour. simpl_game. by rewrite Hf4, Hf1, Hf3.
Qed.

(** Alice, to move at the opening of a two-player game, draws and ends her
    turn: she holds one card more and bob is to move. *)
Lemma drawCard_takes_the_next_card_witness :
  let res := call (asPlayer alice) (DrawCard 1 true) tableStarted in
  res.2 = Success
  ∧ (∃ c, handAt res.1 1 alice = handAt tableStarted 1 alice ++ [c])
  ∧ currentPlayerIndex (gameAt res.1 1) = 1.
Proof.
  cbv zeta.
  assert (Hs : (call (asPlayer alice) (DrawCard 1 true) tableStarted).2
               = Success) by (vm_compute; reflexivity).
  pose proof (drawCard_takes_the_next_card (asPlayer alice) 1 true
                tableStarted _ tableStarted_reachable
                (call_outcome _ _ _ _ Hs)) as H.
  cbv zeta in H.
  destruct H as (_ & (c & Hh & _) & _ & _ & Hcpi & _).
  change (msg_sender (asPlayer alice)) with alice in Hh.
  match type of Hcpi with
  | _ = ?v => assert (Hc : v = 1) by (vm_compute; reflexivity);
              rewrite Hc in Hcpi
  end.
  split; [exact Hs|]. split; [by exists c|exact Hcpi].
Defined.


(** ** Calls that meet every listed requirement *)

Lemma shuffledRange_length e :
  validEnv e → ePreview.length (ePreview.shuffledRange e 0 DECK_SIZE) = DECK_SIZE.
Proof.
  intros He. unfold ePreview.length.
  rewrite (Permutation_length (shuffledRange_perm e He)).
  unfold canonicalIds. rewrite length_seqZ. unfold DECK_SIZE. lia.
Qed.

Lemma createGame_accepts e c t s :
  validEnv e → createGameError e t = None →
  ∃ n s', createGame e c t s = Ok (n, s').
Proof.
  intros He. unfold createGameError, createGame, _dealHandToPlayer. cbv zeta.
  rewrite bind_require.
  destruct (inco_getFee e * 2 <=? msg_value e); simpl; [|done].
  rewrite bind_require.
  destruct (t <? DECK_SIZE); simpl; [|done]. intros _.
  pose proof (shuffledRange_length e He) as Hlen.
  set (D := ePreview.shuffledRange e 0 DECK_SIZE) in *.
  repeat (mstep; simp_state).
  erewrite bind_Ok_eq
    by (apply slice_eq; unfold INITIAL_HAND_SIZE, DECK_SIZE in *; lia).
  cbv beta. repeat (mstep; simp_state).
  destruct (lookup_lt_is_Some_2 D (Z.to_nat (0 + INITIAL_HAND_SIZE))) as [top Htop].
  { unfold ePreview.length, INITIAL_HAND_SIZE, DECK_SIZE in *. lia. }
  erewrite bind_Ok_eq
    by (apply getEuint256_eq; [unfold INITIAL_HAND_SIZE; lia|exact Htop]).
  cbv beta. repeat (mstep; simp_state). eauto.
Qed.

Lemma joinGame_accepts e gid j s :
  pileInv (gameAt s gid) →
  (status (gameAt s gid) = NotStarted → dealt s gid) →
  joinGameError e gid j s = None →
  ∃ s', joinGame e gid j s = Ok ((), s').
Proof.
  intros [Hdi _] Hdealt.
  unfold joinGameError, joinGame, _dealHandToPlayer. cbv zeta.
  rewrite bind_validateGame.
  destruct (negb ((0 <? gid) && (gid <=? _gameIdCounter s))); [done|].
  case_bool_decide as Hst; simpl; [|done].
  destruct (Hdealt Hst) as (_ & Hlen & _).
  mrun.
  destruct (_ <? MAX_PLAYERS); simpl; [|done].
  destruct (inco_getFee e <=? msg_value e); simpl; [|done].
  destruct (bool_decide (j ∉ players (gameAt s gid))); simpl; [|done].
  destruct (Z.ltb_spec (deckIndex (gameAt s gid) + INITIAL_HAND_SIZE) DECK_SIZE);
    simpl; [|done].
  intros _.
  erewrite bind_Ok_eq
    by (apply slice_eq; unfold INITIAL_HAND_SIZE in *; lia).
  cbv beta. mrun. eauto.
Qed.

Lemma startGame_accepts e gid s :
  startGameError gid s = None → ∃ s', startGame e gid s = Ok ((), s').
Proof.
  unfold startGameError, startGame, _removeFromNotStartedGames. cbv zeta.
  rewrite bind_validateGame.
  destruct (negb ((0 <? gid) && (gid <=? _gameIdCounter s))); [done|].
  destruct (negb (bool_decide _)); [done|].
  mrun. destruct (2 <=? _); simpl; [|done]. eauto.
Qed.

Lemma callUno_accepts e gid s :
  callUnoError e gid s = None → ∃ s', callUno e gid s = Ok ((), s').
Proof.
  unfold callUnoError, callUno. cbv zeta. rewrite bind_require.
  destruct (msg_value e =? 0); simpl; [|done].
  rewrite bind_validateGame.
  destruct (negb ((0 <? gid) && (gid <=? _gameIdCounter s))); [done|].
  destruct (negb (bool_decide _)); [done|].
  rewrite bind_onlyPlayer.
  destruct (negb (bool_decide _)); [done|].
  mrun. destruct (_ =? 2); simpl; [|done]. eauto.
Qed.

Lemma commitMove_checks e gid i rid cc s :
  commitMoveError e gid i rid cc s = None → moveChecks e gid i rid cc s.
Proof.
  unfold commitMoveError, moveChecks. cbv zeta.
  destruct (Z.ltb_spec 0 gid), (Z.leb_spec gid (_gameIdCounter s)); simpl; try done.
  case_bool_decide as Hst; simpl; [|done].
  case_bool_decide as Hin; simpl; [|done].
  destruct (Z.leb_spec (inco_getFee e * 2) (msg_value e)); simpl; [|done].
  case_bool_decide as Hcur; simpl; [|done].
  destruct Hcur as [Hc0 [a Ha]].
  rewrite (playerAtIndex_lookup _ _ _ Ha).
  case_bool_decide as Hturn; simpl; [subst a|done].
  destruct (Z.leb_spec cc 3); simpl; [|done].
  destruct (Z.ltb_spec rid DECK_SIZE); simpl; [|done].
  destruct (Z.ltb_spec i (ePreview.length (handAt s gid (msg_sender e))));
    simpl; [|done].
  destruct (_isCardPlayableInternal _ _ _); simpl; [|done].
  destruct (Z.leb_spec 0 i); simpl; [|done].
  intros _. split_and!; done || lia.
Qed.

Lemma drawCard_accepts e gid endTurn s :
  validEnv e → gameInv s gid → drawCardError e gid s = None →
  ∃ s', drawCard e gid endTurn s = Ok ((), s').
Proof.
  intros He [[Hshape Hset] _].
  destruct Hshape as (Hnd & Hcpi & Hn2 & Hdir & Hwin & Hdi & Hlast).
  unfold drawCardError, drawCard. cbv zeta. rewrite bind_validateGame.
  destruct (negb ((0 <? gid) && (gid <=? _gameIdCounter s))); [done|].
  case_bool_decide as Hst; simpl; [|done].
  destruct Hset as [Hskip _]; [by rewrite Hst|].
  rewrite bind_onlyPlayer.
  destruct (negb (bool_decide _)); [done|].
  rewrite bind_require.
  destruct (inco_getFee e <=? msg_value e); simpl; [|done].
  rewrite bind_gets.
  case_bool_decide as Hcur; simpl; [|done].
  destruct Hcur as [Hc0 [a Ha]].
  rewrite (playerAtIndex_lookup _ _ _ Ha).
  erewrite bind_Ok_eq by (by apply arrayAt_eq). cbv beta.
  rewrite bind_require.
  destruct (bool_decide (a = msg_sender e)); simpl; [|done].
  set (g := gameAt s gid) in *. set (p := msg_sender e).
  assert (Hend : ∀ (s0 : Contract) c g1,
    players g1 = players g → currentPlayerIndex g1 = currentPlayerIndex g →
    direction g1 = direction g → status g1 = status g →
    skipNextPlayer g1 = false →
    0 ≤ deckIndex g1 < ePreview.length (deck g1) →
    (moves g1 ≠ [] → last (moves g1) = Some (topCard g1)) →
    windowOpenAt s0 gid = false →
    ∃ s', (if endTurn
           then _advanceToNextPlayer e gid
                  (setHand gid p (ePreview.append (handAt s gid p) c)
                     (setGame gid (set_deckIndex (deckIndex g1 + 1) g1) s0))
           else Ok ((), setHand gid p (ePreview.append (handAt s gid p) c)
                     (setGame gid (set_deckIndex (deckIndex g1 + 1) g1) s0)))
          = Ok ((), s')).
  { intros s0 c g1 Hpl Hci Hd Hs Hsk Hdi1 Hl1 Hwo.
    destruct endTurn; [|eauto].
    set (sd := setHand _ _ _ _).
    assert (Hgsd : gameAt sd gid = set_deckIndex (deckIndex g1 + 1) g1).
    { unfold sd. by simp_state. }
    assert (Hshape : gameShape sd gid).
    { unfold gameShape, pileInv. rewrite Hgsd. simpl_game.
      rewrite Hpl, Hci, Hd, Hs.
      split_and!; try done; try lia.
      unfold sd. simp_state. by rewrite Hwo. }
    destruct (advance_outcome e gid sd He Hshape) as [_ Hok].
    apply Hok. rewrite Hgsd. simpl_game. by rewrite Hsk. }
  assert (Htail : ∀ (s0 : Contract) g1,
    players g1 = players g → currentPlayerIndex g1 = currentPlayerIndex g →
    direction g1 = direction g → status g1 = status g →
    skipNextPlayer g1 = false →
    0 ≤ deckIndex g1 < ePreview.length (deck g1) →
    (moves g1 ≠ [] → last (moves g1) = Some (topCard g1)) →
    windowOpenAt s0 gid = false → gameAt s0 gid = g1 →
    handAt s0 gid p = handAt s gid p →
    ∃ s', (ePreview.getEuint256 (deck g1) (deckIndex g1) ≫= λ drawnCard,
           writeGame gid (set_deckIndex (deckIndex g1 + 1)) ≫= λ _,
           gets (λ s, handAt s gid p) ≫= λ currentHand,
           modify (setHand gid p (ePreview.append currentHand drawnCard)) ≫= λ _,
           when endTurn (_advanceToNextPlayer e gid)) s0 = Ok ((), s')).
  { intros s0 g1 Hpl Hci Hd Hs Hsk Hdi1 Hl1 Hwo Hg0 Hh0.
    destruct (lookup_lt_is_Some_2 (deck g1) (Z.to_nat (deckIndex g1))) as [c Hc].
    { unfold ePreview.length in Hdi1. lia. }
    erewrite bind_Ok_eq by (apply getEuint256_eq; [lia|exact Hc]).
    cbv beta. mrun. simp_state. rewrite Hg0, Hh0.
    by apply Hend. }
  rewrite bind_when.
  destruct (Z.leb_spec (ePreview.length (deck g)) (deckIndex g)) as [Hex|Hex]; simpl.
  - rewrite bind_reshuffle. fold g.
    destruct (Z.leb_spec 2 (ePreview.length (moves g))) as [Hm|Hm]; simpl; [|done].
    intros _. mrun. fold p.
    assert (Hre : 0 ≤ deckIndex (reshuffled e g)
                  < ePreview.length (deck (reshuffled e g))).
    { simpl_game. unfold ePreview.length in *.
      rewrite (Permutation_length (He _)), length_take. lia. }
    destruct (windowOpenAt s gid) eqn:Hwo;
      destruct (bool_decide (windowPlayerAt s gid = p)) eqn:Hwp;
      cbn [andb negb].
    all: simp_state; rewrite ?Hwo, ?Hwp; cbn [andb negb]; simp_state.
    all: apply Htail; by simp_state.
  - intros _. mrun. fold p.
    destruct (windowOpenAt s gid) eqn:Hwo;
      destruct (bool_decide (windowPlayerAt s gid = p)) eqn:Hwp;
      cbn [andb negb].
    all: simp_state; rewrite ?Hwo, ?Hwp; cbn [andb negb]; simp_state.
    all: fold g; apply Htail; first [by simp_state | lia].
Qed.

Lemma firstViolation_valid e a s gid :
  firstViolation e a s = None → targetOf a = Some gid →
  0 < gid ≤ _gameIdCounter s.
Proof.
  destruct a as [c t|g j|g|g i r c|g|g t|g b]; simpl; intros H [= <-];
    revert H;
    unfold joinGameError, startGameError, commitMoveError, callUnoError,
      penalizeUnoError, drawCardError; cbv zeta;
    try (destruct (msg_value e =? 0); cbn [negb]; [|done]);
    destruct (Z.ltb_spec 0 g), (Z.leb_spec g (_gameIdCounter s));
    cbn [negb andb]; try done; lia.
Qed.

Lemma exec_accepts e a s :
  reachable s → validEnv e → firstViolation e a s = None →
  ((∃ s', exec e a s = Ok ((), s')) ∨ exec e a s = Revert noReshuffle)
  ∧ (roomInDeck a s → ∃ s', exec e a s = Ok ((), s')).
Proof.
  intros Hr He Hnone.
  destruct (reachable_Inv s Hr) as (_ & Hinv & _).
  destruct (reachable_Facts s Hr) as (Hfacts & _).
  pose proof (firstViolation_valid e a s) as Hgid. rewrite Hnone in Hgid.
  assert (Hall : (∃ s', exec e a s = Ok ((), s')) →
    ((∃ s', exec e a s = Ok ((), s')) ∨ exec e a s = Revert noReshuffle)
    ∧ (roomInDeck a s → ∃ s', exec e a s = Ok ((), s'))) by auto.
  destruct a as [c t|g j|g|g i r c|g|g t|g b]; simpl in Hnone.
  - apply Hall. simpl.
    destruct (createGame_accepts e c t s He Hnone) as (n & s' & H).
    exists s'. by erewrite bind_Ok_eq by exact H.
  - apply Hall. simpl.
    destruct (Hinv g) as [[(_ & _ & _ & _ & _ & Hpile) _] _]; [by apply Hgid|].
    destruct (Hfacts g) as (_ & _ & Hd & _); [by apply Hgid|].
    by apply joinGame_accepts.
  - apply Hall. simpl. by apply startGame_accepts.
  - simpl. apply commitMove_outcome; [done| |by apply commitMove_checks].
    apply Hinv. by apply Hgid.
  - apply Hall. simpl. by apply callUno_accepts.
  - simpl. apply penalizeUno_outcome; [done| |done].
    destruct (Hinv g) as [[Hshape _] _]; [by apply Hgid|done].
  - apply Hall. simpl. apply drawCard_accepts; [done| |done].
    apply Hinv. by apply Hgid.
Qed.

Lemma no_panic e a s :
  reachable s →
  firstViolation e a s ≠ Some "Panic(0x32)"
  ∧ firstViolation e a s ≠ Some "Not enough cards".
Proof.
  intros Hr.
  destruct (reachable_Inv s Hr) as (_ & Hinv & _).
  destruct (reachable_Facts s Hr) as (Hfacts & _).
  assert (Hcur : ∀ g, 0 < g ≤ _gameIdCounter s →
    bool_decide (0 ≤ currentPlayerIndex (gameAt s g)
                 ∧ is_Some (players (gameAt s g)
                            !! Z.to_nat (currentPlayerIndex (gameAt s g)))) = true).
  { intros g Hg. destruct (Hinv g Hg) as [[(_ & Hcpi & _) _] _].
    apply bool_decide_eq_true_2. split; [lia|].
    apply lookup_lt_is_Some_2. lia. }
  destruct a as [c t|g j|g|g i r c|g|g t|g b]; simpl.
  - unfold createGameError. by repeat case_match.
  - unfold joinGameError. cbv zeta.
    destruct (Z.ltb_spec 0 g), (Z.leb_spec g (_gameIdCounter s));
      cbn [negb andb]; try done.
    case_bool_decide as Hst; cbn [negb]; [|done].
    destruct (Hfacts g) as (_ & _ & Hd & _); [lia|].
    destruct (Hd Hst) as (_ & _ & Hdi & _).
    destruct (Z.ltb_spec (Z.of_nat (length (players (gameAt s g)))) MAX_PLAYERS);
      cbn [negb]; [|done].
    destruct (inco_getFee e <=? msg_value e); cbn [negb]; [|done].
    destruct (bool_decide (j ∉ players (gameAt s g))); cbn [negb]; [|done].
    rewrite (proj2 (Z.ltb_lt _ _)); [done|].
    unfold MAX_PLAYERS, INITIAL_HAND_SIZE, DECK_SIZE in *. lia.
  - unfold startGameError. cbv zeta. by repeat case_match.
  - unfold commitMoveError. cbv zeta.
    destruct (Z.ltb_spec 0 g), (Z.leb_spec g (_gameIdCounter s));
      cbn [negb andb]; try done.
    rewrite Hcur by lia. cbn [negb]. by repeat case_match.
  - unfold callUnoError, nonPayable. cbv zeta. by repeat case_match.
  - unfold penalizeUnoError. cbv zeta. by repeat case_match.
  - unfold drawCardError. cbv zeta.
    destruct (Z.ltb_spec 0 g), (Z.leb_spec g (_gameIdCounter s));
      cbn [negb andb]; try done.
    rewrite Hcur by lia. cbn [negb]. unfold noReshuffle. by repeat case_match.
Qed.

(** Property X13.  In a reachable state the requirements listed by
    [firstViolation], the first of which for [callUno] is that the call
    carries no value, are the only reasons for which a call is refused,
    apart from a draw pile that cannot be refilled: a refused call carries
    the message of its first violated requirement, or meets them all and is
    refused with [noReshuffle] while handing out forced draws.  A call that
    meets every requirement goes through whenever the draw pile holds the
    cards it hands out as forced draws, and always for [createGame],
    [joinGame], [startGame], [callUno] and [drawCard].  The array bounds
    check on the player to move and the "Not enough cards" requirement of
    [joinGame] are never the reason for a refusal. *)
Theorem calls_fail_only_as_listed e a s :
  reachable s → validEnv e →
  let res := call e a s in
  (∀ msg, res.2 = Reverted msg →
          firstViolation e a s = Some msg
          ∨ (firstViolation e a s = None ∧ msg = noReshuffle))
  ∧ (firstViolation e a s = None → roomInDeck a s → res.2 = Success)
  ∧ firstViolation e a s ≠ Some "Panic(0x32)"
  ∧ firstViolation e a s ≠ Some "Not enough cards".
Proof.
  intros Hr He res.
  split; [|split; [|by apply no_panic]].
  - intros msg Hres. apply call_reverted_eq, call_Reverted in Hres as [Hex _].
    destruct (firstViolation e a s) as [m|] eqn:Hv.
    + left. apply exec_rejects in Hv. congruence.
    + right. split; [done|].
      destruct (exec_accepts e a s Hr He Hv) as [[[s' Hok]|Hrev] _]; congruence.
  - intros Hv Hroom.
    destruct (exec_accepts e a s Hr He Hv) as [_ Hok].
    destruct (Hok Hroom) as [s' Hs'].
    unfold res. by rewrite (proj2 (call_Success e a s s') Hs').
Qed.

(** Alice, to move with two cards, declares UNO: the call that carries no
    value meets every requirement and goes through, the call that carries
    value violates the first. *)
Lemma calls_fail_only_as_listed_witness :
  firstViolation (unpaid alice) (CallUno 1) tableAliceToMove = None
  ∧ (call (unpaid alice) (CallUno 1) tableAliceToMove).2 = Success
  ∧ firstViolation (asPlayer alice) (CallUno 1) tableAliceToMove
    = Some nonPayable.
Proof.
  assert (Hv : firstViolation (unpaid alice) (CallUno 1) tableAliceToMove
               = None) by (vm_compute; reflexivity).
  pose proof (calls_fail_only_as_listed (unpaid alice) (CallUno 1)
                tableAliceToMove tableAliceToMove_reachable
                (unpaid_valid alice)) as H.
  cbv zeta in H. destruct H as (_ & Hok & _).
  split_and!; [exact Hv|exact (Hok Hv I)|vm_compute; reflexivity].
Defined.


(** ** The deal *)

Lemma lobby_sameGame gid s s' :
  sameGame gid s s' → lobby s gid → lobby s' gid.
Proof.
  intros (Hg & Hh & _). unfold lobby. rewrite Hg. by setoid_rewrite Hh.
Qed.

Lemma joinGame_lobby e gid j s s' :
  joinGame e gid j s = Ok ((), s') → tableFacts s gid → lobby s gid →
  lobby s' gid.
Proof.
  intros ((_ & Hst & _ & _ & Hnew & _) & ->)%joinGame_Ok.
  intros (Hn & _ & Hd & _) (Hcpi & Hdir & Htop & Hhands).
  destruct (Hd Hst) as (_ & _ & Hdi & _).
  unfold lobby. simp_state. simpl_game. split_and!; try done.
  intros k p Hk. apply lookup_app_Some in Hk as [Hk|[Hlen Hk]].
  - assert (p ≠ j) by (intros ->; by apply list_elem_of_lookup_2 in Hk).
    skip_writes. rewrite handAt_setHand_ne by (intros [=]; congruence).
    simp_state. by apply Hhands.
  - apply list_lookup_singleton_Some in Hk as [Hk ->]. simp_state.
    assert (k = length (players (gameAt s gid))) as -> by lia.
    rewrite Hdi. f_equal. f_equal. f_equal.
    unfold dealtFrom. destruct (length (players (gameAt s gid))) eqn:E; [|done].
    lia.
Qed.

Lemma createGame_lobby e creator t s n s' :
  createGame e creator t s = Ok (n, s') → lobby s' n.
Proof.
  intros H. apply createGame_Ok in H
    as (-> & _ & _ & _ & top & Htop & _ & _ & _ & Hg & Hh & _).
  unfold lobby. rewrite Hg. simpl. split_and!; try done.
  intros k p Hk. apply list_lookup_singleton_Some in Hk as [-> <-].
  rewrite Hh. simpl. by rewrite drop_0.
Qed.

Lemma exec_lobby e a s s' :
  exec e a s = Ok ((), s') →
  (∀ gid, 0 < gid ≤ _gameIdCounter s → tableFacts s gid) →
  (∀ gid, 0 < gid ≤ _gameIdCounter s →
          status (gameAt s gid) = NotStarted → lobby s gid) →
  ∀ gid, 0 < gid ≤ _gameIdCounter s' →
         status (gameAt s' gid) = NotStarted → lobby s' gid.
Proof.
  intros H Hfacts IH gid Hgid Hst.
  assert (Hsame : 0 < gid ≤ _gameIdCounter s → sameGame gid s s' → lobby s' gid).
  { intros Hg Hs. apply (lobby_sameGame gid s); [done|].
    apply IH; [done|]. destruct Hs as (Heq & _). by rewrite <- Heq. }
  destruct a as [c t|g j|g|g i r c|g|g t|g b]; simpl in H.
  - apply bind_Ok in H as (n & s1 & H & [= <-]).
    pose proof (createGame_lobby _ _ _ _ _ _ H) as Hnew.
    apply createGame_Ok in H
      as (-> & _ & _ & _ & top & _ & Hcnt & _ & _ & _ & _ & Hgo & Hho & _ & _ & Hwo & Hwp).
    destruct (decide (gid = _gameIdCounter s + 1)) as [->|Hne]; [done|].
    apply Hsame; [lia|].
    split_and!; [by apply Hgo| |apply Hwo|apply Hwp].
    intros p. apply Hho. intros [= -> _]. done.
  - pose proof H as (Hcnt & Hfr)%joinGame_frame. rewrite Hcnt in Hgid.
    destruct (decide (gid = g)) as [->|Hne]; [|by apply Hsame, Hfr].
    pose proof H as ((_ & Hst0 & _) & _)%joinGame_Ok.
    eapply joinGame_lobby; [done|by apply Hfacts|by apply IH].
  - pose proof H as (Hcnt & Hfr)%startGame_frame. rewrite Hcnt in Hgid.
    destruct (decide (gid = g)) as [->|Hne]; [|by apply Hsame, Hfr].
    apply startGame_Ok in H as (_ & ->). revert Hst. by simp_state.
  - pose proof H as (Hcnt & Hfr)%commitMove_frame. rewrite Hcnt in Hgid.
    destruct (decide (gid = g)) as [->|Hne]; [|by apply Hsame, Hfr].
    apply commitMove_book in H as (_ & _ & _ & _ & Hst' & _).
    rewrite Hst' in Hst. by destruct (_ =? 1).
  - pose proof H as (Hcnt & Hfr)%callUno_frame. rewrite Hcnt in Hgid.
    by apply Hsame, Hfr.
  - pose proof H as (Hcnt & Hfr)%penalizeUno_frame. rewrite Hcnt in Hgid.
    destruct (decide (gid = g)) as [->|Hne]; [|by apply Hsame, Hfr].
    apply penalizeUno_book in H as (_ & _ & _ & _ & Hst' & _). congruence.
  - pose proof H as (Hcnt & Hfr)%drawCard_frame. rewrite Hcnt in Hgid.
    destruct (decide (gid = g)) as [->|Hne]; [|by apply Hsame, Hfr].
    apply drawCard_book in H as (_ & _ & _ & _ & Hst' & _). congruence.
Qed.

Lemma reachable_lobby s gid :
  reachable s → 0 < gid ≤ _gameIdCounter s →
  status (gameAt s gid) = NotStarted → lobby s gid.
Proof.
  intros Hr. revert gid.
  induction Hr as [|e a s s' Hr IH He Hcall]; [simpl; intros; lia|].
  apply call_Success in Hcall.
  eapply exec_lobby; [done| |done].
  by destruct (reachable_Facts s Hr) as (? & _).
Qed.

(** Property X14.  While a game has not started, and at the moment
    [startGame] succeeds, the cards are where the deal put them: the deck
    has 108 cards, the creator in seat 0 holds the first seven, the eighth
    is the card turned over, the player in seat [k] holds the seven cards
    from position [7 k + 1] on, the cursor stands behind the last hand, no
    card has been played, the creator is to move and play runs in
    direction 1.  [startGame] writes nothing of the game but its status. *)
Theorem deal_is_by_position s gid :
  reachable s → 0 < gid ≤ _gameIdCounter s →
  status (gameAt s gid) = NotStarted →
  let g := gameAt s gid in
  let n := Z.of_nat (length (players g)) in
  ePreview.length (deck g) = DECK_SIZE
  ∧ moves g = []
  ∧ deckIndex g = INITIAL_HAND_SIZE * n + 1
  ∧ deck g !! 7%nat = Some (topCard g)
  ∧ (∀ k p, players g !! k = Some p →
            handAt s gid p = take 7 (drop (Z.to_nat (dealtFrom k)) (deck g))
            ∧ dealtFrom k + INITIAL_HAND_SIZE ≤ deckIndex g)
  ∧ currentPlayerIndex g = 0 ∧ direction g = 1
  ∧ (∀ e s', call e (StartGame gid) s = (s', Success) →
             gameAt s' gid = set_status Started g
             ∧ 2 ≤ n ≤ MAX_PLAYERS
             ∧ ∀ p, handAt s' gid p = handAt s gid p).
Proof.
  intros Hr Hgid Hst g n.
  destruct (reachable_lobby s gid Hr Hgid Hst) as (Hcpi & Hdir & Htop & Hhands).
  destruct (reachable_Facts s Hr) as (Hfacts & _).
  destruct (Hfacts gid Hgid) as (Hn & _ & Hd & _).
  destruct (Hd Hst) as (Hmv & Hlen & Hdi & _).
  split_and!; [done|done|done|exact Htop| |done|done|].
  - intros k p Hk. split; [by apply Hhands|].
    apply lookup_lt_Some in Hk. fold g in Hdi. rewrite Hdi.
    subst n g. destruct k; cbn [dealtFrom]; unfold INITIAL_HAND_SIZE; lia.
  - intros e s' Hcall.
    apply call_Success in Hcall.
    apply (startGame_Ok e) in Hcall as ((_ & _ & H2) & ->).
    subst n g. simp_state. split_and!; try done; lia.
Qed.

(** Game 1 in the lobby, with alice and bob seated and the deck
    [107, 106, ..., 0]: bob, in seat 1, holds the cards from position 8
    on. *)
Lemma deal_is_by_position_witness :
  handAt tableLobby 1 bob = [99; 98; 97; 96; 95; 94; 93]
  ∧ topCard (gameAt tableLobby 1) = 100
  ∧ deckIndex (gameAt tableLobby 1) = 15.
Proof.
  assert (Hgid : 0 < 1 ≤ _gameIdCounter tableLobby)
    by (vm_compute; split; [reflexivity|discriminate]).
  assert (Hst : status (gameAt tableLobby 1) = NotStarted)
    by (vm_compute; reflexivity).
  assert (Hbob : players (gameAt tableLobby 1) !! 1%nat = Some bob)
    by (vm_compute; reflexivity).
  pose proof (deal_is_by_position tableLobby 1 tableLobby_reachable Hgid Hst) as H.
  cbv zeta in H. destruct H as (_ & _ & Hdi & Htop & Hhands & _).
  destruct (Hhands 1%nat bob Hbob) as [Hh _].
  split_and!.
  - rewrite Hh. vm_compute. reflexivity.
  - assert (Ht : deck (gameAt tableLobby 1) !! 7%nat = Some 100)
      by (vm_compute; reflexivity).
    apply (inj Some). rewrite <- Htop. exact Ht.
  - rewrite Hdi. vm_compute. reflexivity.
Defined.


(** ** Declaring UNO *)

(** Property X15.  [callUno] is not payable: a successful declaration
    carries no value, needs exactly two cards in hand and writes nothing
    but the caller's declaration flag.  The declaration protects the next
    play: when the same caller then plays one of the two cards, the
    challenge window stays closed, the flag is used up,
    [canPenalizePlayer] is false for the caller, and a [penalizeUno] on the
    caller by another participant who attaches the fee is refused with
    [Challenge window not open]. *)
Theorem declaring_uno_protects eU eA eB gid i rid cc s s1 s2 :
  let A := msg_sender eA in
  reachable s → validEnv eU → validEnv eA →
  msg_sender eU = A →
  call eU (CallUno gid) s = (s1, Success) →
  call eA (CommitMove gid i rid cc) s1 = (s2, Success) →
  msg_sender eB ∈ players (gameAt s2 gid) → msg_sender eB ≠ A →
  inco_getFee eB * 2 ≤ msg_value eB →
  msg_value eU = 0
  ∧ s1 = setCalledUno gid A true s
  ∧ getPlayerHandSize s gid A = 2
  ∧ hasPlayerCalledUno s1 gid A = true
  ∧ getPlayerHandSize s2 gid A = 1
  ∧ status (gameAt s2 gid) = Started
  ∧ isUnoWindowOpen s2 gid = false
  ∧ hasPlayerCalledUno s2 gid A = false
  ∧ canPenalizePlayer s2 gid A = false
  ∧ call eB (PenalizeUno gid A) s2
    = (s2, Reverted "Challenge window not open").
Proof.
  intros A Hr HeU He HA Hcall Hplay HinB Hne Hfee.
  pose proof (reachable_step _ _ _ _ Hr HeU Hcall) as Hr1.
  apply call_Success in Hcall. simpl in Hcall.
  apply callUno_Ok in Hcall as ((Hgid & Hst & Hin & Hlen & Hval) & Hs1).
  rewrite HA in Hlen, Hs1.
  assert (Hh1 : handAt s1 gid A = handAt s gid A) by (by rewrite Hs1).
  assert (Hc1 : calledUnoAt s1 gid A = true) by (rewrite Hs1; by simp_state).
  destruct (reachable_Inv s1 Hr1) as (_ & Hinv1 & _).
  assert (Hgid1 : 0 < gid ≤ _gameIdCounter s1) by (by rewrite Hs1).
  destruct (Hinv1 gid Hgid1) as [[Hshape1 _] _].
  apply call_Success in Hplay. simpl in Hplay.
  pose proof (commitMove_effects _ _ _ _ _ _ _ Hshape1 Hplay)
    as (c & Hc & Hh2 & _ & _ & Hc2 & _ & Hw2 & _).
  fold A in Hc, Hh2, Hc2, Hw2.
  pose proof (commitMove_book _ _ _ _ _ _ _ Hplay) as (_ & Hcnt & _ & _ & Hst2 & _).
  fold A in Hst2. rewrite Hh1, Hlen in Hst2. simpl in Hst2.
  rewrite Hc1, andb_false_r in Hw2.
  assert (Hlen2 : ePreview.length (handAt s2 gid A) = 1).
  { rewrite Hh2. unfold ePreview.length in *. rewrite length_delete by eauto.
    rewrite Hh1. lia. }
  unfold getPlayerHandSize, hasPlayerCalledUno, isUnoWindowOpen, canPenalizePlayer.
  rewrite Hw2. split_and!; try done.
  destruct (penalizeUno_refusals eB gid A s2) as [_ Href]; [lia|done|done|].
  destruct (Href Hne Hfee) as (Hclosed & _). by apply Hclosed.
Qed.

(** Alice, to move with [102, 101], declares UNO without attaching value
    and plays the wild 102 with the fee attached: bob's challenge is
    refused. *)
Lemma declaring_uno_protects_witness :
  let s1 := (call (unpaid alice) (CallUno 1) tableAliceToMove).1 in
  let s2 := (call (asPlayer alice) (CommitMove 1 0 102 0) s1).1 in
  getPlayerHandSize s2 1 alice = 1
  ∧ call (asPlayer bob) (PenalizeUno 1 alice) s2
    = (s2, Reverted "Challenge window not open").
Proof.
  cbv zeta.
  assert (Hne : msg_sender (asPlayer bob) ≠ msg_sender (asPlayer alice))
    by (vm_compute; discriminate).
  assert (Hfee : inco_getFee (asPlayer bob) * 2 ≤ msg_value (asPlayer bob))
    by (vm_compute; discriminate).
  assert (HA : msg_sender (unpaid alice) = msg_sender (asPlayer alice))
    by reflexivity.
  assert (H1 : (call (unpaid alice) (CallUno 1) tableAliceToMove).2 = Success)
    by (vm_compute; reflexivity).
  assert (H2 : (call (asPlayer alice) (CommitMove 1 0 102 0)
                  (call (unpaid alice) (CallUno 1) tableAliceToMove).1).2
               = Success) by (vm_compute; reflexivity).
  assert (Hin : msg_sender (asPlayer bob)
                ∈ players (gameAt
                    (call (asPlayer alice) (CommitMove 1 0 102 0)
                       (call (unpaid alice) (CallUno 1) tableAliceToMove).1).1 1)).
  { apply (bool_decide_eq_true_1 _). vm_compute. reflexivity. }
  pose proof (declaring_uno_protects (unpaid alice) (asPlayer alice)
                (asPlayer bob) 1 0 102 0
                tableAliceToMove _ _ tableAliceToMove_reachable
                (unpaid_valid alice) (asPlayer_valid alice) HA
                (call_outcome _ _ _ _ H1)
                (call_outcome _ _ _ _ H2) Hin Hne Hfee) as H.
  cbv zeta in H. destruct H as (_ & _ & _ & _ & Hsize & _ & _ & _ & _ & Href).
  split; [exact Hsize|exact Href].
Defined.


(** ** The card played *)

Lemma hand_sublist_allHands s gid p :
  p ∈ players (gameAt s gid) → handAt s gid p `sublist_of` allHands s gid.
Proof.
  unfold allHands. induction (players (gameAt s gid)) as [|a l IH]; simpl.
  - by intros ?%elem_of_nil.
  - intros [->|Hp]%elem_of_cons.
    + by apply sublist_inserts_r.
    + by apply sublist_inserts_l, IH.
Qed.

Lemma delete_NoDup_absent (l : list Z) i c :
  NoDup l → l !! i = Some c → c ∉ delete i l.
Proof.
  intros Hnd Hc. rewrite <- (take_drop_middle l i c Hc) in Hnd.
  rewrite delete_take_drop.
  apply NoDup_app in Hnd as (_ & Hout & [Hin _]%NoDup_cons).
  intros [H|H]%elem_of_app; [|done].
  apply (Hout c H). by left.
Qed.

Lemma commitMove_moves e gid i rid cc s s' :
  validEnv e → gameInv s gid →
  commitMove e gid i rid cc s = Ok ((), s') →
  moves (gameAt s' gid) ≠ [].
Proof.
  intros He Hinv H. apply commitMove_Ok in H as (Hchk & sp & Hpl & Hfin).
  pose proof Hchk as (_ & Hst & Hin & _).
  destruct (played_shape _ _ _ _ _ _ _ Hinv Hst Hin Hpl) as [Hsp _].
  destruct Hpl as (c & _ & _ & Hg & _).
  assert (Hmv : moves (gameAt sp gid) ≠ []).
  { rewrite Hg.
    destruct (cardEffect_fields (_getCardType rid) (placed c rid cc (gameAt s gid)))
      as (_ & _ & _ & _ & _ & _ & -> & _).
    simpl. by destruct (moves (gameAt s gid)). }
  destruct (Z.eq_dec (ePreview.length (handAt s gid (msg_sender e)) - 1) 0) as [E|E].
  - rewrite E, finishMove_win in Hfin. injection Hfin as <-.
    unfold won. by simp_state.
  - rewrite finishMove_advance in Hfin by done.
    apply advance_summary in Hfin as (cs & d & di & m & _ & _ & _ & _ & _ & _ & Hcons & _).
    destruct Hsp as (_ & _ & _ & _ & _ & Hpile).
    destruct (Hcons He Hpile) as (_ & _ & Hiff). by rewrite Hiff.
Qed.

(** Property X16.  The card that a successful [commitMove] plays is the
    one that [getCardFromHand] returned for the caller and the index before
    the call: it becomes the top card and the last entry of the moves
    list, it is no longer in the caller's hand, which is one card shorter
    and otherwise in the same order, and the caller's declaration flag is
    cleared. *)
Theorem played_card_goes_on_top e gid i rid cc s s' :
  reachable s → validEnv e →
  call e (CommitMove gid i rid cc) s = (s', Success) →
  let p := msg_sender e in
  ∃ c, getCardFromHand gid p i s = Ok (c, s)
     ∧ topCard (gameAt s' gid) = c
     ∧ last (moves (gameAt s' gid)) = Some c
     ∧ handAt s' gid p = delete (Z.to_nat i) (handAt s gid p)
     ∧ getPlayerHandSize s' gid p = getPlayerHandSize s gid p - 1
     ∧ (c ∉ handAt s' gid p)
     ∧ hasPlayerCalledUno s' gid p = false.
Proof.
  intros Hr He Hcall p.
  pose proof (reachable_step _ _ _ _ Hr He Hcall) as Hr'.
  apply call_Success in Hcall. simpl in Hcall.
  pose proof Hcall as (Hchk & _)%commitMove_Ok.
  destruct Hchk as (Hgid & _ & Hin & _ & _ & _ & _ & _ & Hi & _). fold p in Hin, Hi.
  destruct (reachable_Inv s Hr) as (_ & Hinv & _).
  pose proof (Hinv gid Hgid) as Hg. pose proof Hg as [[Hshape _] Hled].
  pose proof (commitMove_effects _ _ _ _ _ _ _ Hshape Hcall)
    as (c & Hc & Hh & _ & Htop & Hcu & _). fold p in Hc, Hh, Hcu.
  pose proof (commitMove_moves _ _ _ _ _ _ _ He Hg Hcall) as Hmv.
  pose proof (commitMove_frame _ _ _ _ _ _ _ Hcall) as [Hcnt _].
  destruct (reachable_Inv s' Hr') as (_ & Hinv' & _).
  destruct (Hinv' gid) as [[(_ & _ & _ & _ & _ & _ & Hlast) _] _]; [by rewrite Hcnt|].
  exists c. split_and!; try done.
  - unfold getCardFromHand. mrun.
    rewrite (proj2 (Z.ltb_lt _ _)) by lia.
    by apply getEuint256_eq; [lia|].
  - rewrite <- Htop. by apply Hlast.
  - unfold getPlayerHandSize, ePreview.length. rewrite Hh.
    rewrite length_delete by eauto.
    apply lookup_lt_Some in Hc. lia.
  - rewrite Hh. apply delete_NoDup_absent; [|done].
    destruct Hled as (c0 & Hperm & _).
    assert (Hnd : NoDup (c0 :: ledger s gid)).
    { rewrite Hperm. apply NoDup_seqZ. }
    apply NoDup_cons in Hnd as [_ Hnd]. unfold ledger in Hnd.
    apply NoDup_app in Hnd as [Hnd _].
    apply (sublist_NoDup _ (allHands s gid)); [exact Hnd|].
    by apply hand_sublist_allHands.
Qed.

(** Alice opens with the first card of her hand, the wild draw four 107. *)
Lemma played_card_goes_on_top_witness :
  let res := call (asPlayer alice) (CommitMove 1 0 107 0) tableStarted in
  res.2 = Success
  ∧ getCardFromHand 1 alice 0 tableStarted = Ok (107, tableStarted)
  ∧ topCard (gameAt res.1 1) = 107
  ∧ handAt res.1 1 alice = [106; 105; 104; 103; 102; 101].
Proof.
  cbv zeta.
  assert (Hget : getCardFromHand 1 alice 0 tableStarted = Ok (107, tableStarted))
    by (vm_compute; reflexivity).
  assert (Hdel : delete (Z.to_nat 0) (handAt tableStarted 1 alice)
                 = [106; 105; 104; 103; 102; 101]) by (vm_compute; reflexivity).
  assert (Hs : (call (asPlayer alice) (CommitMove 1 0 107 0) tableStarted).2
               = Success) by (vm_compute; reflexivity).
  pose proof (played_card_goes_on_top (asPlayer alice) 1 0 107 0 tableStarted _
                tableStarted_reachable (asPlayer_valid alice)
                (call_outcome _ _ _ _ Hs)) as H.
  cbv zeta in H. destruct H as (c & Hc & Htop & _ & Hh & _).
  change (msg_sender (asPlayer alice)) with alice in Hc, Hh.
  rewrite Hget in Hc.
  apply (f_equal (λ r, match r with Ok (x, _) => x | Revert _ => 0 end)) in Hc.
  cbv beta iota in Hc. subst c.
  rewrite Hdel in Hh.
  split_and!; [exact Hs|exact Hget|exact Htop|exact Hh].
Defined.


(** ** The client's decoder against the contract's *)

Lemma forallb_seqZ (P : Z → bool) a n id :
  forallb P (seqZ a n) = true → a ≤ id < a + n → P id = true.
Proof.
  intros H Hid. rewrite forallb_forall in H. apply H.
  apply list_elem_of_In, elem_of_seqZ. lia.
Qed.

Lemma decodesAlike_all : forallb decodesAlike canonicalIds = true.
Proof. vm_compute. reflexivity. Qed.

Lemma clientColour_all :
  forallb (λ id, bool_decide (types.color (types.cardIdToCard id) ≠ None)
                 && bool_decide (types.color (types.cardIdToCard id) = Some "wild"
                                 ↔ WILD_START ≤ id))
          canonicalIds = true.
Proof. vm_compute. reflexivity. Qed.

Lemma playableAlike_all :
  forallb (λ top, forallb (playableAlike top) canonicalIds)
          (seqZ 0 WILD_START) = true.
Proof. vm_compute. reflexivity. Qed.

Lemma wildTop_all :
  forallb (λ top, forallb (λ id,
             negb (types.canPlayCard (types.cardIdToCard id)
                     (types.cardIdToCard top))
             && isCardPlayable id top (_getCardColor id))
             (seqZ 0 WILD_START))
          (seqZ WILD_START (DECK_SIZE - WILD_START)) = true.
Proof. vm_compute. reflexivity. Qed.

(** Property X17.  For every card id of the deck the client's
    [cardIdToCard] decodes what the contract's [getCardInfo] decodes: the
    colour is the name of the contract's colour, [wild] for the cards
    without colour, and the value is the rank of a number card in decimal
    or the name of the kind of an action card.  The colour is never
    [undefined], it is [wild] exactly for the ids from 100 on, and
    [cardToId] gives the id back. *)
Theorem client_decoder_agrees cardId :
  0 ≤ cardId < DECK_SIZE →
  let card := types.cardIdToCard cardId in
  types.cardToId card = cardId
  ∧ types.color card = colorName (getCardInfo cardId).1.2
  ∧ types.value card
    = valueName (getCardInfo cardId).1.1 (getCardInfo cardId).2
  ∧ types.color card ≠ None
  ∧ (types.color card = Some "wild" ↔ WILD_START ≤ cardId).
Proof.
  intros Hid. cbv zeta. unfold getCardInfo, types.cardToId. cbn [fst snd].
  pose proof (forallb_seqZ _ _ _ _ decodesAlike_all Hid) as H.
  pose proof (forallb_seqZ _ _ _ _ clientColour_all Hid) as H'.
  unfold decodesAlike in H. cbv beta in H'.
  apply andb_true_iff in H as [H H3%bool_decide_eq_true].
  apply andb_true_iff in H as [H1%bool_decide_eq_true H2%bool_decide_eq_true].
  apply andb_true_iff in H' as [H4%bool_decide_eq_true H5%bool_decide_eq_true].
  done.
Qed.

(** The second yellow seven and a blue reverse. *)
Lemma client_decoder_agrees_witness :
  types.cardIdToCard 35
  = {| types.id := 35; types.color := Some "yellow"; types.value := "7" |}
  ∧ getCardInfo 35 = (CARD_TYPE_NUMBER, YELLOW, 7)
  ∧ types.color (types.cardIdToCard 91) = colorName BLUE.
Proof.
  destruct (client_decoder_agrees 91) as (_ & Hc & _); [by vm_compute|].
  split_and!; [by vm_compute|by vm_compute|exact Hc].
Defined.

(** Property X18.  On a top card that is not wild, with the colour of the
    top card in force, the client's [canPlayCard] on the decoded cards
    answers as the contract's [isCardPlayable].  On a wild top card the
    client refuses every card that is not wild, although the contract
    accepts the cards of the colour in force: [canPlayCard] does not know
    the colour chosen. *)
Theorem client_playability_agrees cardId topCardId :
  0 ≤ cardId < DECK_SIZE → 0 ≤ topCardId < DECK_SIZE →
  let card := types.cardIdToCard cardId in
  let topCard := types.cardIdToCard topCardId in
  (topCardId < WILD_START →
   types.canPlayCard card topCard
   = isCardPlayable cardId topCardId (_getCardColor topCardId))
  ∧ (WILD_START ≤ topCardId → cardId < WILD_START →
     types.canPlayCard card topCard = false
     ∧ isCardPlayable cardId topCardId (_getCardColor cardId) = true).
Proof.
  intros Hid Htop. cbv zeta. split.
  - intros Hw.
    assert (H : forallb (playableAlike topCardId) canonicalIds = true).
    { apply (forallb_seqZ _ _ _ _ playableAlike_all). lia. }
    apply (forallb_seqZ _ _ _ cardId) in H; [|done].
    by apply bool_decide_eq_true in H.
  - intros Hw Hc.
    pose proof (forallb_seqZ _ _ _ topCardId wildTop_all) as H.
    cbv beta in H.
    apply (forallb_seqZ _ _ _ cardId) in H;
      [|unfold WILD_START, DECK_SIZE in *; lia..].
    apply andb_true_iff in H as [H1%negb_true_iff H2]. done.
Qed.

(** A red five on the other red five and on a green five, and a red five
    on a wild card. *)
Lemma client_playability_agrees_witness :
  types.canPlayCard (types.cardIdToCard 5) (types.cardIdToCard 14) = true
  ∧ isCardPlayable 5 43 (_getCardColor 43) = true
  ∧ types.canPlayCard (types.cardIdToCard 5) (types.cardIdToCard 100) = false
  ∧ isCardPlayable 5 100 RED = true.
Proof.
  destruct (client_playability_agrees 5 43) as [Hsame _]; [by vm_compute..|].
  destruct (client_playability_agrees 5 100) as [_ Hwild]; [by vm_compute..|].
  destruct Hwild as [Hno Hyes]; [by vm_compute..|].
  split_and!; [by vm_compute| |exact Hno|exact Hyes].
  rewrite <- Hsame by (by vm_compute). by vm_compute.
Defined.


(** ** The penalty *)

(** Property X19.  A successful [penalizeUno] in a reachable state is made
    by a participant other than the target while the window is open on the
    target, who holds one card.  It hands the target exactly two cards,
    taken from the draw pile, refilled from the moves list if need be, so
    that the target holds three; it closes the window and clears the
    target's declaration flag.  The turn, the direction, the top card, the
    colour in force and every other hand stay as they were. *)
Theorem challenge_costs_two_cards e gid target s s' :
  reachable s → validEnv e →
  call e (PenalizeUno gid target) s = (s', Success) →
  let g := gameAt s gid in
  let g' := gameAt s' gid in
  (isUnoWindowOpen s gid = true ∧ getUnoWindowPlayer s gid = target
   ∧ msg_sender e ∈ players g
   ∧ msg_sender e ≠ target ∧ getPlayerHandSize s gid target = 1)
  ∧ (∃ c1 c2, handAt s' gid target = handAt s gid target ++ [c1; c2]
              ∧ [c1; c2] ++ drawPile g' ++ moves g' ≡ₚ drawPile g ++ moves g)
  ∧ getPlayerHandSize s' gid target = 3
  ∧ (∀ q, q ≠ target → handAt s' gid q = handAt s gid q)
  ∧ isUnoWindowOpen s' gid = false
  ∧ hasPlayerCalledUno s' gid target = false
  ∧ players g' = players g ∧ status g' = Started
  ∧ currentPlayerIndex g' = currentPlayerIndex g ∧ direction g' = direction g
  ∧ topCard g' = topCard g ∧ topCardId g' = topCardId g
  ∧ currentColor g' = currentColor g.
Proof.
  intros Hr He Hcall g g'. subst g g'.
  apply call_Success in Hcall. simpl in Hcall.
  apply penalizeUno_Ok in Hcall
    as ((Hgid & Hst & Hin & Hne & _ & Hwo & Hwp & _) & H).
  destruct (reachable_Inv s Hr) as (_ & Hinv & _).
  destruct (Hinv gid Hgid) as [[(_ & _ & _ & _ & _ & Hpile) _] _].
  destruct (reachable_Facts s Hr) as (Hfacts & _).
  destruct (Hfacts gid Hgid) as (_ & _ & _ & _ & _ & Hwin).
  destruct (Hwin Hwo) as [_ Hone]. rewrite Hwp in Hone.
  apply forceDrawCards_summary in H
    as (cs & Hlen & Hmod & (d & di & m & Hg') & Hh & Hcu & _ & Hcons).
  revert Hg' Hh Hcons. simp_state. intros Hg' Hh Hcons.
  destruct (Hcons He Hpile) as (Hperm & _).
  change (Z.to_nat 2) with 2%nat in Hlen.
  destruct cs as [|c1 [|c2 [|? ?]]]; try done.
  unfold isUnoWindowOpen, getUnoWindowPlayer, getPlayerHandSize, hasPlayerCalledUno.
  rewrite Hg'. unfold piles. simpl_game.
  split_and!; try done.
  - exists c1, c2. split; [done|]. revert Hperm. rewrite Hg'. by unfold drawPile, piles.
  - rewrite Hh. unfold ePreview.length in *. rewrite length_app. simpl. lia.
  - intros q Hq. rewrite (mod_hand _ _ _ _ _ Hmod) by (by right). by simp_state.
  - rewrite (mod_open _ _ _ _ _ Hmod) by (by right). by simp_state.
Qed.

(** Bob challenges alice, who holds [101] after playing without
    declaring: she draws two cards and bob is still to move. *)
Lemma challenge_costs_two_cards_witness :
  let res := call (asPlayer bob) (PenalizeUno 1 alice) tableOneLeft in
  res.2 = Success
  ∧ getPlayerHandSize res.1 1 alice = 3
  ∧ currentPlayerIndex (gameAt res.1 1)
    = currentPlayerIndex (gameAt tableOneLeft 1).
Proof.
  cbv zeta.
  assert (Hs : (call (asPlayer bob) (PenalizeUno 1 alice) tableOneLeft).2
               = Success) by (vm_compute; reflexivity).
  pose proof (challenge_costs_two_cards (asPlayer bob) 1 alice tableOneLeft _
                tableOneLeft_reachable (asPlayer_valid bob)
                (call_outcome _ _ _ _ Hs)) as H.
  cbv zeta in H.
  destruct H as (_ & _ & H3 & _ & _ & _ & _ & _ & Hcpi & _).
  split_and!; [exact Hs|exact H3|exact Hcpi].
Defined.
